(** * Love Pong: the scoring state machine, paddle and ball physics, game loop

    A shallow embedding of [code/main.py] (class [Game]) and
    [code/sprites.py] (classes [Paddle], [Player], [Opponent], [Ball]),
    with the properties of the score/challenge state machine, of the
    collision and wall handling, of the game loop, of the login menu and of
    the fitting of the sprites' images.

    Conventions.
    - Python [int]s are [Z]; Python [float]s are idealised as exact
      rationals [Q] (no rounding error is modelled).
    - [pygame.Rect] stores integer coordinates; they are [Z] here (the C
      [int] range of pygame is not modelled).  A float assigned to a Rect
      attribute is rounded to the nearest integer, a half going away from
      zero ([to_int]).
    - [settings.py] is not part of the sources at hand: the constants read
      from it ([WINDOW_WIDTH], [WINDOW_HEIGHT], [SPEED], [POS]) are the
      fields of a record [Settings] that the definitions take as argument;
      the sizes of the sprites ([SIZE]) are those of their rectangles.
    - A Python exception ([KeyError] on the score dict) is [None]. *)

From Stdlib Require Import ZArith QArith Qabs Qround Bool List Lia Lqa.
From stdpp Require Import base option strings gmap.
Import ListNotations.

Local Open Scope Z_scope.

(** ** The score / challenge state of [Game] (main.py) *)

Module Score.

(** [self.TARGET_PLAYER = 26], [self.TARGET_OPPONENT = 7]: assigned once in
    [Game.__init__] and never written again. *)
Definition TARGET_PLAYER : Z := 26.
Definition TARGET_OPPONENT : Z := 7.

(** The fields of [Game] that [update_score] reads and writes. *)
Record Game := mkGame {
  score : gmap string Z;        (* self.score, a dict *)
  in_challenge : bool;
  challenge_won : bool;
  show_retry_modal : bool
}.

Definition set_score (sc : gmap string Z) (g : Game) : Game :=
  mkGame sc (in_challenge g) (challenge_won g) (show_retry_modal g).
Definition set_in_challenge (b : bool) (g : Game) : Game :=
  mkGame (score g) b (challenge_won g) (show_retry_modal g).
Definition set_challenge_won (b : bool) (g : Game) : Game :=
  mkGame (score g) (in_challenge g) b (show_retry_modal g).
Definition set_show_retry_modal (b : bool) (g : Game) : Game :=
  mkGame (score g) (in_challenge g) (challenge_won g) b.

(** [{'player': 0, 'opponent': 0}] *)
Definition zero_score : gmap string Z :=
  <["player" := 0]> (<["opponent" := 0]> ∅).

(** [d[k] += 1]; a missing key raises [KeyError]. *)
Definition incr (k : string) (d : gmap string Z) : option (gmap string Z) :=
  match d !! k with
  | Some v => Some (<[k := v + 1]> d)
  | None => None
  end.

(** The [elif] of [update_score]:
    [(score['player'] > TARGET_PLAYER) or (score['opponent'] > TARGET_OPPONENT)]
    sets [show_retry_modal]. *)
Definition overshoot_check (g : Game) : option Game :=
  match score g !! "player" with
  | None => None
  | Some p =>
    if TARGET_PLAYER <? p then Some (set_show_retry_modal true g)
    else match score g !! "opponent" with
         | None => None
         | Some o =>
           if TARGET_OPPONENT <? o then Some (set_show_retry_modal true g)
           else Some g
         end
  end.

(** The [if self.in_challenge:] block of [update_score]. *)
Definition challenge_check (g : Game) : option Game :=
  match score g !! "player" with
  | None => None
  | Some p =>
    if p =? TARGET_PLAYER then
      match score g !! "opponent" with
      | None => None
      | Some o =>
        if o =? TARGET_OPPONENT then Some (set_challenge_won true g)
        else overshoot_check g
      end
    else overshoot_check g
  end.

(** [Game.update_score(side)]: every [side] other than ['player'] counts for
    the opponent. *)
Definition update_score (side : string) (g : Game) : option Game :=
  match incr (if bool_decide (side = "player") then "player" else "opponent")
             (score g) with
  | None => None
  | Some sc =>
    let g1 := set_score sc g in
    if in_challenge g1 then challenge_check g1 else Some g1
  end.

(** The key whose counter a scoring event for [side] increments. *)
Definition scored_key (side : string) : string :=
  if bool_decide (side = "player") then "player" else "opponent".

(** The other key. *)
Definition other_key (side : string) : string :=
  if bool_decide (side = "player") then "opponent" else "player".

(** Target of a key. *)
Definition target_of (k : string) : Z :=
  if bool_decide (k = "player") then TARGET_PLAYER else TARGET_OPPONENT.

(** The counters after a scoring event for [side], from the counters
    [(p, o)] before it. *)
Definition counters_after (side : string) (p o : Z) : Z * Z :=
  if bool_decide (side = "player") then (p + 1, o) else (p, o + 1).

(** The score dict after a scoring event for [side]. *)
Definition score_after (side : string) (p o : Z) (sc : gmap string Z)
    : gmap string Z :=
  if bool_decide (side = "player") then <["player" := p + 1]> sc
  else <["opponent" := o + 1]> sc.

(** The states of the specification, read off the three flags in the order
    [Game.run] tests them. *)
Inductive ChallengeState := Idle | Active | Won | OvershootPending.

Definition state_of (g : Game) : ChallengeState :=
  if negb (in_challenge g) then Idle
  else if show_retry_modal g then OvershootPending
  else if challenge_won g then Won
  else Active.

End Score.

(** ** Numbers *)

(** [a < b] on floats. *)
Definition Qlt_bool (a b : Q) : bool := negb (Qle_bool b a).

(** A float assigned to a [pygame.Rect] attribute is rounded to the nearest
    integer, a half going away from zero: 15.5 gives 16, -15.5 gives -16.
    (pygame refuses a value beyond the range of a C [int] with a
    [TypeError]; coordinates are taken within that range.) *)
Definition to_int (q : Q) : Z :=
  if Qlt_bool q 0 then - Qfloor (- q + (1 # 2)) else Qfloor (q + (1 # 2)).

(** ** settings.py (absent from the sources): the constants the code reads *)

Record Settings := mkSettings {
  WINDOW_WIDTH : Z;
  WINDOW_HEIGHT : Z;
  SPEED_ball : Q;              (* SPEED['ball'] *)
  POS_player : Q * Q;          (* POS['player'] *)
  POS_opponent : Q * Q         (* POS['opponent'] *)
}.

(** ** pygame.Rect *)

Module Rect.

Record t := mk { x : Z; y : Z; w : Z; h : Z }.

Definition left (r : t) : Z := x r.
Definition top (r : t) : Z := y r.
Definition right (r : t) : Z := x r + w r.
Definition bottom (r : t) : Z := y r + h r.
Definition centerx (r : t) : Z := x r + Z.shiftr (w r) 1.
Definition centery (r : t) : Z := y r + Z.shiftr (h r) 1.

Definition set_x (v : Z) (r : t) : t := mk v (y r) (w r) (h r).
Definition set_y (v : Z) (r : t) : t := mk (x r) v (w r) (h r).
Definition set_left (v : Z) (r : t) : t := set_x v r.
Definition set_top (v : Z) (r : t) : t := set_y v r.
Definition set_right (v : Z) (r : t) : t := set_x (v - w r) r.
Definition set_bottom (v : Z) (r : t) : t := set_y (v - h r) r.
Definition set_centery (v : Z) (r : t) : t := set_y (v - Z.shiftr (h r) 1) r.
Definition set_center (c : Z * Z) (r : t) : t :=
  mk (fst c - Z.shiftr (w r) 1) (snd c - Z.shiftr (h r) 1) (w r) (h r).

(** [A.colliderect(B)]: both of non-zero size and strictly overlapping. *)
Definition colliderect (a b : t) : bool :=
  negb (w a =? 0) && negb (h a =? 0) && negb (w b =? 0) && negb (h b =? 0)
  && (Z.min (x a) (x a + w a) <? Z.max (x b) (x b + w b))
  && (Z.min (y a) (y a + h a) <? Z.max (y b) (y b + h b))
  && (Z.min (x b) (x b + w b) <? Z.max (x a) (x a + w a))
  && (Z.min (y b) (y b + h b) <? Z.max (y a) (y a + h a)).

(** [r.collidepoint((px, py))] *)
Definition collidepoint (p : Z * Z) (r : t) : bool :=
  (x r <=? fst p) && (fst p <? x r + w r)
  && (y r <=? snd p) && (snd p <? y r + h r).

(** A rectangle of positive width and height, as [Surface.get_rect] gives
    for the sprites' images. *)
Definition positive (r : t) : Prop := 0 < w r /\ 0 < h r.

(** Truth value of a Rect: non-zero width and height. *)
Definition truthy (r : t) : bool := negb (w r =? 0) && negb (h r =? 0).

End Rect.

(** ** Paddle, Player, Opponent (sprites.py) *)

Module Paddle.

Inductive Kind := Player | Opponent.

Record t := mk {
  kind : Kind;
  rect : Rect.t;
  old_rect : Rect.t;
  direction : Z;
  speed : Q                    (* SPEED['player'] or SPEED['opponent'] *)
}.

Definition set_rect (r : Rect.t) (p : t) : t :=
  mk (kind p) r (old_rect p) (direction p) (speed p).
Definition set_old_rect (r : Rect.t) (p : t) : t :=
  mk (kind p) (rect p) r (direction p) (speed p).
Definition set_direction (d : Z) (p : t) : t :=
  mk (kind p) (rect p) (old_rect p) d (speed p).

(** [pygame.key.get_pressed()], the two keys the game reads. *)
Record Keys := mkKeys { K_UP : bool; K_DOWN : bool }.

Section WithSettings.
Variable cfg : Settings.

(** [Paddle.move(dt)] *)
Definition move (dt : Q) (p : t) : t :=
  let r0 := rect p in
  let r1 := Rect.set_centery
              (to_int (inject_Z (Rect.centery r0)
                       + inject_Z (direction p) * speed p * dt)%Q) r0 in
  let r2 := Rect.set_top (if Rect.top r1 <? 0 then 0 else Rect.top r1) r1 in
  let r3 := Rect.set_bottom
              (if WINDOW_HEIGHT cfg <? Rect.bottom r2 then WINDOW_HEIGHT cfg
               else Rect.bottom r2) r2 in
  set_rect r3 p.

(** [Player.get_direction] and [Opponent.get_direction]; the opponent reads
    the rectangle of the ball it holds a reference to. *)
Definition get_direction (keys : Keys) (ball_rect : Rect.t) (p : t) : t :=
  match kind p with
  | Player =>
    set_direction (Z.b2z (K_DOWN keys) - Z.b2z (K_UP keys)) p
  | Opponent =>
    set_direction
      (if Rect.centery (rect p) <? Rect.centery ball_rect then 1 else -1) p
  end.

(** [Paddle.update(dt)] *)
Definition update (dt : Q) (keys : Keys) (ball_rect : Rect.t) (p : t) : t :=
  let p1 := set_old_rect (rect p) p in
  let p2 := get_direction keys ball_rect p1 in
  move dt p2.

End WithSettings.
End Paddle.

(** ** Ball (sprites.py) *)

Module Ball.

(** [pygame.Vector2] *)
Record Vector2 := mkVector2 { vx : Q; vy : Q }.

Record t := mk {
  rect : Rect.t;
  old_rect : Rect.t;
  direction : Vector2;
  speed_modifier : Z;
  start_time : Z
}.

(** [self.duration = 1200], assigned in [Ball.__init__] only. *)
Definition duration : Z := 1200.

Definition set_rect (r : Rect.t) (b : t) : t :=
  mk r (old_rect b) (direction b) (speed_modifier b) (start_time b).
Definition set_old_rect (r : Rect.t) (b : t) : t :=
  mk (rect b) r (direction b) (speed_modifier b) (start_time b).
Definition set_direction (d : Vector2) (b : t) : t :=
  mk (rect b) (old_rect b) d (speed_modifier b) (start_time b).
Definition set_speed_modifier (m : Z) (b : t) : t :=
  mk (rect b) (old_rect b) (direction b) m (start_time b).
Definition set_start_time (s : Z) (b : t) : t :=
  mk (rect b) (old_rect b) (direction b) (speed_modifier b) s.

(** Two directions with the same magnitude in each component. *)
Definition same_magnitude (u v : Vector2) : Prop :=
  Qabs (vx u) = Qabs (vx v) /\ Qabs (vy u) = Qabs (vy v).

(** What neither a collision nor a wall bounce changes in a ball: the size
    of its rectangle, the serve timer, the speed modifier, the previous
    rectangle. *)
Definition same_frame (b b' : t) : Prop :=
  Rect.w (rect b') = Rect.w (rect b)
  /\ Rect.h (rect b') = Rect.h (rect b)
  /\ old_rect b' = old_rect b
  /\ speed_modifier b' = speed_modifier b
  /\ start_time b' = start_time b.

(** [self.direction.x *= -1] and [self.direction.y *= -1] *)
Definition flip_x (b : t) : t :=
  set_direction (mkVector2 (vx (direction b) * (-1 # 1))%Q (vy (direction b))) b.
Definition flip_y (b : t) : t :=
  set_direction (mkVector2 (vx (direction b)) (vy (direction b) * (-1 # 1))%Q) b.

(** What one call of [reset] reads from outside: the clock and the three
    draws of [random]. *)
Record Draw := mkDraw {
  ticks : Z;            (* pygame.time.get_ticks() *)
  pick_x : bool;        (* index drawn by choice((1, -1)): false is 0, true is 1 *)
  unit_u : Q;           (* random.random() behind uniform(0.7, 0.8) *)
  pick_sign : bool      (* index drawn by choice((-1, 1)) *)
}.

(** [random.choice] on a pair, by the index drawn. *)
Definition choice (p : Z * Z) (second : bool) : Z :=
  if second then snd p else fst p.

(** [random.uniform(a, b)] is [a + (b - a) * random()]. *)
Definition uniform (a b u : Q) : Q := (a + (b - a) * u)%Q.

Inductive Axis := Horizontal | Vertical.

Section WithSettings.
Variable cfg : Settings.

(** [Ball.reset()] *)
Definition reset (d : Draw) (b : t) : t :=
  let r := Rect.set_center
             (to_int (inject_Z (WINDOW_WIDTH cfg) / (2 # 1))%Q,
              to_int (inject_Z (WINDOW_HEIGHT cfg) / (2 # 1))%Q) (rect b) in
  let cx := choice (1, -1) (pick_x d) in
  let m := uniform (7 # 10) (8 # 10) (unit_u d) in
  let sg := choice (-1, 1) (pick_sign d) in
  let dir := mkVector2 (inject_Z cx) (m * inject_Z sg)%Q in
  set_start_time (ticks d) (set_direction dir (set_rect r b)).

(** [Ball.timer()], [now] being [pygame.time.get_ticks()] *)
Definition timer (now : Z) (b : t) : t :=
  if duration <=? now - start_time b then set_speed_modifier 1 b
  else set_speed_modifier 0 b.

(** The two tests of the horizontal branch, on the ball as it is when the
    test runs. *)
Definition enters_from_left (s : Paddle.t) (b : t) : bool :=
  (Rect.left (Paddle.rect s) <=? Rect.right (rect b))
  && (Rect.right (old_rect b) <=? Rect.left (Paddle.old_rect s)).
Definition enters_from_right (s : Paddle.t) (b : t) : bool :=
  (Rect.left (rect b) <=? Rect.right (Paddle.rect s))
  && (Rect.right (Paddle.old_rect s) <=? Rect.left (old_rect b)).
(** The two tests of the vertical branch. *)
Definition enters_from_top (s : Paddle.t) (b : t) : bool :=
  (Rect.top (Paddle.rect s) <=? Rect.bottom (rect b))
  && (Rect.bottom (old_rect b) <=? Rect.top (Paddle.old_rect s)).
Definition enters_from_bottom (s : Paddle.t) (b : t) : bool :=
  (Rect.top (rect b) <=? Rect.bottom (Paddle.rect s))
  && (Rect.bottom (Paddle.old_rect s) <=? Rect.top (old_rect b)).

(** The body of the [for sprite in self.paddle_sprites] loop of
    [Ball.collision]: two [if]s in sequence, the second sees the ball as the
    first left it. *)
Definition collision_sprite (a : Axis) (s : Paddle.t) (b : t) : t :=
  if Rect.colliderect (Paddle.rect s) (rect b) then
    match a with
    | Horizontal =>
      let b1 := if enters_from_left s b
                then flip_x (set_rect (Rect.set_right (Rect.left (Paddle.rect s))
                                                      (rect b)) b)
                else b in
      if enters_from_right s b1
      then flip_x (set_rect (Rect.set_left (Rect.right (Paddle.rect s))
                                           (rect b1)) b1)
      else b1
    | Vertical =>
      let b1 := if enters_from_top s b
                then flip_y (set_rect (Rect.set_bottom (Rect.top (Paddle.rect s))
                                                       (rect b)) b)
                else b in
      if enters_from_bottom s b1
      then flip_y (set_rect (Rect.set_top (Rect.bottom (Paddle.rect s))
                                          (rect b1)) b1)
      else b1
    end
  else b.

(** [Ball.collision(direction)] over [self.paddle_sprites] *)
Definition collision (a : Axis) (paddles : list Paddle.t) (b : t) : t :=
  fold_left (fun acc s => collision_sprite a s acc) paddles b.

(** [Ball.move(dt)] *)
Definition move (dt : Q) (paddles : list Paddle.t) (b : t) : t :=
  let b1 := set_rect
              (Rect.set_x
                 (to_int (inject_Z (Rect.x (rect b))
                          + vx (direction b) * SPEED_ball cfg * dt
                            * inject_Z (speed_modifier b))%Q) (rect b)) b in
  let b2 := collision Horizontal paddles b1 in
  let b3 := set_rect
              (Rect.set_y
                 (to_int (inject_Z (Rect.y (rect b2))
                          + vy (direction b2) * SPEED_ball cfg * dt
                            * inject_Z (speed_modifier b2))%Q) (rect b2)) b2 in
  collision Vertical paddles b3.

(** The first two [if]s of [Ball.wall_collision]: top and bottom walls. *)
Definition wall_bounce (b : t) : t :=
  let b1 := if Rect.top (rect b) <=? 0
            then flip_y (set_rect (Rect.set_top 0 (rect b)) b) else b in
  if WINDOW_HEIGHT cfg <=? Rect.bottom (rect b1)
  then flip_y (set_rect (Rect.set_bottom (WINDOW_HEIGHT cfg) (rect b1)) b1)
  else b1.

(** The test of the third [if]: the ball left the window sideways. *)
Definition exits (b : t) : bool :=
  (WINDOW_WIDTH cfg <=? Rect.right (rect b)) || (Rect.left (rect b) <=? 0).

(** ['player' if self.rect.x < WINDOW_WIDTH / 2 else 'opponent'] *)
Definition scoring_side (b : t) : string :=
  if Qlt_bool (inject_Z (Rect.x (rect b)))
              (inject_Z (WINDOW_WIDTH cfg) / (2 # 1))%Q
  then "player" else "opponent".

(** The ball holds the callback [update_score] it was constructed with; [G]
    is the state of the object the callback belongs to. *)
Section WithCallback.
Context {G : Type}.
Variable update_score : string -> G -> option G.

(** [Ball.wall_collision()] *)
Definition wall_collision (d : Draw) (b : t) (g : G) : option (t * G) :=
  let b2 := wall_bounce b in
  if exits b2 then
    match update_score (scoring_side b2) g with
    | Some g' => Some (reset d b2, g')
    | None => None
    end
  else Some (b2, g).

(** [Ball.update(dt)]; [now] is the clock read by [timer], [d] what a
    [reset] in this update reads. *)
Definition update (dt : Q) (now : Z) (d : Draw) (paddles : list Paddle.t)
    (b : t) (g : G) : option (t * G) :=
  let b1 := set_old_rect (rect b) b in
  let b2 := timer now b1 in
  let b3 := move dt paddles b2 in
  wall_collision d b3 g.

(** What one [Ball.update] reads from outside. *)
Record Tick := mkTick {
  t_dt : Q;
  t_now : Z;
  t_draw : Draw;
  t_paddles : list Paddle.t
}.

(** Consecutive calls of [Ball.update]. *)
Fixpoint updates (ts : list Tick) (b : t) (g : G) : option (t * G) :=
  match ts with
  | [] => Some (b, g)
  | k :: rest =>
    match update (t_dt k) (t_now k) (t_draw k) (t_paddles k) b g with
    | Some (b', g') => updates rest b' g'
    | None => None
    end
  end.

End WithCallback.

(** The ball as [Ball.update] leaves it when the third [if] of
    [wall_collision] does not fire. *)
Definition advance (k : Tick) (b : t) : t :=
  wall_bounce (move (t_dt k) (t_paddles k) (timer (t_now k)
                                              (set_old_rect (rect b) b))).

(** No call of [reset] along the updates [ts] of the ball [b]. *)
Fixpoint reset_free (ts : list Tick) (b : t) : bool :=
  match ts with
  | [] => true
  | k :: rest => negb (exits (advance k b)) && reset_free rest (advance k b)
  end.

End WithSettings.
End Ball.

(** ** Game (main.py): the sprites, the retry flow, one frame of [run] *)

Module Loop.

(** The objects a frame reads and writes: the scoring fields of [Game] and
    the three sprites, in the order they were added to [all_sprites] and
    [paddle_sprites] (player, ball, opponent). *)
Record World := mkWorld {
  game : Score.Game;
  player : Paddle.t;
  ball : Ball.t;
  opponent : Paddle.t
}.

Definition set_game (g : Score.Game) (w : World) : World :=
  mkWorld g (player w) (ball w) (opponent w).

Inductive Key := K_ESCAPE | K_other.

Inductive Event :=
| QUIT
| KEYDOWN (key : Key)
| MOUSEBUTTONDOWN (button : Z)
| MOUSEBUTTONUP (button : Z)
| OtherEvent.

(** How the menus run by the "No" choice end: [sys.exit()] on a QUIT event
    inside one of them, [login_menu] returning false, or Continue pressed in
    [challenge_menu]. *)
Inductive MenuOutcome :=
| ExitAtStart | ExitAtLogin | LoginNotOk | ExitAtChallenge | Continued.

(** What the handling of one event may read from outside. *)
Record Oracle := mkOracle {
  menus : MenuOutcome;
  mouse : Z * Z;              (* pygame.mouse.get_pos() *)
  draw : Ball.Draw            (* read by a ball.reset() *)
}.

(** What the frame did, in order. *)
Inductive Action :=
| PollEvents | SaveScore | QuitPygame | StartMenu | LoginMenu | ChallengeMenu
| FillBackground | UpdateSprites | DrawSprites | DisplayScore
| DrawRetryModal | PollMouseEvents | FinalMenu | DisplayUpdate.

(** [Running]: the [while True] loop goes on; [Left]: the loop was left
    ([sys.exit()], [return] or [break]); [Raised]: an exception escaped. *)
Inductive Status := Running | Left | Raised.

Record FrameInput := mkFrameInput {
  dt : Q;                           (* self.clock.tick(60) / 1000.0 *)
  events : list (Event * Oracle);   (* pygame.event.get() *)
  keys : Paddle.Keys;               (* pygame.key.get_pressed() *)
  now : Z;                          (* get_ticks() in Ball.timer *)
  serve : Ball.Draw;                (* read by a reset in Ball.update *)
  clicks : list (Event * Oracle)    (* pygame.event.get([MOUSEBUTTONDOWN, MOUSEBUTTONUP]) *)
}.

Section WithSettings.
Variable cfg : Settings.

(** [s.rect.center = POS[...]] *)
Definition place (pos : Q * Q) (p : Paddle.t) : Paddle.t :=
  Paddle.set_rect
    (Rect.set_center (to_int (fst pos), to_int (snd pos)) (Paddle.rect p)) p.

(** The body of the loops over [paddle_sprites] that re-seat the paddles. *)
Definition reseat (p : Paddle.t) : Paddle.t :=
  if Rect.centerx (Paddle.rect p) <? WINDOW_WIDTH cfg / 2
  then place (POS_opponent cfg) p
  else place (POS_player cfg) p.

(** The guard of that body in [reset_challenge_round]:
    [getattr(s, 'rect', None) and getattr(s.rect, 'center', None)]. *)
Definition reseat_guarded (p : Paddle.t) : Paddle.t :=
  if Rect.truthy (Paddle.rect p) then reseat p else p.

(** [Game.reset_challenge_round()] *)
Definition reset_challenge_round (d : Ball.Draw) (w : World) : World :=
  let g1 := Score.set_score Score.zero_score (game w) in
  let b1 := Ball.reset cfg d (ball w) in
  let p1 := place (POS_player cfg) (player w) in
  let p2 := reseat_guarded p1 in
  let o2 := reseat_guarded (opponent w) in
  mkWorld (Score.set_show_retry_modal false g1) p2 b1 o2.

(** The part of [Game.challenge_menu()] after Continue was pressed. *)
Definition challenge_menu_continue (d : Ball.Draw) (w : World) : World :=
  let g1 := Score.set_challenge_won false
              (Score.set_in_challenge true
                 (Score.set_score Score.zero_score (game w))) in
  let b1 := Ball.reset cfg d (ball w) in
  let p1 := place (POS_player cfg) (player w) in
  mkWorld g1 (reseat p1) b1 (reseat (opponent w)).

(** The "No" choice (Esc, or a click on No): leave the challenge and go
    through the menus again. *)
Definition decline (o : Oracle) (w : World) : Status * World * list Action :=
  let w1 := set_game (Score.set_in_challenge false
                        (Score.set_show_retry_modal false (game w))) w in
  match menus o with
  | ExitAtStart => (Left, w1, [StartMenu; SaveScore; QuitPygame])
  | ExitAtLogin => (Left, w1, [StartMenu; LoginMenu; SaveScore; QuitPygame])
  | LoginNotOk => (Left, w1, [StartMenu; LoginMenu; SaveScore; QuitPygame])
  | ExitAtChallenge =>
    (Left, w1, [StartMenu; LoginMenu; ChallengeMenu; SaveScore; QuitPygame])
  | Continued =>
    (Running, challenge_menu_continue (draw o) w1,
     [StartMenu; LoginMenu; ChallengeMenu])
  end.

(** The [for event in pygame.event.get()] loop at the top of a frame. *)
Fixpoint handle_events (evs : list (Event * Oracle)) (w : World)
    : Status * World * list Action :=
  match evs with
  | [] => (Running, w, [])
  | (QUIT, _) :: _ => (Left, w, [SaveScore; QuitPygame])
  | (KEYDOWN K_ESCAPE, o) :: rest =>
    if Score.show_retry_modal (game w) then
      match decline o w with
      | (Running, w1, tr1) =>
        let '(st, w2, tr2) := handle_events rest w1 in (st, w2, tr1 ++ tr2)
      | stopped => stopped
      end
    else handle_events rest w
  | _ :: rest => handle_events rest w
  end.

(** [yes_rect, no_rect] as [draw_retry_modal] returns them. *)
Definition btn_y : Z := ((WINDOW_HEIGHT cfg - 240) / 2 - 20) + 240 - 64 - 20.
Definition yes_rect : Rect.t :=
  Rect.mk ((WINDOW_WIDTH cfg - (180 * 2 + 40)) / 2) btn_y 180 64.
Definition no_rect : Rect.t :=
  Rect.mk ((WINDOW_WIDTH cfg - (180 * 2 + 40)) / 2 + 180 + 40) btn_y 180 64.

(** The loop over the mouse events while the retry modal is drawn. *)
Fixpoint handle_clicks (evs : list (Event * Oracle)) (w : World)
    : Status * World * list Action :=
  match evs with
  | [] => (Running, w, [])
  | (MOUSEBUTTONDOWN button, o) :: rest =>
    if button =? 1 then
      if Rect.collidepoint (mouse o) yes_rect then
        handle_clicks rest (reset_challenge_round (draw o) w)
      else if Rect.collidepoint (mouse o) no_rect then
        match decline o w with
        | (Running, w1, tr1) =>
          let '(st, w2, tr2) := handle_clicks rest w1 in (st, w2, tr1 ++ tr2)
        | stopped => stopped
        end
      else handle_clicks rest w
    else handle_clicks rest w
  | _ :: rest => handle_clicks rest w
  end.

(** No event of the first poll ends the frame or declines the retry. *)
Definition quiet_events (evs : list (Event * Oracle)) : bool :=
  forallb (fun eo => match fst eo with
                     | QUIT | KEYDOWN K_ESCAPE => false
                     | _ => true
                     end) evs.

(** No left click on Yes or on No among the mouse events. *)
Definition quiet_clicks (evs : list (Event * Oracle)) : bool :=
  forallb (fun eo => match fst eo with
                     | MOUSEBUTTONDOWN button =>
                       negb ((button =? 1)
                             && (Rect.collidepoint (mouse (snd eo)) yes_rect
                                 || Rect.collidepoint (mouse (snd eo)) no_rect))
                     | _ => true
                     end) evs.

(** Modelled from the spec: [groups.py] (class [AllSprites]) is absent from
    the sources; the "simulation update" [self.all_sprites.update(dt)] is
    taken to be [pygame.sprite.Group.update]: [update] of each sprite, in the
    order the sprites joined the group (player, ball, opponent).  The ball collides
    with the paddles as they are at that moment and reports the score to
    [Game.update_score]; the opponent reads the ball after its update. *)
Definition all_sprites_update (i : FrameInput) (w : World) : option World :=
  let p1 := Paddle.update cfg (dt i) (keys i) (Ball.rect (ball w)) (player w) in
  match Ball.update cfg Score.update_score (dt i) (now i) (serve i)
                    [p1; opponent w] (ball w) (game w) with
  | None => None
  | Some (b1, g1) =>
    let o1 := Paddle.update cfg (dt i) (keys i) (Ball.rect b1) (opponent w) in
    Some (mkWorld g1 p1 b1 o1)
  end.

(** The part of a frame from the update to the end of the loop body. *)
Definition frame_after_events (i : FrameInput) (w1 : World)
    : Status * World * list Action :=
  let updated :=
    if Score.show_retry_modal (game w1) then Some (w1, [])
    else match all_sprites_update i w1 with
         | Some w2 => Some (w2, [UpdateSprites])
         | None => None
         end in
  match updated with
  | None => (Raised, w1, [FillBackground; UpdateSprites])
  | Some (w2, tr2) =>
    let drawn := [FillBackground] ++ tr2 ++ [DrawSprites; DisplayScore] in
    let '(st3, w3, tr3) :=
      if Score.show_retry_modal (game w2) then
        let '(st, w, tr) := handle_clicks (clicks i) w2 in
        (st, w, [DrawRetryModal; PollMouseEvents] ++ tr)
      else (Running, w2, []) in
    match st3 with
    | Running =>
      if Score.in_challenge (game w3) && Score.challenge_won (game w3)
      then (Left, w3, drawn ++ tr3 ++ [FinalMenu; SaveScore; QuitPygame])
      else (Running, w3, drawn ++ tr3 ++ [DisplayUpdate])
    | st => (st, w3, drawn ++ tr3)
    end
  end.

(** One pass through the body of the [while True] loop of [Game.run]. *)
Definition frame (i : FrameInput) (w : World) : Status * World * list Action :=
  match handle_events (events i) w with
  | (Running, w1, tr1) =>
    let '(st, w2, tr2) := frame_after_events i w1 in
    (st, w2, [PollEvents] ++ tr1 ++ tr2)
  | (st, w1, tr1) => (st, w1, [PollEvents] ++ tr1)
  end.

(** The [while True] loop of [Game.run] over the frames [fs], as long as it
    goes on. *)
Fixpoint run (fs : list FrameInput) (w : World) : Status * World * list Action :=
  match fs with
  | [] => (Running, w, [])
  | i :: rest =>
    match frame i w with
    | (Running, w1, tr1) =>
      let '(st, w2, tr2) := run rest w1 in (st, w2, tr1 ++ tr2)
    | stopped => stopped
    end
  end.

End WithSettings.
End Loop.

(** ** Concrete settings and states used in the examples *)

Module Examples.

(** A 1280 x 720 window, the player on the right. *)
Definition cfg0 : Settings :=
  mkSettings 1280 720 (450 # 1)
             (1230 # 1, 360 # 1) (50 # 1, 360 # 1).

Definition score_of (p o : Z) : gmap string Z :=
  <["player" := p]> (<["opponent" := o]> ∅).

(** A challenge in progress at [p]:[o]. *)
Definition challenge_at (p o : Z) : Score.Game :=
  Score.mkGame (score_of p o) true false false.

(** The player's paddle, at rest on the right. *)
Definition right_paddle : Paddle.t :=
  Paddle.mk Paddle.Player (Rect.mk 1210 310 40 100) (Rect.mk 1210 310 40 100)
            0 (500 # 1).

(** The opponent's paddle, at rest on the left. *)
Definition left_paddle : Paddle.t :=
  Paddle.mk Paddle.Opponent (Rect.mk 30 310 40 100) (Rect.mk 30 310 40 100)
            (-1) (250 # 1).

(** A 30 x 30 ball that has just moved right into the player's paddle. *)
Definition ball_at_paddle : Ball.t :=
  Ball.mk (Rect.mk 1185 345 30 30) (Rect.mk 1175 350 30 30)
          (Ball.mkVector2 (1 # 1) (-3 # 4)) 1 0.

(** A 30 x 30 ball that has passed the left edge of the window. *)
Definition ball_left_exit : Ball.t :=
  Ball.mk (Rect.mk (-5) 345 30 30) (Rect.mk 3 350 30 30)
          (Ball.mkVector2 (-1 # 1) (-3 # 4)) 1 0.

(** A serve read at clock 5000: x to the left, y upwards at 0.75. *)
Definition draw0 : Ball.Draw := Ball.mkDraw 5000 true (1 # 2) false.

(** A window two pixels wider than a 31 x 31 ball in play. *)
Definition cfg_narrow : Settings :=
  mkSettings 33 720 (450 # 1)
             (32 # 1, 360 # 1) (0 # 1, 360 # 1).

Definition ball_narrow : Ball.t :=
  Ball.mk (Rect.mk 1 345 31 31) (Rect.mk 1 345 31 31)
          (Ball.mkVector2 (1 # 1) (-3 # 4)) 1 0.

(** A 1280 x 721 window whose paddles start at half its height, 360.5. *)
Definition cfg_odd : Settings :=
  mkSettings 1280 721 (450 # 1)
             (1230 # 1, 721 # 2) (50 # 1, 721 # 2).

(** Two updates of the ball, 500 ms and 1300 ms after the serve of
    [draw0], the paddles at rest. *)
Definition tick_early : Ball.Tick :=
  Ball.mkTick (1 # 60) 5500 draw0 [right_paddle; left_paddle].
Definition tick_late : Ball.Tick :=
  Ball.mkTick (1 # 60) 6300 draw0 [right_paddle; left_paddle].

(** A challenge at 25:7 while the ball leaves the window on the left. *)
Definition world_match_point : Loop.World :=
  Loop.mkWorld (challenge_at 25 7) right_paddle ball_left_exit left_paddle.

(** A frame without events, at clock 9000. *)
Definition frame_idle : Loop.FrameInput :=
  Loop.mkFrameInput (1 # 60) [] (Paddle.mkKeys false false) 9000 draw0 [].

(** The challenge overshot at 27:3, the retry modal shown. *)
Definition world_paused : Loop.World :=
  Loop.mkWorld (Score.mkGame (score_of 27 3) true false true)
               right_paddle ball_at_paddle left_paddle.

(** A frame in which the player clicks on Yes (the button spans
    440..619 x 376..439 in the 1280 x 720 window). *)
Definition frame_yes : Loop.FrameInput :=
  Loop.mkFrameInput (1 # 60) [] (Paddle.mkKeys false false) 9000 draw0
    [(Loop.MOUSEBUTTONDOWN 1, Loop.mkOracle Loop.Continued (500, 400) draw0)].

(** A frame in which the mouse only moves and a button is released. *)
Definition frame_still : Loop.FrameInput :=
  Loop.mkFrameInput (1 # 60)
    [(Loop.OtherEvent, Loop.mkOracle Loop.Continued (500, 400) draw0)]
    (Paddle.mkKeys false true) 9000 draw0
    [(Loop.MOUSEBUTTONUP 1, Loop.mkOracle Loop.Continued (500, 400) draw0)].

End Examples.

(** ** Consecutive scoring events *)

Module Match.

(** The calls [update_score(side)] for the sides [sides], in order; the
    first [KeyError] ends them. *)
Fixpoint deliver (sides : list string) (g : Score.Game) : option Score.Game :=
  match sides with
  | [] => Some g
  | side :: rest =>
    match Score.update_score side g with
    | Some g' => deliver rest g'
    | None => None
    end
  end.

(** The points the events [sides] give to the player and to the opponent. *)
Fixpoint points (sides : list string) : Z * Z :=
  match sides with
  | [] => (0, 0)
  | side :: rest =>
    let '(p, o) := points rest in
    if bool_decide (side = "player") then (p + 1, o) else (p, o + 1)
  end.

End Match.

(** ** The challenge as the game loop keeps it *)

Module Steady.

(** A challenge in progress as [Game.run] leaves it from one frame to the
    next: in a challenge, not won, both counters in the dict and not
    negative; without the retry modal the counters are within their targets
    and not both at them, with it exactly one counter is one beyond its
    target. *)
Definition steady (g : Score.Game) : bool :=
  Score.in_challenge g && negb (Score.challenge_won g)
  && match Score.score g !! "player", Score.score g !! "opponent" with
     | Some p, Some o =>
       (0 <=? p) && (0 <=? o)
       && (if Score.show_retry_modal g
           then ((p =? 27) && (o <=? 7)) || ((o =? 8) && (p <=? 26))
           else (p <=? 26) && (o <=? 7) && negb ((p =? 26) && (o =? 7)))
     | _, _ => false
     end.

Section WithSettings.
Variable cfg : Settings.

(** The box of the retry modal as [draw_retry_modal] draws it. *)
Definition retry_box : Rect.t :=
  Rect.mk ((WINDOW_WIDTH cfg - 740) / 2) ((WINDOW_HEIGHT cfg - 240) / 2 - 20)
          740 240.

End WithSettings.
End Steady.

(** ** The direction of a served ball *)

Module Serve.

(** A direction as [Ball.reset] draws it: x component of magnitude 1, y
    component of a magnitude within [0.7, 0.8]. *)
Definition served (v : Ball.Vector2) : Prop :=
  (Qabs (Ball.vx v) == 1)%Q
  /\ (7 # 10 <= Qabs (Ball.vy v))%Q /\ (Qabs (Ball.vy v) <= 8 # 10)%Q.

(** Every draw read by the updates [ts] has its [random()] within [0, 1]. *)
Definition unit_draws (ts : list Ball.Tick) : Prop :=
  Forall (fun k => (0 <= Ball.unit_u (Ball.t_draw k))%Q
                   /\ (Ball.unit_u (Ball.t_draw k) <= 1)%Q) ts.

End Serve.

(** ** Fitting an image into the sprite's surface (sprites.py) *)

Module Fit.

(** [min(a, b)] on floats: [b] when [b < a], else [a]. *)
Definition py_min (a b : Q) : Q := if Qlt_bool b a then b else a.

(** [round(x)] of a float: the nearest integer, a tie going to the even
    one. *)
Definition py_round (q : Q) : Z :=
  let f := Qfloor q in
  let r := (q - inject_Z f)%Q in
  if Qlt_bool r (1 # 2) then f
  else if Qlt_bool (1 # 2) r then f + 1
  else if Z.even f then f else f + 1.

(** The helper [fit_into_target(surf, target)] of [Ball.__init__], on the
    size [(rw, rh)] of [surf]: the size [(new_w, new_h)] the image is scaled
    to and the offset [(x, y)] at which it is blitted onto the surface of
    size [target].  A zero width or height raises [ZeroDivisionError].
    The quotient and the products are exact here; on doubles a product that
    is an exact tie here may fall just beside it and be rounded the other
    way, one pixel apart. *)
Definition fit_into_target (size target : Z * Z)
    : option ((Z * Z) * (Z * Z)) :=
  let '(tw, th) := target in
  let '(rw, rh) := size in
  if rw =? 0 then None
  else if rh =? 0 then None
  else
    let scale := py_min (inject_Z tw / inject_Z rw) (inject_Z th / inject_Z rh) in
    let new_w := Z.max 1 (py_round (inject_Z rw * scale)) in
    let new_h := Z.max 1 (py_round (inject_Z rh * scale)) in
    Some ((new_w, new_h), ((tw - new_w) / 2, (th - new_h) / 2)).

(** The helper [prepare_surface_from_pygame_surf(surf, rotate_clockwise)] of
    [Paddle.__init__]: a rotation by 90 degrees swaps width and height, the
    rest is the same computation. *)
Definition prepare_surface (size target : Z * Z) (rotate_clockwise : bool)
    : option ((Z * Z) * (Z * Z)) :=
  fit_into_target (if rotate_clockwise then (snd size, fst size) else size)
                  target.

End Fit.

(** ** The login menu (main.py) *)

Module Login.

(** A text is the list of its code points. *)
Definition Text := list N.

Definition text_of (s : string) : Text :=
  map Ascii.N_of_ascii (String.list_ascii_of_string s).

(** [correct_username], [correct_password] *)
Definition correct_username : Text := text_of "Pavani Gajre".
Definition correct_password : Text := text_of "05/02/09".

(** [c.isspace()] for a code point. *)
Definition is_space (c : N) : bool :=
  ((9 <=? c) && (c <=? 13) || (28 <=? c) && (c <=? 32)
   || (c =? 133) || (c =? 160) || (c =? 5760)
   || (8192 <=? c) && (c <=? 8202) || (c =? 8232) || (c =? 8233)
   || (c =? 8239) || (c =? 8287) || (c =? 12288))%N.

Fixpoint lstrip (t : Text) : Text :=
  match t with
  | c :: rest => if is_space c then lstrip rest else t
  | [] => []
  end.

(** [t.strip()] *)
Definition strip (t : Text) : Text := rev (lstrip (rev (lstrip t))).

(** [t[:-1]] *)
Definition drop_last (t : Text) : Text := removelast t.

(** [active]: [None], ['username'] or ['password']. *)
Inductive Field := NoField | Username | Password.

(** The variables of [login_menu] that decide its result (the error message,
    its timer and the cursor only drive the drawing). *)
Record State := mk {
  username_text : Text;
  password_text : Text;
  active : Field
}.

Definition initial : State := mk [] [] NoField.

Inductive Key := K_TAB | K_RETURN | K_BACKSPACE | K_other.

Inductive Event :=
| QUIT
| MOUSEBUTTONDOWN (button : Z) (pos : Z * Z)   (* pos: pygame.mouse.get_pos() *)
| KEYDOWN (key : Key) (unicode : Text)
| OtherEvent.

(** [Continue]: the menu goes on; [LoggedIn]: [return True]; [Exited]:
    [sys.exit()] after [save_score]. *)
Inductive Outcome := Continue (s : State) | LoggedIn | Exited.

Definition credentials_ok (s : State) : bool :=
  bool_decide (strip (username_text s) = correct_username)
  && bool_decide (password_text s = correct_password).

Section WithSettings.
Variable cfg : Settings.

Definition username_y : Z := WINDOW_HEIGHT cfg / 2 - 90.
Definition password_y : Z := username_y + 56 + 24.
Definition username_rect : Rect.t :=
  Rect.mk ((WINDOW_WIDTH cfg - 520) / 2) username_y 520 56.
Definition password_rect : Rect.t :=
  Rect.mk ((WINDOW_WIDTH cfg - 520) / 2) password_y 520 56.
Definition login_rect : Rect.t :=
  Rect.mk ((WINDOW_WIDTH cfg - 200) / 2) (password_y + 56 + 28) 200 56.

(** The body of [for event in pygame.event.get()] in [login_menu]. *)
Definition handle_event (e : Event) (s : State) : Outcome :=
  match e with
  | QUIT => Exited
  | MOUSEBUTTONDOWN button pos =>
    if button =? 1 then
      if Rect.collidepoint pos username_rect then
        Continue (mk (username_text s) (password_text s) Username)
      else if Rect.collidepoint pos password_rect then
        Continue (mk (username_text s) (password_text s) Password)
      else if Rect.collidepoint pos login_rect then
        if credentials_ok s then LoggedIn else Continue s
      else Continue (mk (username_text s) (password_text s) NoField)
    else Continue s
  | KEYDOWN K_TAB _ =>
    Continue (mk (username_text s) (password_text s)
                 (match active s with Username => Password | _ => Username end))
  | KEYDOWN K_RETURN _ =>
    if credentials_ok s then LoggedIn else Continue s
  | KEYDOWN K_BACKSPACE _ =>
    match active s with
    | Username =>
      Continue (mk (drop_last (username_text s)) (password_text s) (active s))
    | Password =>
      Continue (mk (username_text s) (drop_last (password_text s)) (active s))
    | NoField => Continue s
    end
  | KEYDOWN K_other unicode =>
    match active s with
    | Username =>
      if (length (username_text s) <? 36)%nat
      then Continue (mk (username_text s ++ unicode) (password_text s) (active s))
      else Continue s
    | Password =>
      if (length (password_text s) <? 16)%nat
      then Continue (mk (username_text s) (password_text s ++ unicode) (active s))
      else Continue s
    | NoField => Continue s
    end
  | OtherEvent => Continue s
  end.

(** The events of the menu in order, until it returns or exits. *)
Fixpoint handle_events (evs : list Event) (s : State) : Outcome :=
  match evs with
  | [] => Continue s
  | e :: rest =>
    match handle_event e s with
    | Continue s' => handle_events rest s'
    | ended => ended
    end
  end.

End WithSettings.

(** Typing the text [t], one key per code point. *)
Definition typing (t : Text) : list Event :=
  map (fun c => KEYDOWN K_other [c]) t.

(** Every key event carries at most one code point. *)
Definition single_keys (evs : list Event) : Prop :=
  Forall (fun e => match e with
                   | KEYDOWN _ unicode => (length unicode <= 1)%nat
                   | _ => True
                   end) evs.

End Login.

(** * Properties *)

(** ** The score / challenge state machine *)

Module ScoreFacts.
Import Score.

Lemma player_ne_opponent : "player" ≠ "opponent".
Proof. discriminate. Qed.

Lemma opponent_ne_player : "opponent" ≠ "player".
Proof. discriminate. Qed.

#[local] Hint Resolve player_ne_opponent opponent_ne_player : core.

(** The step of [update_score] that precedes the challenge block: only the
    counter of the scoring side changes, by one. *)
Lemma incr_spec (k : string) (d : gmap string Z) (v : Z) :
  d !! k = Some v -> incr k d = Some (<[k := v + 1]> d).
Proof. intros H. unfold incr. now rewrite H. Qed.

Lemma incr_Some (k : string) (d d' : gmap string Z) :
  incr k d = Some d' -> exists v, d !! k = Some v /\ d' = <[k := v + 1]> d.
Proof.
  unfold incr. destruct (d !! k) as [v|] eqn:E; [|discriminate].
  intros [= <-]. eauto.
Qed.

(** Outside a challenge a scoring event only counts. *)
Lemma update_score_idle (side : string) (g : Game) (v : Z) :
  in_challenge g = false ->
  score g !! scored_key side = Some v ->
  update_score side g
  = Some (set_score (<[scored_key side := v + 1]> (score g)) g).
Proof.
  intros Hc Hv. unfold update_score. fold (scored_key side).
  rewrite (incr_spec _ _ _ Hv). cbn. now rewrite Hc.
Qed.

(** [update_score] never clears a flag and never leaves the challenge. *)
Lemma update_score_flags (side : string) (g g' : Game) :
  update_score side g = Some g' ->
  in_challenge g' = in_challenge g
  /\ (challenge_won g = true -> challenge_won g' = true)
  /\ (show_retry_modal g = true -> show_retry_modal g' = true).
Proof.
  unfold update_score. destruct (incr _ _) as [sc|]; [|discriminate].
  cbn. destruct (in_challenge g) eqn:Hc.
  - unfold challenge_check, overshoot_check. cbn.
    repeat (match goal with
            | |- context [match ?m !! ?k with _ => _ end] => destruct (m !! k)
            | |- context [if ?c then _ else _] => destruct c
            end; try discriminate);
      intros [= <-]; cbn; auto.
  - intros [= <-]. cbn. auto.
Qed.

(** The three outcomes of the challenge block, by the counters it reads. *)
Lemma challenge_check_spec (g : Game) (p o : Z) :
  score g !! "player" = Some p ->
  score g !! "opponent" = Some o ->
  challenge_check g
  = Some (if (p =? TARGET_PLAYER) && (o =? TARGET_OPPONENT)
          then set_challenge_won true g
          else if (TARGET_PLAYER <? p) || (TARGET_OPPONENT <? o)
               then set_show_retry_modal true g
               else g).
Proof.
  intros Hp Ho. unfold challenge_check, overshoot_check. rewrite Hp, Ho.
  destruct (p =? TARGET_PLAYER) eqn:E1; cbn.
  - destruct (o =? TARGET_OPPONENT); cbn; [reflexivity|].
    destruct (TARGET_PLAYER <? p); cbn; [reflexivity|].
    now destruct (TARGET_OPPONENT <? o).
  - destruct (TARGET_PLAYER <? p); cbn; [reflexivity|].
    now destruct (TARGET_OPPONENT <? o).
Qed.

Lemma score_after_lookup (side : string) (p o : Z) (sc : gmap string Z) :
  sc !! "player" = Some p -> sc !! "opponent" = Some o ->
  score_after side p o sc !! "player" = Some (fst (counters_after side p o))
  /\ score_after side p o sc !! "opponent"
     = Some (snd (counters_after side p o)).
Proof.
  intros Hp Ho. unfold score_after, counters_after.
  destruct (bool_decide (side = "player")); cbn.
  - rewrite lookup_insert_eq, lookup_insert_ne by auto. auto.
  - rewrite lookup_insert_eq, lookup_insert_ne by auto. auto.
Qed.

(** [update_score] in a challenge, in closed form. *)
Lemma update_score_challenge (side : string) (g : Game) (p o : Z) :
  in_challenge g = true ->
  score g !! "player" = Some p ->
  score g !! "opponent" = Some o ->
  let '(p', o') := counters_after side p o in
  let g1 := set_score (score_after side p o (score g)) g in
  update_score side g
  = Some (if (p' =? TARGET_PLAYER) && (o' =? TARGET_OPPONENT)
          then set_challenge_won true g1
          else if (TARGET_PLAYER <? p') || (TARGET_OPPONENT <? o')
               then set_show_retry_modal true g1
               else g1).
Proof.
  intros Hc Hp Ho.
  destruct (score_after_lookup side p o (score g) Hp Ho) as [Lp Lo].
  destruct (counters_after side p o) as [p' o'] eqn:Ec. cbn in Lp, Lo.
  unfold update_score.
  assert (Hi : incr (if bool_decide (side = "player") then "player"
                     else "opponent") (score g)
               = Some (score_after side p o (score g))).
  { unfold score_after. destruct (bool_decide (side = "player"));
      now apply incr_spec. }
  rewrite Hi. cbn. rewrite Hc.
  now apply challenge_check_spec.
Qed.

(** C1. A scoring event delivered while the challenge is active
    ([in_challenge] set, not won, no retry modal pending) adds exactly one to
    the counter of the scoring side and leaves the other counter alone; then,
    if the player counter equals 26 and the opponent counter equals 7, the
    won flag is set (state Won); otherwise, if a counter exceeds its target,
    the retry modal is raised (state Overshoot-Pending); otherwise nothing
    but the counter changed and the state is still Active. *)
Theorem update_score_active (side : string) (g : Game) (p o : Z) :
  in_challenge g = true ->
  challenge_won g = false ->
  show_retry_modal g = false ->
  score g !! "player" = Some p ->
  score g !! "opponent" = Some o ->
  exists g',
    update_score side g = Some g'
    /\ score g' = score_after side p o (score g)
    /\ score g' !! "player" = Some (if bool_decide (side = "player")
                                    then p + 1 else p)
    /\ score g' !! "opponent" = Some (if bool_decide (side = "player")
                                      then o else o + 1)
    /\ in_challenge g' = true
    /\ let p' := fst (counters_after side p o) in
       let o' := snd (counters_after side p o) in
       (p' = 26 /\ o' = 7 ->
          challenge_won g' = true /\ show_retry_modal g' = false
          /\ state_of g' = Won)
       /\ (~ (p' = 26 /\ o' = 7) -> (26 < p' \/ 7 < o') ->
             challenge_won g' = false /\ show_retry_modal g' = true
             /\ state_of g' = OvershootPending)
       /\ (~ (p' = 26 /\ o' = 7) -> ~ (26 < p' \/ 7 < o') ->
             g' = set_score (score_after side p o (score g)) g
             /\ state_of g' = Active).
Proof.
  intros Hc Hw Hm Hp Ho.
  pose proof (update_score_challenge side g p o Hc Hp Ho) as Hu.
  destruct (score_after_lookup side p o (score g) Hp Ho) as [Lp Lo].
  assert (Ecnt : counters_after side p o
                 = (if bool_decide (side = "player") then p + 1 else p,
                    if bool_decide (side = "player") then o else o + 1)).
  { unfold counters_after. now destruct (bool_decide (side = "player")). }
  destruct (counters_after side p o) as [p' o'] eqn:Ec.
  injection Ecnt as Ep Eo. cbn [fst snd] in *.
  eexists. split; [exact Hu|].
  unfold TARGET_PLAYER, TARGET_OPPONENT, state_of.
  destruct (p' =? 26) eqn:E1; destruct (o' =? 7) eqn:E2; cbn [andb];
    try (destruct (26 <? p') eqn:E3); try (destruct (7 <? o') eqn:E4);
    cbn [orb score in_challenge challenge_won show_retry_modal
         set_score set_challenge_won set_show_retry_modal negb];
    rewrite ?Hc, ?Hw, ?Hm; cbn [negb];
    (split; [reflexivity|]);
    (split; [rewrite Lp, Ep; reflexivity|]);
    (split; [rewrite Lo, Eo; reflexivity|]);
    (split; [reflexivity|]);
    repeat split; intros; try reflexivity; try lia.
Qed.

(** A challenge in progress at 25:7, the player scores. *)
Lemma update_score_active_witness :
  exists g',
    update_score "player" (Examples.challenge_at 25 7) = Some g'
    /\ challenge_won g' = true.
Proof.
  destruct (update_score_active "player" (Examples.challenge_at 25 7) 25 7)
    as (g' & Hu & _ & _ & _ & _ & Hwon & _); try reflexivity.
  exists g'. split; [exact Hu|].
  apply Hwon. cbn. split; reflexivity.
Defined.

(** C9. When a scoring event delivered during a challenge that is not yet
    won sets the won flag, the counter of the side that did not score was
    already at its target before the event (and the scoring side's counter
    was one short of its own). *)
Theorem won_needs_other_at_target (side : string) (g g' : Game) :
  in_challenge g = true ->
  challenge_won g = false ->
  update_score side g = Some g' ->
  challenge_won g' = true ->
  score g !! other_key side = Some (target_of (other_key side))
  /\ score g !! scored_key side = Some (target_of (scored_key side) - 1).
Proof.
  intros Hc Hw Hu Hw'. unfold update_score in Hu.
  fold (scored_key side) in Hu.
  destruct (incr (scored_key side) (score g)) as [sc|] eqn:Ei; [|discriminate].
  apply incr_Some in Ei as (v & Hv & ->).
  cbn in Hu. rewrite Hc in Hu.
  unfold challenge_check, overshoot_check in Hu. cbn in Hu.
  unfold other_key, scored_key, target_of in *.
  destruct (bool_decide (side = "player")); cbn in *.
  - rewrite lookup_insert_eq, lookup_insert_ne in Hu by auto.
    destruct (v + 1 =? TARGET_PLAYER) eqn:E1.
    + destruct (score g !! "opponent") as [o|] eqn:Ho; [|discriminate].
      destruct (o =? TARGET_OPPONENT) eqn:E2.
      * rewrite ?Hv; unfold TARGET_PLAYER, TARGET_OPPONENT in *;
        split; f_equal;
          vm_compute (if bool_decide _ then _ else _); lia.
      * destruct (TARGET_PLAYER <? v + 1); [|destruct (TARGET_OPPONENT <? o)];
          injection Hu as <-; cbn in Hw'; congruence.
    + destruct (TARGET_PLAYER <? v + 1).
      * injection Hu as <-; cbn in Hw'; congruence.
      * destruct (score g !! "opponent") as [o|]; [|discriminate].
        destruct (TARGET_OPPONENT <? o);
          injection Hu as <-; cbn in Hw'; congruence.
  - rewrite lookup_insert_eq, lookup_insert_ne in Hu by auto.
    destruct (score g !! "player") as [p|] eqn:Hp; [|discriminate].
    destruct (p =? TARGET_PLAYER) eqn:E1.
    + destruct (v + 1 =? TARGET_OPPONENT) eqn:E2.
      * rewrite ?Hv; unfold TARGET_PLAYER, TARGET_OPPONENT in *;
        split; f_equal;
          vm_compute (if bool_decide _ then _ else _); lia.
      * destruct (TARGET_PLAYER <? p); [|destruct (TARGET_OPPONENT <? v + 1)];
          injection Hu as <-; cbn in Hw'; congruence.
    + destruct (TARGET_PLAYER <? p); [|destruct (TARGET_OPPONENT <? v + 1)];
        injection Hu as <-; cbn in Hw'; congruence.
Qed.

(** At 26:6 the opponent scores and the challenge is won: the player's
    counter was at its target already. *)
Lemma won_needs_other_at_target_witness :
  score (Examples.challenge_at 26 6) !! "player" = Some 26
  /\ score (Examples.challenge_at 26 6) !! "opponent" = Some (7 - 1).
Proof.
  apply (won_needs_other_at_target "opponent" (Examples.challenge_at 26 6)
           (mkGame (Examples.score_of 26 7) true true false));
    reflexivity.
Defined.

(** [update_score] does not look at the won flag: delivered to a challenge
    already won at 26:7, a point for the player is counted (27:7) and, the
    target being exceeded, the retry modal is raised. *)
Lemma update_score_after_win :
  update_score "player" (mkGame (Examples.score_of 26 7) true true false)
  = Some (mkGame (Examples.score_of 27 7) true true true)
  /\ Examples.score_of 27 7 !! "player" <> Examples.score_of 26 7 !! "player".
Proof.
  split.
  - unfold update_score, incr, Examples.score_of. cbn.
    rewrite lookup_insert_eq. cbn.
    unfold challenge_check, overshoot_check. cbn.
    rewrite lookup_insert_eq. cbn.
    rewrite insert_insert_eq. reflexivity.
  - unfold Examples.score_of. rewrite !lookup_insert_eq. discriminate.
Qed.

End ScoreFacts.

(** ** Paddles *)

Module PaddleFacts.
Import Paddle.

Section WithSettings.
Variable cfg : Settings.

(** The two clamps of [move] put any rectangle that is not taller than the
    window inside it, wherever the float arithmetic placed its centre. *)
Lemma move_in_window (dt : Q) (p : t) :
  Rect.h (rect p) <= WINDOW_HEIGHT cfg ->
  0 <= Rect.top (rect (move cfg dt p))
  /\ Rect.bottom (rect (move cfg dt p)) <= WINDOW_HEIGHT cfg.
Proof.
  intros Hh. unfold move. cbn [rect set_rect].
  set (c := to_int _). clearbody c.
  unfold Rect.set_bottom, Rect.set_top, Rect.set_centery, Rect.set_y,
    Rect.top, Rect.bottom. cbn [Rect.x Rect.y Rect.w Rect.h].
  set (y1 := c - Z.shiftr (Rect.h (rect p)) 1). clearbody y1.
  destruct (y1 <? 0) eqn:E1;
    match goal with
    | |- context [if ?c then _ else _] => destruct c eqn:E2
    end; lia.
Qed.

(** [move] and [update] keep the size of the rectangle. *)
Lemma move_size (dt : Q) (p : t) :
  Rect.w (rect (move cfg dt p)) = Rect.w (rect p)
  /\ Rect.h (rect (move cfg dt p)) = Rect.h (rect p).
Proof. split; reflexivity. Qed.

Lemma get_direction_rect (keys : Keys) (br : Rect.t) (p : t) :
  rect (get_direction keys br p) = rect p.
Proof. unfold get_direction. now destruct (kind p). Qed.

(** C5. After [update(dt)] of a paddle, player or opponent, whose rectangle
    is not taller than the window, the rectangle lies within the vertical
    bounds of the window: top >= 0 and bottom <= WINDOW_HEIGHT.  This holds
    for every [dt], whatever the keys pressed and wherever the ball is. *)
Theorem paddle_update_in_window (dt : Q) (keys : Keys) (ball_rect : Rect.t) (p : t) :
  Rect.h (rect p) <= WINDOW_HEIGHT cfg ->
  0 <= Rect.top (rect (update cfg dt keys ball_rect p))
  /\ Rect.bottom (rect (update cfg dt keys ball_rect p)) <= WINDOW_HEIGHT cfg.
Proof.
  intros Hh. unfold update. apply move_in_window.
  rewrite get_direction_rect. exact Hh.
Qed.

End WithSettings.

(** The player's paddle near the bottom of a 720 pixel window, Down pressed
    for a tenth of a second at speed 500. *)
Lemma paddle_update_in_window_witness :
  let p := mk Player (Rect.mk 1210 600 40 100) (Rect.mk 1210 600 40 100)
              0 (500 # 1) in
  let p' := update Examples.cfg0 (1 # 10) (mkKeys false true)
                   (Rect.mk 625 345 30 30) p in
  Rect.h (rect p) <= 720 /\ 0 <= Rect.top (rect p')
  /\ Rect.bottom (rect p') <= 720 /\ Rect.bottom (rect p') = 720.
Proof.
  cbv zeta. split; [cbn; lia|].
  pose proof (paddle_update_in_window Examples.cfg0 (1 # 10) (mkKeys false true)
                (Rect.mk 625 345 30 30)
                (mk Player (Rect.mk 1210 600 40 100) (Rect.mk 1210 600 40 100)
                    0 (500 # 1))) as H.
  destruct H as [H1 H2]; [cbn; lia|].
  split; [exact H1|]. split; [exact H2|]. reflexivity.
Defined.

End PaddleFacts.

(** ** The ball: collisions with the paddles *)

Module CollisionFacts.
Import Ball.

Lemma Qmult_minus_one (q : Q) : (q * (-1 # 1))%Q = (- q)%Q.
Proof.
  destruct q as [n d]. unfold Qmult, Qopp. cbn [Qnum Qden].
  f_equal; [lia | apply Pos.mul_1_r].
Qed.

Lemma Qabs_opp_eq (q : Q) : Qabs (- q) = Qabs q.
Proof. destruct q as [n d]. cbn. now rewrite Z.abs_opp. Qed.

Lemma flip_x_direction (b : t) :
  direction (flip_x b) = mkVector2 (- vx (direction b))%Q (vy (direction b)).
Proof. unfold flip_x. cbn. now rewrite Qmult_minus_one. Qed.

Lemma flip_y_direction (b : t) :
  direction (flip_y b) = mkVector2 (vx (direction b)) (- vy (direction b))%Q.
Proof. unfold flip_y. cbn. now rewrite Qmult_minus_one. Qed.

Lemma same_magnitude_refl (u : Vector2) : same_magnitude u u.
Proof. split; reflexivity. Qed.

Lemma same_magnitude_trans (u v w : Vector2) :
  same_magnitude u v -> same_magnitude v w -> same_magnitude u w.
Proof. intros [? ?] [? ?]. split; congruence. Qed.

(** Projections of the record updates. *)
Ltac fields :=
  cbn [direction rect old_rect speed_modifier start_time vx vy
       set_rect set_old_rect set_direction set_speed_modifier set_start_time].

Lemma flip_x_magnitude (b : t) :
  same_magnitude (direction (flip_x b)) (direction b).
Proof. rewrite flip_x_direction. split; cbn; [apply Qabs_opp_eq | reflexivity]. Qed.

Lemma flip_y_magnitude (b : t) :
  same_magnitude (direction (flip_y b)) (direction b).
Proof. rewrite flip_y_direction. split; cbn; [reflexivity | apply Qabs_opp_eq]. Qed.

(** One paddle, one axis: the magnitudes are kept and the component of the
    other axis is not touched, whatever the rectangles are. *)
Lemma collision_sprite_keeps (a : Axis) (s : Paddle.t) (b : t) :
  same_magnitude (direction (collision_sprite a s b)) (direction b)
  /\ match a with
     | Horizontal => vy (direction (collision_sprite a s b)) = vy (direction b)
     | Vertical => vx (direction (collision_sprite a s b)) = vx (direction b)
     end.
Proof.
  unfold collision_sprite.
  destruct (Rect.colliderect _ _); [|destruct a; split; try apply same_magnitude_refl; reflexivity].
  destruct a.
  - destruct (enters_from_left s b);
      match goal with |- context [if ?c then _ else _] => destruct c end;
      unfold same_magnitude; repeat (rewrite flip_x_direction; fields);
      rewrite ?Qabs_opp_eq; auto.
  - destruct (enters_from_top s b);
      match goal with |- context [if ?c then _ else _] => destruct c end;
      unfold same_magnitude; repeat (rewrite flip_y_direction; fields);
      rewrite ?Qabs_opp_eq; auto.
Qed.

(** The whole loop over the paddles. *)
Lemma collision_keeps (a : Axis) (paddles : list Paddle.t) (b : t) :
  same_magnitude (direction (collision a paddles b)) (direction b)
  /\ match a with
     | Horizontal => vy (direction (collision a paddles b)) = vy (direction b)
     | Vertical => vx (direction (collision a paddles b)) = vx (direction b)
     end.
Proof.
  unfold collision. revert b.
  induction paddles as [|s rest IH]; intros b; cbn [fold_left].
  - split; [apply same_magnitude_refl | now destruct a].
  - destruct (IH (collision_sprite a s b)) as [M1 C1].
    destruct (collision_sprite_keeps a s b) as [M2 C2].
    split; [eapply same_magnitude_trans; eassumption|].
    destruct a; congruence.
Qed.

(** C4. Resolution of the collision of the ball with one paddle on one axis,
    the previous rectangles being of positive size.  Horizontally: either no
    bounce is accepted and the ball is unchanged; or the bounce off the
    paddle's left side is accepted, and then the rectangles overlap, the
    ball's right edge is at or beyond the paddle's left edge and the ball's
    previous right edge was at or left of the paddle's previous left edge;
    or, symmetrically, the bounce off the paddle's right side is accepted.
    An accepted bounce negates the x component once, leaves the y component
    alone and snaps the ball to the paddle's edge.  Vertically the same with
    top and bottom edges and the y component.  In every case, and over the
    whole loop on the paddles, the magnitudes of both components are
    unchanged. *)
Theorem collision_sprite_bounce (a : Axis) (s : Paddle.t) (b : t) :
  Rect.positive (old_rect b) ->
  Rect.positive (Paddle.old_rect s) ->
  let b' := collision_sprite a s b in
  same_magnitude (direction b') (direction b)
  /\ (forall paddles,
        same_magnitude (direction (collision a paddles b)) (direction b))
  /\ match a with
     | Horizontal =>
       vy (direction b') = vy (direction b)
       /\ ((b' = b
            /\ (Rect.colliderect (Paddle.rect s) (rect b) = false
                \/ (enters_from_left s b = false
                    /\ enters_from_right s b = false)))
           \/ (Rect.colliderect (Paddle.rect s) (rect b) = true
               /\ Rect.left (Paddle.rect s) <= Rect.right (rect b)
               /\ Rect.right (old_rect b) <= Rect.left (Paddle.old_rect s)
               /\ vx (direction b') = (- vx (direction b))%Q
               /\ Rect.right (rect b') = Rect.left (Paddle.rect s))
           \/ (Rect.colliderect (Paddle.rect s) (rect b) = true
               /\ Rect.left (rect b) <= Rect.right (Paddle.rect s)
               /\ Rect.right (Paddle.old_rect s) <= Rect.left (old_rect b)
               /\ vx (direction b') = (- vx (direction b))%Q
               /\ Rect.left (rect b') = Rect.right (Paddle.rect s)))
     | Vertical =>
       vx (direction b') = vx (direction b)
       /\ ((b' = b
            /\ (Rect.colliderect (Paddle.rect s) (rect b) = false
                \/ (enters_from_top s b = false
                    /\ enters_from_bottom s b = false)))
           \/ (Rect.colliderect (Paddle.rect s) (rect b) = true
               /\ Rect.top (Paddle.rect s) <= Rect.bottom (rect b)
               /\ Rect.bottom (old_rect b) <= Rect.top (Paddle.old_rect s)
               /\ vy (direction b') = (- vy (direction b))%Q
               /\ Rect.bottom (rect b') = Rect.top (Paddle.rect s))
           \/ (Rect.colliderect (Paddle.rect s) (rect b) = true
               /\ Rect.top (rect b) <= Rect.bottom (Paddle.rect s)
               /\ Rect.bottom (Paddle.old_rect s) <= Rect.top (old_rect b)
               /\ vy (direction b') = (- vy (direction b))%Q
               /\ Rect.top (rect b') = Rect.bottom (Paddle.rect s)))
     end.
Proof.
  intros [Hbw Hbh] [Hsw Hsh] b'.
  split; [apply collision_sprite_keeps|].
  split; [intros paddles; apply collision_keeps|].
  pose proof (collision_sprite_keeps a s b) as [_ Hother].
  subst b'. destruct a; (split; [exact Hother|]); clear Hother;
    unfold collision_sprite;
    destruct (Rect.colliderect (Paddle.rect s) (rect b)) eqn:Ec;
    try (left; split; [reflexivity | left; reflexivity]).
  - destruct (enters_from_left s b) eqn:E1.
    + right; left.
      pose proof E1 as E1'. unfold enters_from_left in E1'.
      apply andb_true_iff in E1' as [L1 L2].
      apply Z.leb_le in L1, L2.
      assert (E2 : enters_from_right s
                     (flip_x (set_rect (Rect.set_right
                                          (Rect.left (Paddle.rect s)) (rect b)) b))
                   = false).
      { unfold enters_from_right. apply andb_false_iff. right.
        apply Z.leb_gt. unfold flip_x; fields.
        unfold Rect.right, Rect.left in *. lia. }
      rewrite E2. rewrite flip_x_direction. unfold flip_x; fields.
      unfold Rect.right, Rect.left, Rect.set_right, Rect.set_x in *.
      cbn [Rect.x Rect.y Rect.w Rect.h].
      repeat split; try assumption; try reflexivity; lia.
    + destruct (enters_from_right s b) eqn:E2.
      * right; right.
        pose proof E2 as E2'. unfold enters_from_right in E2'.
        apply andb_true_iff in E2' as [L1 L2].
        apply Z.leb_le in L1, L2.
        rewrite flip_x_direction. unfold flip_x; fields.
        repeat split; try assumption; reflexivity.
      * left. split; [reflexivity | right; split; reflexivity].
  - destruct (enters_from_top s b) eqn:E1.
    + right; left.
      pose proof E1 as E1'. unfold enters_from_top in E1'.
      apply andb_true_iff in E1' as [L1 L2].
      apply Z.leb_le in L1, L2.
      assert (E2 : enters_from_bottom s
                     (flip_y (set_rect (Rect.set_bottom
                                          (Rect.top (Paddle.rect s)) (rect b)) b))
                   = false).
      { unfold enters_from_bottom. apply andb_false_iff. right.
        apply Z.leb_gt. unfold flip_y; fields.
        unfold Rect.bottom, Rect.top in *. lia. }
      rewrite E2. rewrite flip_y_direction. unfold flip_y; fields.
      unfold Rect.bottom, Rect.top, Rect.set_bottom, Rect.set_y in *.
      cbn [Rect.x Rect.y Rect.w Rect.h].
      repeat split; try assumption; try reflexivity; lia.
    + destruct (enters_from_bottom s b) eqn:E2.
      * right; right.
        pose proof E2 as E2'. unfold enters_from_bottom in E2'.
        apply andb_true_iff in E2' as [L1 L2].
        apply Z.leb_le in L1, L2.
        rewrite flip_y_direction. unfold flip_y; fields.
        repeat split; try assumption; reflexivity.
      * left. split; [reflexivity | right; split; reflexivity].
Qed.

(** The ball that moved right into the player's paddle bounces off its left
    side. *)
Lemma collision_sprite_bounce_witness :
  Rect.positive (old_rect Examples.ball_at_paddle)
  /\ Rect.positive (Paddle.old_rect Examples.right_paddle)
  /\ same_magnitude
       (direction (collision_sprite Horizontal Examples.right_paddle
                                    Examples.ball_at_paddle))
       (direction Examples.ball_at_paddle).
Proof.
  assert (P1 : Rect.positive (old_rect Examples.ball_at_paddle))
    by (split; cbn; lia).
  assert (P2 : Rect.positive (Paddle.old_rect Examples.right_paddle))
    by (split; cbn; lia).
  split; [exact P1|]. split; [exact P2|].
  exact (proj1 (collision_sprite_bounce Horizontal Examples.right_paddle
                  Examples.ball_at_paddle P1 P2)).
Defined.

Example bounce_off_right_paddle :
  let b' := collision_sprite Horizontal Examples.right_paddle
                             Examples.ball_at_paddle in
  Rect.right (rect b') = 1210
  /\ Qeq_bool (vx (direction b')) (-1 # 1) = true
  /\ vy (direction b') = (-3 # 4)%Q.
Proof. vm_compute. repeat split. Qed.

End CollisionFacts.

(** ** The ball: walls, scoring, serve *)

Module WallFacts.
Import Ball.

Ltac fields :=
  cbn [direction rect old_rect speed_modifier start_time vx vy
       set_rect set_old_rect set_direction set_speed_modifier set_start_time].

Lemma Qlt_bool_true (a b : Q) : Qlt_bool a b = true <-> (a < b)%Q.
Proof.
  unfold Qlt_bool. rewrite negb_true_iff.
  split; intros H.
  - apply Qnot_le_lt. intros Hle. apply Qle_bool_iff in Hle. congruence.
  - destruct (Qle_bool b a) eqn:E; [|reflexivity].
    apply Qle_bool_iff in E. exfalso. now apply (Qlt_not_le a b).
Qed.

(** [x < W / 2] on floats, for integers [x] and [W]. *)
Lemma lt_half_window (x W : Z) :
  (inject_Z x < inject_Z W / (2 # 1))%Q <-> 2 * x < W.
Proof. unfold Qlt, Qdiv, Qmult, Qinv, inject_Z. cbn. lia. Qed.

(** Half a non-negative integer, assigned to a Rect attribute, is rounded
    up. *)
Lemma to_int_half (n : Z) :
  0 <= n -> to_int (inject_Z n / (2 # 1))%Q = (n + 1) / 2.
Proof.
  intros Hn. unfold to_int.
  assert (E : Qlt_bool (inject_Z n / (2 # 1)) 0 = false).
  { destruct (Qlt_bool _ _) eqn:E; [|reflexivity].
    apply Qlt_bool_true in E. exfalso. revert E.
    unfold Qlt, Qdiv, Qmult, Qinv, inject_Z. cbn. lia. }
  rewrite E. unfold Qfloor, Qplus, Qdiv, Qmult, Qinv, inject_Z. cbn.
  Z.div_mod_to_equations. lia.
Qed.

(** The integer a float becomes in a Rect is within a half of it. *)
Lemma to_int_nearest (q : Q) :
  (Qabs (inject_Z (to_int q) - q) <= 1 # 2)%Q.
Proof.
  apply Qabs_Qle_condition. unfold to_int.
  destruct (Qlt_bool q 0).
  - pose proof (Qfloor_le (- q + (1 # 2))) as H1.
    pose proof (Qlt_floor (- q + (1 # 2))) as H2.
    rewrite inject_Z_plus in H2. change (inject_Z 1) with 1%Q in H2.
    rewrite inject_Z_opp. split; lra.
  - pose proof (Qfloor_le (q + (1 # 2))) as H1.
    pose proof (Qlt_floor (q + (1 # 2))) as H2.
    rewrite inject_Z_plus in H2. change (inject_Z 1) with 1%Q in H2.
    split; lra.
Qed.

(** A half goes away from zero. *)
Lemma to_int_halves :
  to_int (31 # 2) = 16 /\ to_int (-31 # 2) = -16
  /\ to_int (721 # 2) = 361 /\ to_int (15 # 1) = 15 /\ to_int (77 # 5) = 15.
Proof. repeat split. Qed.

Lemma same_frame_refl (b : t) : same_frame b b.
Proof. repeat split. Qed.

Lemma same_frame_trans (b1 b2 b3 : t) :
  same_frame b1 b2 -> same_frame b2 b3 -> same_frame b1 b3.
Proof.
  unfold same_frame. intros (?&?&?&?&?) (?&?&?&?&?).
  repeat split; congruence.
Qed.

Section WithSettings.
Variable cfg : Settings.

Lemma collision_sprite_frame (a : Axis) (s : Paddle.t) (b : t) :
  same_frame b (collision_sprite a s b).
Proof.
  unfold collision_sprite.
  destruct (Rect.colliderect _ _); [|apply same_frame_refl].
  destruct a.
  - destruct (enters_from_left s b);
      match goal with |- context [if ?c then _ else _] => destruct c end;
      repeat split.
  - destruct (enters_from_top s b);
      match goal with |- context [if ?c then _ else _] => destruct c end;
      repeat split.
Qed.

Lemma collision_frame (a : Axis) (paddles : list Paddle.t) (b : t) :
  same_frame b (collision a paddles b).
Proof.
  unfold collision. revert b.
  induction paddles as [|s rest IH]; intros b; cbn [fold_left].
  - apply same_frame_refl.
  - eapply same_frame_trans; [apply collision_sprite_frame | apply IH].
Qed.

Lemma move_frame (dt : Q) (paddles : list Paddle.t) (b : t) :
  same_frame b (move cfg dt paddles b).
Proof.
  unfold move.
  eapply same_frame_trans; [|apply collision_frame].
  eapply same_frame_trans; [|repeat split].
  eapply same_frame_trans; [|apply collision_frame].
  repeat split.
Qed.

Lemma wall_bounce_frame (b : t) : same_frame b (wall_bounce cfg b).
Proof.
  unfold wall_bounce.
  destruct (Rect.top (rect b) <=? 0);
    match goal with |- context [if ?c then _ else _] => destruct c end;
    repeat split.
Qed.

Lemma wall_bounce_x (b : t) :
  Rect.x (rect (wall_bounce cfg b)) = Rect.x (rect b).
Proof.
  unfold wall_bounce.
  destruct (Rect.top (rect b) <=? 0);
    match goal with |- context [if ?c then _ else _] => destruct c end;
    reflexivity.
Qed.

(** After the first two [if]s of [wall_collision] a ball that is not taller
    than the window lies within its vertical bounds. *)
Lemma wall_bounce_vertical (b : t) :
  Rect.h (rect b) <= WINDOW_HEIGHT cfg ->
  0 <= Rect.top (rect (wall_bounce cfg b))
  /\ Rect.bottom (rect (wall_bounce cfg b)) <= WINDOW_HEIGHT cfg.
Proof.
  intros Hh. unfold wall_bounce.
  destruct (Rect.top (rect b) <=? 0) eqn:E1;
    match goal with |- context [if ?c then _ else _] => destruct c eqn:E2 end;
    unfold flip_y, Rect.top, Rect.bottom, Rect.set_top, Rect.set_bottom,
      Rect.set_y in *; fields; cbn [Rect.x Rect.y Rect.w Rect.h] in *; lia.
Qed.

(** The advance of an update keeps the serve timer and leaves the speed
    modifier as [timer] set it. *)
Lemma advance_frame (k : Tick) (b : t) :
  start_time (advance cfg k b) = start_time b
  /\ speed_modifier (advance cfg k b)
     = (if t_now k - start_time b <? duration then 0 else 1)
  /\ Rect.w (rect (advance cfg k b)) = Rect.w (rect b)
  /\ Rect.h (rect (advance cfg k b)) = Rect.h (rect b).
Proof.
  unfold advance.
  set (b1 := timer (t_now k) (set_old_rect (rect b) b)).
  pose proof (wall_bounce_frame (move cfg (t_dt k) (t_paddles k) b1))
    as (W1 & H1 & _ & M1 & S1).
  pose proof (move_frame (t_dt k) (t_paddles k) b1) as (W2 & H2 & _ & M2 & S2).
  rewrite S1, S2, M1, M2, W1, W2, H1, H2. subst b1. unfold timer. fields.
  destruct (duration <=? t_now k - start_time b) eqn:E1;
    destruct (t_now k - start_time b <? duration) eqn:E2;
    fields; repeat split; lia.
Qed.

(** An update in which the ball does not leave the window sideways calls
    neither [update_score] nor [reset]. *)
Lemma update_no_exit {G : Type} (cb : string -> G -> option G)
    (k : Tick) (b : t) (g : G) :
  exits cfg (advance cfg k b) = false ->
  update cfg cb (t_dt k) (t_now k) (t_draw k) (t_paddles k) b g
  = Some (advance cfg k b, g).
Proof.
  intros He. unfold update, wall_collision. fold (advance cfg k b).
  now rewrite He.
Qed.

(** An update in which it does: the score is reported, then the ball is
    reset. *)
Lemma update_exit {G : Type} (cb : string -> G -> option G)
    (k : Tick) (b : t) (g : G) :
  exits cfg (advance cfg k b) = true ->
  update cfg cb (t_dt k) (t_now k) (t_draw k) (t_paddles k) b g
  = match cb (scoring_side cfg (advance cfg k b)) g with
    | Some g' => Some (reset cfg (t_draw k) (advance cfg k b), g')
    | None => None
    end.
Proof.
  intros He. unfold update, wall_collision. fold (advance cfg k b).
  now rewrite He.
Qed.

(** Along updates without a reset the serve timer stays and each update
    sets the speed modifier from its own clock. *)
Lemma updates_reset_free {G : Type} (cb : string -> G -> option G)
    (ts : list Tick) (k : Tick) (b : t) (g : G) :
  reset_free cfg (ts ++ [k]) b = true ->
  exists b',
    updates cfg cb (ts ++ [k]) b g = Some (b', g)
    /\ start_time b' = start_time b
    /\ speed_modifier b'
       = (if t_now k - start_time b <? duration then 0 else 1).
Proof.
  revert b. induction ts as [|k0 rest IH]; intros b Hf.
  - cbn in Hf. rewrite andb_true_r, negb_true_iff in Hf.
    exists (advance cfg k b). cbn [app updates].
    rewrite (update_no_exit cb k b g Hf).
    destruct (advance_frame k b) as (S1 & M1 & _). auto.
  - cbn [app reset_free] in Hf. apply andb_true_iff in Hf as [He Hf].
    rewrite negb_true_iff in He.
    destruct (IH _ Hf) as (b' & Hu & S1 & M1).
    exists b'. cbn [app updates].
    rewrite (update_no_exit cb k0 b g He).
    destruct (advance_frame k0 b) as (S0 & _).
    rewrite S0 in S1, M1. auto.
Qed.

(** [Game.update_score] returns whenever the score dict holds both
    counters. *)
Lemma update_score_returns (side : string) (g : Score.Game) (p o : Z) :
  Score.score g !! "player" = Some p ->
  Score.score g !! "opponent" = Some o ->
  exists g', Score.update_score side g = Some g'.
Proof.
  intros Hp Ho. destruct (Score.in_challenge g) eqn:Hc.
  - pose proof (ScoreFacts.update_score_challenge side g p o Hc Hp Ho) as H.
    destruct (Score.counters_after side p o). eauto.
  - unfold Score.update_score, Score.incr.
    destruct (bool_decide (side = "player")); rewrite ?Hp, ?Ho; cbn;
      rewrite Hc; eauto.
Qed.

(** The magnitude drawn by [uniform(0.7, 0.8)]. *)
Lemma uniform_range (u : Q) :
  (0 <= u)%Q -> (u <= 1)%Q ->
  (7 # 10 <= uniform (7 # 10) (8 # 10) u)%Q
  /\ (uniform (7 # 10) (8 # 10) u <= 8 # 10)%Q.
Proof. intros H0 H1. unfold uniform. split; lra. Qed.

(** [reset] puts the centre of the rectangle at the centre of the window
    (rounded), keeps its size, redraws the direction and restarts the serve
    timer; it does not touch the speed modifier. *)
Lemma reset_spec (d : Draw) (b : t) :
  let r := reset cfg d b in
  Rect.centerx (rect r) = to_int (inject_Z (WINDOW_WIDTH cfg) / (2 # 1))%Q
  /\ Rect.centery (rect r) = to_int (inject_Z (WINDOW_HEIGHT cfg) / (2 # 1))%Q
  /\ Rect.w (rect r) = Rect.w (rect b)
  /\ Rect.h (rect r) = Rect.h (rect b)
  /\ vx (direction r) = inject_Z (if pick_x d then -1 else 1)
  /\ vy (direction r)
     = (uniform (7 # 10) (8 # 10) (unit_u d)
        * inject_Z (if pick_sign d then 1 else -1))%Q
  /\ start_time r = ticks d
  /\ speed_modifier r = speed_modifier b.
Proof.
  unfold reset, choice. fields.
  unfold Rect.centerx, Rect.centery, Rect.set_center.
  cbn [Rect.x Rect.y Rect.w Rect.h fst snd].
  repeat split; try lia; now destruct (pick_x d), (pick_sign d).
Qed.

(** C3. When the ball's rectangle is beyond the left or the right edge of
    the window in [wall_collision] (the score dict holding both counters),
    [update_score] is called for the player if the rectangle's x is less than
    half the window width and for the opponent otherwise, and then the ball
    is reset, whatever the side and the state of the challenge.  The reset
    puts the centre of the rectangle at the centre of the window, half the
    width and half the height, an odd half rounded up.  The x component of
    the new direction is 1 or -1, each by one of the two indices [choice]
    may draw.  The y component is the magnitude [0.7 + 0.1 * u], where [u] is
    the draw of [random()] behind [uniform(0.7, 0.8)], times a sign -1 or 1
    by the index drawn.  The magnitude lies within [0.7, 0.8], and it lies
    within any [lo, hi] exactly when [u] lies within
    [10 * (lo - 0.7), 10 * (hi - 0.7)], an interval ten times as long: the
    magnitudes are spread over [0.7, 0.8] as the draws of [random()] are
    over [0, 1].  The serve timer restarts at the current clock. *)
Theorem side_exit_scores_then_resets (d : Draw) (b : t) (g : Score.Game)
    (p o : Z) :
  exits cfg (wall_bounce cfg b) = true ->
  (0 <= unit_u d)%Q -> (unit_u d <= 1)%Q ->
  Score.score g !! "player" = Some p ->
  Score.score g !! "opponent" = Some o ->
  let b2 := wall_bounce cfg b in
  let side := if decide (2 * Rect.x (rect b) < WINDOW_WIDTH cfg)
              then "player" else "opponent" in
  let r := reset cfg d b2 in
  scoring_side cfg b2 = side
  /\ (exists g',
        Score.update_score side g = Some g'
        /\ wall_collision cfg Score.update_score d b g = Some (r, g'))
  /\ Rect.centerx (rect r) = to_int (inject_Z (WINDOW_WIDTH cfg) / (2 # 1))%Q
  /\ Rect.centery (rect r) = to_int (inject_Z (WINDOW_HEIGHT cfg) / (2 # 1))%Q
  /\ (0 <= WINDOW_WIDTH cfg ->
      Rect.centerx (rect r) = (WINDOW_WIDTH cfg + 1) / 2)
  /\ (0 <= WINDOW_HEIGHT cfg ->
      Rect.centery (rect r) = (WINDOW_HEIGHT cfg + 1) / 2)
  /\ (vx (direction r) = inject_Z 1 \/ vx (direction r) = inject_Z (-1))
  /\ vx (direction r) = inject_Z (if pick_x d then -1 else 1)
  /\ (vy (direction r)
      == ((7 # 10) + (1 # 10) * unit_u d)
         * inject_Z (if pick_sign d then 1 else -1))%Q
  /\ (Qabs (vy (direction r)) == (7 # 10) + (1 # 10) * unit_u d)%Q
  /\ (7 # 10 <= Qabs (vy (direction r)))%Q
  /\ (Qabs (vy (direction r)) <= 8 # 10)%Q
  /\ (forall lo hi : Q,
        (lo <= Qabs (vy (direction r)))%Q /\ (Qabs (vy (direction r)) <= hi)%Q
        <-> ((lo - (7 # 10)) * (10 # 1) <= unit_u d)%Q
            /\ (unit_u d <= (hi - (7 # 10)) * (10 # 1))%Q)
  /\ start_time r = ticks d.
Proof.
  intros He Hu0 Hu1 Hp Ho b2 side r.
  assert (Hside : scoring_side cfg b2 = side).
  { subst b2 side. unfold scoring_side. rewrite wall_bounce_x.
    destruct (Qlt_bool _ _) eqn:E.
    - apply Qlt_bool_true, lt_half_window in E. now rewrite decide_True.
    - rewrite decide_False; [reflexivity|]. intros Hlt.
      apply lt_half_window, Qlt_bool_true in Hlt. congruence. }
  destruct (reset_spec d b2) as (Cx & Cy & _ & _ & Vx & Vy & St & _).
  fold r in Cx, Cy, Vx, Vy, St.
  assert (Hy : (vy (direction r)
                == ((7 # 10) + (1 # 10) * unit_u d)
                   * inject_Z (if pick_sign d then 1 else -1))%Q).
  { rewrite Vy. unfold uniform. ring. }
  assert (Ha : (Qabs (vy (direction r)) == (7 # 10) + (1 # 10) * unit_u d)%Q).
  { rewrite Hy, Qabs_Qmult.
    rewrite (Qabs_pos ((7 # 10) + (1 # 10) * unit_u d)) by lra.
    destruct (pick_sign d).
    - change (Qabs (inject_Z 1)) with 1%Q. ring.
    - change (Qabs (inject_Z (-1))) with 1%Q. ring. }
  split; [exact Hside|].
  split.
  { destruct (update_score_returns side g p o Hp Ho) as [g' Hg'].
    exists g'. split; [exact Hg'|].
    unfold wall_collision. cbv zeta. rewrite He. fold b2.
    rewrite Hside, Hg'. reflexivity. }
  split; [exact Cx|]. split; [exact Cy|].
  split; [intros HW; rewrite Cx; now apply to_int_half|].
  split; [intros HH; rewrite Cy; now apply to_int_half|].
  split; [rewrite Vx; destruct (pick_x d); auto|].
  split; [exact Vx|].
  split; [exact Hy|].
  split; [exact Ha|].
  split; [rewrite Ha; lra|].
  split; [rewrite Ha; lra|].
  split; [|exact St].
  intros lo hi. rewrite Ha. split; intros [H1 H2]; split; lra.
Qed.

(** C2, as the code has it.  When the ball's rectangle is at or beyond the
    left edge of a window of positive width (left <= 0), [wall_collision]
    reports the point for the player, then resets the ball; nothing but the
    rectangle's x decides the side. *)
Theorem left_exit_credits_player {G : Type} (cb : string -> G -> option G)
    (d : Draw) (b : t) (g : G) :
  0 < WINDOW_WIDTH cfg ->
  Rect.left (rect b) <= 0 ->
  exits cfg (wall_bounce cfg b) = true
  /\ scoring_side cfg (wall_bounce cfg b) = "player"
  /\ wall_collision cfg cb d b g
     = match cb "player" g with
       | Some g' => Some (reset cfg d (wall_bounce cfg b), g')
       | None => None
       end.
Proof.
  intros HW Hl. unfold Rect.left in Hl.
  assert (He : exits cfg (wall_bounce cfg b) = true).
  { unfold exits, Rect.left. rewrite wall_bounce_x.
    apply orb_true_iff. right. now apply Z.leb_le. }
  assert (Hs : scoring_side cfg (wall_bounce cfg b) = "player").
  { unfold scoring_side. rewrite wall_bounce_x.
    assert (E : Qlt_bool (inject_Z (Rect.x (rect b)))
                         (inject_Z (WINDOW_WIDTH cfg) / (2 # 1))%Q = true)
      by (apply Qlt_bool_true, lt_half_window; lia).
    now rewrite E. }
  split; [exact He|]. split; [exact Hs|].
  unfold wall_collision. cbv zeta. now rewrite He, Hs.
Qed.

(** C6, as the code has it.  [reset] does not touch the speed modifier:
    right after a reset it is what the last update left, 1 for a ball in
    play.  It is [timer], at the start of every update and before [move]
    reads it, that sets it: after a reset at clock [ticks d], along any
    updates in which no further reset occurs, every update at a clock less
    than [duration] (1200) after the reset leaves the speed modifier at 0
    and every update at a clock [duration] or more after it leaves it at 1;
    no update fails or touches the game on the way. *)
Theorem serve_delay {G : Type} (cb : string -> G -> option G)
    (d : Draw) (b : t) (g : G) (ts : list Tick) (k : Tick) :
  reset_free cfg (ts ++ [k]) (reset cfg d b) = true ->
  speed_modifier (reset cfg d b) = speed_modifier b
  /\ exists b',
       updates cfg cb (ts ++ [k]) (reset cfg d b) g = Some (b', g)
       /\ start_time b' = ticks d
       /\ (t_now k - ticks d < duration -> speed_modifier b' = 0)
       /\ (duration <= t_now k - ticks d -> speed_modifier b' = 1).
Proof.
  intros Hf.
  destruct (updates_reset_free cb ts k (reset cfg d b) g Hf)
    as (b' & Hu & S1 & M1).
  destruct (reset_spec d b) as (_ & _ & _ & _ & _ & _ & St & Sm).
  cbv zeta in St, Sm. rewrite St in S1, M1.
  split; [exact Sm|].
  exists b'. split; [exact Hu|]. split; [exact S1|].
  rewrite M1. split; intros H.
  - apply Z.ltb_lt in H. now rewrite H.
  - apply Z.ltb_ge in H. now rewrite H.
Qed.

(** C10, as the code has it.  If the ball's rectangle is at least three
    pixels narrower than the window and less tall than it, then after every
    [Ball.update] that returns the rectangle lies within the window:
    top >= 0, bottom <= WINDOW_HEIGHT, left > 0 and right < WINDOW_WIDTH. *)
Theorem ball_update_in_window {G : Type} (cb : string -> G -> option G)
    (dt : Q) (now : Z) (d : Draw) (paddles : list Paddle.t)
    (b b' : t) (g g' : G) :
  0 <= Rect.w (rect b) ->
  Rect.w (rect b) + 3 <= WINDOW_WIDTH cfg ->
  0 <= Rect.h (rect b) ->
  Rect.h (rect b) < WINDOW_HEIGHT cfg ->
  update cfg cb dt now d paddles b g = Some (b', g') ->
  0 <= Rect.top (rect b')
  /\ Rect.bottom (rect b') <= WINDOW_HEIGHT cfg
  /\ 0 < Rect.left (rect b')
  /\ Rect.right (rect b') < WINDOW_WIDTH cfg.
Proof.
  intros Hw0 Hw Hh0 Hh Hu.
  set (k := mkTick dt now d paddles).
  change (update cfg cb (t_dt k) (t_now k) (t_draw k) (t_paddles k) b g
          = Some (b', g')) in Hu.
  destruct (advance_frame k b) as (_ & _ & Wk & Hk).
  destruct (exits cfg (advance cfg k b)) eqn:He.
  - rewrite (update_exit cb k b g He) in Hu.
    destruct (cb _ g) as [g1|]; [|discriminate].
    injection Hu as <- <-.
    destruct (reset_spec (t_draw k) (advance cfg k b))
      as (Cx & Cy & Wr & Hr & _).
    cbv zeta in Cx, Cy, Wr, Hr.
    rewrite to_int_half in Cx by lia. rewrite to_int_half in Cy by lia.
    unfold Rect.centerx, Rect.centery, Rect.top, Rect.bottom, Rect.left,
      Rect.right in *.
    rewrite Z.shiftr_div_pow2 in Cx, Cy by lia.
    change (2 ^ 1) with 2 in Cx, Cy.
    rewrite Wk in Wr. rewrite Hk in Hr. rewrite Wr, Hr in *.
    pose proof (Z.div_mod (Rect.w (rect b)) 2 ltac:(lia)).
    pose proof (Z.mod_pos_bound (Rect.w (rect b)) 2 ltac:(lia)).
    pose proof (Z.div_mod (Rect.h (rect b)) 2 ltac:(lia)).
    pose proof (Z.mod_pos_bound (Rect.h (rect b)) 2 ltac:(lia)).
    pose proof (Z.div_mod (WINDOW_WIDTH cfg + 1) 2 ltac:(lia)).
    pose proof (Z.mod_pos_bound (WINDOW_WIDTH cfg + 1) 2 ltac:(lia)).
    pose proof (Z.div_mod (WINDOW_HEIGHT cfg + 1) 2 ltac:(lia)).
    pose proof (Z.mod_pos_bound (WINDOW_HEIGHT cfg + 1) 2 ltac:(lia)).
    change (t_draw k) with d in *. lia.
  - rewrite (update_no_exit cb k b g He) in Hu. injection Hu as <- <-.
    unfold exits in He. apply orb_false_iff in He as [E1 E2].
    apply Z.leb_gt in E1, E2.
    assert (Hv : 0 <= Rect.top (rect (advance cfg k b))
                 /\ Rect.bottom (rect (advance cfg k b)) <= WINDOW_HEIGHT cfg).
    { unfold advance. apply wall_bounce_vertical.
      destruct (move_frame (t_dt k) (t_paddles k)
                  (timer (t_now k) (set_old_rect (rect b) b)))
        as (_ & Hm & _).
      rewrite Hm. unfold timer.
      destruct (duration <=? _); fields; lia. }
    destruct Hv. auto.
Qed.

End WithSettings.

(** C2 as stated fails: a ball beyond the left edge whose centre is left of
    the middle of the window (x = -5, centre x = 10 < 640) adds the point
    to the player's counter, the opponent's counter stays. *)
Lemma left_exit_does_not_credit_opponent :
  Rect.left (rect Examples.ball_left_exit) <= 0
  /\ 2 * Rect.centerx (rect Examples.ball_left_exit)
     < WINDOW_WIDTH Examples.cfg0
  /\ scoring_side Examples.cfg0 (wall_bounce Examples.cfg0
                                              Examples.ball_left_exit)
     <> "opponent"
  /\ exists b' g',
       wall_collision Examples.cfg0 Score.update_score Examples.draw0
                      Examples.ball_left_exit (Examples.challenge_at 3 2)
       = Some (b', g')
       /\ Score.score g' !! "player" = Some 4
       /\ Score.score g' !! "opponent" = Some 2.
Proof.
  split; [now vm_compute|]. split; [now vm_compute|].
  split; [vm_compute; discriminate|].
  eexists. eexists. split; [vm_compute; reflexivity|].
  split; reflexivity.
Qed.

Lemma left_exit_credits_player_witness :
  scoring_side Examples.cfg0 (wall_bounce Examples.cfg0 Examples.ball_left_exit)
  = "player".
Proof.
  refine (proj1 (proj2 (left_exit_credits_player Examples.cfg0
                          Score.update_score Examples.draw0
                          Examples.ball_left_exit
                          (Examples.challenge_at 3 2) _ _))).
  - cbn; lia.
  - cbn; lia.
Defined.

(** A ball beyond the left edge at 3:2: the point goes to the player, the
    ball is centred at (640, 360) and served at 0.75. *)
Lemma side_exit_scores_then_resets_witness :
  let r := reset Examples.cfg0 Examples.draw0
                 (wall_bounce Examples.cfg0 Examples.ball_left_exit) in
  scoring_side Examples.cfg0
               (wall_bounce Examples.cfg0 Examples.ball_left_exit) = "player"
  /\ Rect.centerx (rect r) = 640 /\ Rect.centery (rect r) = 360
  /\ (Qabs (vy (direction r)) == 3 # 4)%Q
  /\ start_time r = 5000.
Proof.
  destruct (side_exit_scores_then_resets Examples.cfg0 Examples.draw0
              Examples.ball_left_exit (Examples.challenge_at 3 2) 3 2)
    as (Hs & _ & _ & _ & Cx & Cy & _ & _ & _ & Ha & _ & _ & _ & St).
  - vm_compute; reflexivity.
  - unfold Qle; cbn; lia.
  - unfold Qle; cbn; lia.
  - reflexivity.
  - reflexivity.
  - cbv zeta. split; [exact Hs|].
    split; [apply Cx; cbn; lia|]. split; [apply Cy; cbn; lia|].
    split; [rewrite Ha; reflexivity|exact St].
Defined.

(** 500 ms after the serve the ball stands still, 1300 ms after it moves. *)
Lemma serve_delay_witness :
  exists b1 b2,
    updates Examples.cfg0 Score.update_score [Examples.tick_early]
            (reset Examples.cfg0 Examples.draw0 Examples.ball_left_exit)
            (Examples.challenge_at 3 2)
    = Some (b1, Examples.challenge_at 3 2)
    /\ speed_modifier b1 = 0
    /\ updates Examples.cfg0 Score.update_score
               [Examples.tick_early; Examples.tick_late]
               (reset Examples.cfg0 Examples.draw0 Examples.ball_left_exit)
               (Examples.challenge_at 3 2)
       = Some (b2, Examples.challenge_at 3 2)
    /\ speed_modifier b2 = 1.
Proof.
  destruct (serve_delay Examples.cfg0 Score.update_score Examples.draw0
              Examples.ball_left_exit (Examples.challenge_at 3 2)
              [] Examples.tick_early)
    as (_ & b1 & U1 & _ & Z1 & _); [vm_compute; reflexivity|].
  destruct (serve_delay Examples.cfg0 Score.update_score Examples.draw0
              Examples.ball_left_exit (Examples.challenge_at 3 2)
              [Examples.tick_early] Examples.tick_late)
    as (_ & b2 & U2 & _ & _ & O2); [vm_compute; reflexivity|].
  exists b1, b2.
  split; [exact U1|]. split; [apply Z1; vm_compute; reflexivity|].
  split; [exact U2|]. apply O2. vm_compute. discriminate.
Defined.

(** C6 as stated fails: the update at clock 5000 in which a ball in play
    leaves the window resets it (serve timer at 5000) and leaves the speed
    modifier at 1, although no time has passed since the reset. *)
Lemma reset_keeps_speed_modifier :
  exists b' g',
    update Examples.cfg0 Score.update_score (1 # 60) 5000 Examples.draw0
           [Examples.right_paddle; Examples.left_paddle]
           Examples.ball_left_exit (Examples.challenge_at 3 2)
    = Some (b', g')
    /\ b' = reset Examples.cfg0 Examples.draw0
                  (advance Examples.cfg0
                           (mkTick (1 # 60) 5000 Examples.draw0
                                   [Examples.right_paddle;
                                    Examples.left_paddle])
                           Examples.ball_left_exit)
    /\ start_time b' = 5000
    /\ 5000 - start_time b' < duration
    /\ speed_modifier b' = 1
    /\ speed_modifier b' <> 0.
Proof.
  eexists. eexists. split; [vm_compute; reflexivity|].
  split; [vm_compute; reflexivity|].
  split; [reflexivity|]. split; [reflexivity|].
  split; [reflexivity|]. discriminate.
Qed.

(** C10 as stated fails: in a window two pixels wider than the ball (33
    against 31) the ball, smaller than the window, is reset to x = 2 by the
    update in which it leaves the window, so its right edge is on the
    window's edge, not inside. *)
Lemma narrow_window_right_edge :
  Rect.w (rect Examples.ball_narrow) < WINDOW_WIDTH Examples.cfg_narrow
  /\ Rect.h (rect Examples.ball_narrow) < WINDOW_HEIGHT Examples.cfg_narrow
  /\ exists b' g',
       update Examples.cfg_narrow Score.update_score (1 # 60) 3000
              Examples.draw0 [] Examples.ball_narrow
              (Examples.challenge_at 3 2)
       = Some (b', g')
       /\ Rect.left (rect b') = 2
       /\ Rect.right (rect b') = 33
       /\ ~ Rect.right (rect b') < WINDOW_WIDTH Examples.cfg_narrow.
Proof.
  split; [cbn; lia|]. split; [cbn; lia|].
  eexists. eexists. split; [vm_compute; reflexivity|].
  split; [reflexivity|]. split; [reflexivity|].
  vm_compute. discriminate.
Qed.

Lemma ball_update_in_window_witness :
  exists b' g',
    update Examples.cfg0 Score.update_score (1 # 60) 3000 Examples.draw0
           [Examples.right_paddle; Examples.left_paddle]
           Examples.ball_left_exit (Examples.challenge_at 3 2)
    = Some (b', g')
    /\ 0 <= Rect.top (rect b')
    /\ Rect.bottom (rect b') <= 720
    /\ 0 < Rect.left (rect b')
    /\ Rect.right (rect b') < 1280.
Proof.
  destruct (update Examples.cfg0 Score.update_score (1 # 60) 3000
              Examples.draw0 [Examples.right_paddle; Examples.left_paddle]
              Examples.ball_left_exit (Examples.challenge_at 3 2))
    as [[b' g']|] eqn:E; [|vm_compute in E; discriminate].
  exists b', g'. split; [reflexivity|].
  apply (ball_update_in_window Examples.cfg0 Score.update_score (1 # 60) 3000
           Examples.draw0 [Examples.right_paddle; Examples.left_paddle]
           Examples.ball_left_exit b' (Examples.challenge_at 3 2) g');
    [cbn; lia | cbn; lia | cbn; lia | cbn; lia | exact E].
Defined.

End WallFacts.

(** ** The game loop *)

Module LoopFacts.
Import Loop.

(** A scoring event that sets the won flag happens in a challenge and does
    not raise the retry modal. *)
Lemma update_score_sets_won (side : string) (g g' : Score.Game) :
  Score.update_score side g = Some g' ->
  Score.challenge_won g = false ->
  Score.challenge_won g' = true ->
  Score.in_challenge g' = true
  /\ Score.show_retry_modal g' = Score.show_retry_modal g.
Proof.
  unfold Score.update_score.
  destruct (Score.incr _ _) as [sc|]; [|discriminate].
  cbn. destruct (Score.in_challenge g) eqn:Hc.
  - unfold Score.challenge_check, Score.overshoot_check. cbn.
    repeat (match goal with
            | |- context [match ?m !! ?k with _ => _ end] => destruct (m !! k)
            | |- context [if ?c then _ else _] => destruct c
            end; try discriminate);
      intros [= <-]; cbn; intros Hw Hw'; try congruence; auto.
  - intros [= <-]. cbn. congruence.
Qed.

(** [update_score] has no guard on the won flag: it keeps the flag and
    counts the point. *)
Lemma update_score_unguarded (side : string) (g g' : Score.Game) :
  Score.update_score side g = Some g' ->
  Score.challenge_won g = true ->
  Score.challenge_won g' = true
  /\ exists v, Score.score g !! Score.scored_key side = Some v
               /\ Score.score g' = <[Score.scored_key side := v + 1]>
                                      (Score.score g).
Proof.
  intros Hu Hw.
  destruct (ScoreFacts.update_score_flags side g g' Hu) as (_ & Hkeep & _).
  split; [auto|].
  unfold Score.update_score in Hu. fold (Score.scored_key side) in Hu.
  destruct (Score.incr _ _) as [sc|] eqn:Ei; [|discriminate].
  apply ScoreFacts.incr_Some in Ei as (v & Hv & ->).
  exists v. split; [exact Hv|].
  cbn in Hu. destruct (Score.in_challenge g).
  - unfold Score.challenge_check, Score.overshoot_check in Hu. cbn in Hu.
    repeat (match type of Hu with
            | context [match ?m !! ?k with _ => _ end] => destruct (m !! k)
            | context [if ?c then _ else _] => destruct c
            end; try discriminate);
      injection Hu as <-; reflexivity.
  - injection Hu as <-. reflexivity.
Qed.

Section WithSettings.
Variable cfg : Settings.

(** [Ball.update] calls its callback at most once. *)
Lemma ball_update_callback {G : Type} (cb : string -> G -> option G)
    (dt : Q) (now : Z) (d : Ball.Draw) (paddles : list Paddle.t)
    (b b' : Ball.t) (g g' : G) :
  Ball.update cfg cb dt now d paddles b g = Some (b', g') ->
  g' = g \/ exists side, cb side g = Some g'.
Proof.
  unfold Ball.update, Ball.wall_collision. cbv zeta.
  destruct (Ball.exits cfg _).
  - destruct (cb _ g) as [g1|] eqn:E; [|discriminate].
    intros [= <- <-]. right. eauto.
  - intros [= <- <-]. now left.
Qed.

Lemma all_sprites_update_won (i : FrameInput) (w w' : World) :
  all_sprites_update cfg i w = Some w' ->
  Score.challenge_won (game w) = false ->
  Score.challenge_won (game w') = true ->
  Score.in_challenge (game w') = true
  /\ Score.show_retry_modal (game w') = Score.show_retry_modal (game w).
Proof.
  unfold all_sprites_update.
  destruct (Ball.update cfg _ _ _ _ _ _ _) as [[b1 g1]|] eqn:E; [|discriminate].
  intros [= <-]. cbn [game]. intros Hw Hw'.
  apply ball_update_callback in E as [->|[side Hs]]; [congruence|].
  eapply update_score_sets_won; eassumption.
Qed.

Lemma decline_won (o : Oracle) (w w' : World) (st : Status)
    (tr : list Action) :
  decline cfg o w = (st, w', tr) ->
  Score.challenge_won (game w) = false ->
  Score.challenge_won (game w') = false.
Proof.
  unfold decline. destruct (menus o); intros [= <- <- <-]; cbn; auto.
Qed.

Lemma decline_trace (o : Oracle) (w w' : World) (st : Status)
    (tr : list Action) :
  decline cfg o w = (st, w', tr) -> ~ In UpdateSprites tr.
Proof.
  unfold decline. destruct (menus o); intros [= <- <- <-]; cbn;
    intuition discriminate.
Qed.

Lemma handle_events_won (evs : list (Event * Oracle)) (w w' : World)
    (st : Status) (tr : list Action) :
  handle_events cfg evs w = (st, w', tr) ->
  Score.challenge_won (game w) = false ->
  Score.challenge_won (game w') = false.
Proof.
  revert w w' st tr.
  induction evs as [|[e o] rest IH]; intros w w' st tr; cbn [handle_events].
  - intros [= <- <- <-]. auto.
  - destruct e as [|[|]| | |]; try (apply IH).
    + intros [= <- <- <-]. auto.
    + destruct (Score.show_retry_modal (game w)); [|apply IH].
      destruct (decline cfg o w) as [[st1 w1] tr1] eqn:Ed.
      destruct st1.
      * destruct (handle_events cfg rest w1) as [[st2 w2] tr2] eqn:Eh.
        intros [= <- <- <-] Hw. eapply IH; [exact Eh|].
        eapply decline_won; eassumption.
      * intros [= <- <- <-] Hw. eapply decline_won; eassumption.
      * intros [= <- <- <-] Hw. eapply decline_won; eassumption.
Qed.

Lemma handle_clicks_won (evs : list (Event * Oracle)) (w w' : World)
    (st : Status) (tr : list Action) :
  handle_clicks cfg evs w = (st, w', tr) ->
  Score.challenge_won (game w) = false ->
  Score.challenge_won (game w') = false.
Proof.
  revert w w' st tr.
  induction evs as [|[e o] rest IH]; intros w w' st tr; cbn [handle_clicks].
  - intros [= <- <- <-]. auto.
  - destruct e as [| |button| |]; try (apply IH).
    destruct (button =? 1); [|apply IH].
    destruct (Rect.collidepoint (mouse o) (yes_rect cfg)).
    + intros H Hw. eapply IH; [exact H|]. cbn. exact Hw.
    + destruct (Rect.collidepoint (mouse o) (no_rect cfg)); [|apply IH].
      destruct (decline cfg o w) as [[st1 w1] tr1] eqn:Ed.
      destruct st1.
      * destruct (handle_clicks cfg rest w1) as [[st2 w2] tr2] eqn:Eh.
        intros [= <- <- <-] Hw. eapply IH; [exact Eh|].
        eapply decline_won; eassumption.
      * intros [= <- <- <-] Hw. eapply decline_won; eassumption.
      * intros [= <- <- <-] Hw. eapply decline_won; eassumption.
Qed.

Lemma handle_clicks_trace (evs : list (Event * Oracle)) (w w' : World)
    (st : Status) (tr : list Action) :
  handle_clicks cfg evs w = (st, w', tr) -> ~ In UpdateSprites tr.
Proof.
  revert w w' st tr.
  induction evs as [|[e o] rest IH]; intros w w' st tr; cbn [handle_clicks].
  - intros [= <- <- <-]. auto.
  - destruct e as [| |button| |]; try (apply IH).
    destruct (button =? 1); [|apply IH].
    destruct (Rect.collidepoint (mouse o) (yes_rect cfg)); [apply IH|].
    destruct (Rect.collidepoint (mouse o) (no_rect cfg)); [|apply IH].
    destruct (decline cfg o w) as [[st1 w1] tr1] eqn:Ed.
    pose proof (decline_trace _ _ _ _ _ Ed) as Hd.
    destruct st1.
    + destruct (handle_clicks cfg rest w1) as [[st2 w2] tr2] eqn:Eh.
      intros [= <- <- <-] Hin. apply in_app_or in Hin as [Hin|Hin];
        [now apply Hd | now apply (IH _ _ _ _ Eh)].
    + intros [= <- <- <-]. exact Hd.
    + intros [= <- <- <-]. exact Hd.
Qed.

(** Events that neither quit nor decline leave the world alone. *)
Lemma handle_events_quiet (evs : list (Event * Oracle)) (w : World) :
  quiet_events evs = true -> handle_events cfg evs w = (Running, w, []).
Proof.
  induction evs as [|[e o] rest IH]; cbn [quiet_events forallb handle_events fst];
    [reflexivity|].
  intros H. apply andb_true_iff in H as [He Hr].
  destruct e as [|[|]| | |]; try discriminate; now apply IH.
Qed.

(** Mouse events without a left click on Yes or No leave it alone too. *)
Lemma handle_clicks_quiet (evs : list (Event * Oracle)) (w : World) :
  quiet_clicks cfg evs = true -> handle_clicks cfg evs w = (Running, w, []).
Proof.
  induction evs as [|[e o] rest IH];
    cbn [quiet_clicks forallb handle_clicks fst snd]; [reflexivity|].
  intros H. apply andb_true_iff in H as [He Hr].
  destruct e as [| |button| |]; try (now apply IH).
  destruct (button =? 1); [|now apply IH].
  cbn [andb] in He. apply negb_true_iff, orb_false_iff in He as [Hy Hn].
  rewrite Hy, Hn. now apply IH.
Qed.

Lemma triple_eta {A B C : Type} (r : A * B * C) :
  r = (fst (fst r), snd (fst r), snd r).
Proof. now destruct r as [[? ?] ?]. Defined.

(** From the update on: a frame that leaves the won flag set has left the
    loop through the final menu. *)
Lemma frame_after_events_won (i : FrameInput) (w1 w' : World) (st : Status)
    (tr : list Action) :
  Score.challenge_won (game w1) = false ->
  frame_after_events cfg i w1 = (st, w', tr) ->
  (Score.challenge_won (game w') = true ->
     st = Left /\ Score.in_challenge (game w') = true
     /\ exists tr0, tr = tr0 ++ [FinalMenu; SaveScore; QuitPygame])
  /\ (st = Running -> Score.challenge_won (game w') = false).
Proof.
  intros Hw. unfold frame_after_events.
  destruct (Score.show_retry_modal (game w1)) eqn:Hm.
  - (* paused: no update *)
    rewrite Hm.
    destruct (handle_clicks cfg (clicks i) w1) as [[st3 w3] tr3] eqn:Ec.
    pose proof (handle_clicks_won _ _ _ _ _ Ec Hw) as Hw3.
    destruct st3.
    + rewrite Hw3, andb_false_r. intros [= <- <- <-].
      split; [congruence | auto].
    + intros [= <- <- <-]. split; [congruence | discriminate].
    + intros [= <- <- <-]. split; [congruence | discriminate].
  - destruct (all_sprites_update cfg i w1) as [w2|] eqn:Eu.
    2:{ intros [= <- <- <-]. split; [congruence | discriminate]. }
    destruct (Score.challenge_won (game w2)) eqn:Hw2.
    + (* the update set the won flag *)
      destruct (all_sprites_update_won _ _ _ Eu Hw Hw2) as [Hc2 Hm2].
      rewrite Hm in Hm2. rewrite Hm2, Hc2, Hw2. cbn [andb].
      intros [= <- <- <-]. split; [|discriminate].
      intros _. split; [reflexivity|]. split; [exact Hc2|].
      exists [FillBackground; UpdateSprites; DrawSprites; DisplayScore].
      reflexivity.
    + destruct (Score.show_retry_modal (game w2)) eqn:Hm2'.
      * destruct (handle_clicks cfg (clicks i) w2) as [[st3 w3] tr3] eqn:Ec.
        pose proof (handle_clicks_won _ _ _ _ _ Ec Hw2) as Hw3.
        destruct st3.
        -- rewrite Hw3, andb_false_r. intros [= <- <- <-].
           split; [congruence | auto].
        -- intros [= <- <- <-]. split; [congruence | discriminate].
        -- intros [= <- <- <-]. split; [congruence | discriminate].
      * rewrite Hw2, andb_false_r. intros [= <- <- <-].
        split; [congruence | auto].
Qed.

Lemma frame_won (i : FrameInput) (w w' : World) (st : Status)
    (tr : list Action) :
  Score.challenge_won (game w) = false ->
  frame cfg i w = (st, w', tr) ->
  (Score.challenge_won (game w') = true ->
     st = Left /\ Score.in_challenge (game w') = true
     /\ exists tr0, tr = tr0 ++ [FinalMenu; SaveScore; QuitPygame])
  /\ (st = Running -> Score.challenge_won (game w') = false).
Proof.
  intros Hw. unfold frame.
  destruct (handle_events cfg (events i) w) as [[st1 w1] tr1] eqn:Eh.
  pose proof (handle_events_won _ _ _ _ _ Eh Hw) as Hw1.
  destruct st1.
  - destruct (frame_after_events cfg i w1) as [[st2 w2] tr2] eqn:Ef.
    destruct (frame_after_events_won _ _ _ _ _ Hw1 Ef) as [H1 H2].
    intros [= <- <- <-]. split; [|exact H2].
    intros Hwon. destruct (H1 Hwon) as (-> & Hc & tr0 & ->).
    split; [reflexivity|]. split; [exact Hc|].
    exists ([PollEvents] ++ tr1 ++ tr0). now rewrite <- !app_assoc.
  - intros [= <- <- <-]. split; [congruence | discriminate].
  - intros [= <- <- <-]. split; [congruence | discriminate].
Qed.

(** The loop never goes on with the won flag set. *)
Lemma run_won (fs : list FrameInput) (w w' : World) (tr : list Action) :
  Score.challenge_won (game w) = false ->
  run cfg fs w = (Running, w', tr) ->
  Score.challenge_won (game w') = false.
Proof.
  revert w w' tr. induction fs as [|i rest IH]; intros w w' tr Hw; cbn [run].
  - intros [= <- <-]. exact Hw.
  - destruct (frame cfg i w) as [[st1 w1] tr1] eqn:Ef.
    destruct (frame_won _ _ _ _ _ Hw Ef) as [_ H2].
    destruct st1; try discriminate.
    destruct (run cfg rest w1) as [[st2 w2] tr2] eqn:Er.
    intros [= -> <- <-]. eapply IH; [apply H2; reflexivity | exact Er].
Qed.

(** C7, as the code has it.  Starting, as [challenge_menu] leaves it, with
    the won flag clear: a frame of [Game.run] that ends with the won flag set
    has shown the final menu and left the loop, in a challenge; so no frame
    of the loop ever starts with the flag set and no scoring event is
    delivered after a win.  [update_score] itself has no guard: a scoring
    event delivered with the flag set keeps the flag and still adds one to
    the counter of the scoring side. *)
Theorem won_ends_round (i : FrameInput) (w w' : World) (st : Status)
    (tr : list Action) :
  Score.challenge_won (game w) = false ->
  frame cfg i w = (st, w', tr) ->
  (Score.challenge_won (game w') = true ->
     st = Left /\ Score.in_challenge (game w') = true
     /\ exists tr0, tr = tr0 ++ [FinalMenu; SaveScore; QuitPygame])
  /\ (st = Running -> Score.challenge_won (game w') = false)
  /\ (forall fs w2 tr2,
        run cfg fs w = (Running, w2, tr2) ->
        Score.challenge_won (game w2) = false)
  /\ (forall side g g',
        Score.challenge_won g = true ->
        Score.update_score side g = Some g' ->
        Score.challenge_won g' = true
        /\ exists v, Score.score g !! Score.scored_key side = Some v
                     /\ Score.score g'
                        = <[Score.scored_key side := v + 1]> (Score.score g)).
Proof.
  intros Hw Hf. destruct (frame_won _ _ _ _ _ Hw Hf) as [H1 H2].
  split; [exact H1|]. split; [exact H2|]. split.
  - intros fs w2 tr2. now apply run_won.
  - intros side g g' Hg Hu. now apply (update_score_unguarded side g g').
Qed.

(** A frame that starts with the retry modal shown and in which no event
    quits or declines: the update is skipped, events are polled and the
    sprites, the score and the modal are drawn. *)
Lemma paused_frame_trace (i : FrameInput) (w w' : World) (st : Status)
    (tr : list Action) :
  Score.show_retry_modal (game w) = true ->
  quiet_events (events i) = true ->
  frame cfg i w = (st, w', tr) ->
  ~ In UpdateSprites tr
  /\ exists tr3,
       tr = [PollEvents; FillBackground; DrawSprites; DisplayScore;
             DrawRetryModal; PollMouseEvents] ++ tr3.
Proof.
  intros Hm Hq. unfold frame. rewrite (handle_events_quiet _ w Hq).
  unfold frame_after_events. rewrite Hm. cbv beta iota zeta. rewrite Hm.
  destruct (handle_clicks cfg (clicks i) w) as [[st3 w3] tr3] eqn:Ec.
  pose proof (handle_clicks_trace _ _ _ _ _ Ec) as Ht.
  assert (Hno : forall rest, ~ In UpdateSprites rest ->
            ~ In UpdateSprites
                ([PollEvents; FillBackground; DrawSprites; DisplayScore;
                  DrawRetryModal; PollMouseEvents] ++ rest)).
  { intros rest Hr Hin. cbn in Hin.
    repeat (destruct Hin as [Hin|Hin]; [discriminate|]). now apply Hr. }
  destruct st3;
    [destruct (Score.in_challenge (game w3) && Score.challenge_won (game w3))|..].
  all:
    intros [= <- <- <-]; cbn [app]; (split; [|eexists; reflexivity]);
    apply (Hno _); try exact Ht;
    intros Hin; apply in_app_or in Hin as [Hin|Hin];
    try (now apply Ht); cbn in Hin; intuition discriminate.
Qed.

(** C8, as the code has it.  A frame that starts with the retry modal shown
    and in which the player makes no resolving choice (no quit and no Esc
    among the events, no left click on Yes or No): the sprites are not
    updated, so the paddles, the ball, the serve timer and the score are
    after the frame what they were before it and the modal stays; the events
    were polled and the sprites, the score and the modal were drawn.  Without
    the condition on the clicks the update is skipped all the same. *)
Theorem paused_frame_frozen (i : FrameInput) (w : World) :
  Score.show_retry_modal (game w) = true ->
  quiet_events (events i) = true ->
  (forall st w' tr, frame cfg i w = (st, w', tr) ->
     ~ In UpdateSprites tr
     /\ In PollEvents tr /\ In DrawSprites tr /\ In DisplayScore tr
     /\ In DrawRetryModal tr /\ In PollMouseEvents tr)
  /\ (quiet_clicks cfg (clicks i) = true ->
      exists st tr,
        frame cfg i w = (st, w, tr)
        /\ tr = [PollEvents; FillBackground; DrawSprites; DisplayScore;
                 DrawRetryModal; PollMouseEvents]
                ++ (if Score.in_challenge (game w)
                       && Score.challenge_won (game w)
                    then [FinalMenu; SaveScore; QuitPygame]
                    else [DisplayUpdate])
        /\ st = (if Score.in_challenge (game w)
                    && Score.challenge_won (game w)
                 then Left else Running)).
Proof.
  intros Hm Hq. split.
  - intros st w' tr Hf.
    destruct (paused_frame_trace i w w' st tr Hm Hq Hf) as [Hno [tr3 ->]].
    split; [exact Hno|]. cbn. intuition auto.
  - intros Hc. unfold frame. rewrite (handle_events_quiet _ w Hq).
    unfold frame_after_events. rewrite Hm. cbv beta iota zeta. rewrite Hm.
    rewrite (handle_clicks_quiet _ w Hc). cbv beta iota zeta.
    destruct (Score.in_challenge (game w) && Score.challenge_won (game w));
      eexists; eexists; (split; [reflexivity|]); split; reflexivity.
Qed.

End WithSettings.

(** At 25:7 the ball leaves on the left: the player scores, the challenge is
    won and the frame leaves the loop. *)
Lemma won_ends_round_witness :
  exists w' tr,
    frame Examples.cfg0 Examples.frame_idle Examples.world_match_point
    = (Left, w', tr)
    /\ Score.challenge_won (game w') = true
    /\ Score.score (game w') !! "player" = Some 26.
Proof.
  pose proof (triple_eta (frame Examples.cfg0 Examples.frame_idle
                                Examples.world_match_point)) as E.
  destruct (won_ends_round Examples.cfg0 Examples.frame_idle
              Examples.world_match_point _ _ _ eq_refl E) as [H _].
  assert (Hw : Score.challenge_won
                 (game (snd (fst (frame Examples.cfg0 Examples.frame_idle
                                        Examples.world_match_point)))) = true)
    by (vm_compute; reflexivity).
  destruct (H Hw) as (Hst & _).
  eexists. eexists. split; [rewrite <- Hst; exact E|].
  split; [exact Hw | vm_compute; reflexivity].
Defined.

(** C8 as stated fails: in a frame that starts with the retry modal shown
    and in which the player clicks on Yes, the update is skipped, yet the
    score (27:3 before) is 0:0 after the frame and the ball is back at the
    centre. *)
Lemma paused_frame_with_retry_changes_state :
  Score.show_retry_modal (game Examples.world_paused) = true
  /\ exists w' tr,
       frame Examples.cfg0 Examples.frame_yes Examples.world_paused
       = (Running, w', tr)
       /\ ~ In UpdateSprites tr
       /\ Score.score (game Examples.world_paused) !! "player" = Some 27
       /\ Score.score (game w') !! "player" = Some 0
       /\ Rect.x (Ball.rect (ball Examples.world_paused)) = 1185
       /\ Rect.x (Ball.rect (ball w')) = 625.
Proof.
  split; [reflexivity|].
  eexists. eexists. split; [vm_compute; reflexivity|].
  split; [cbn; intuition discriminate|].
  repeat split; reflexivity.
Qed.

Lemma paused_frame_frozen_witness :
  exists tr,
    frame Examples.cfg0 Examples.frame_still Examples.world_paused
    = (Running, Examples.world_paused, tr)
    /\ ~ In UpdateSprites tr.
Proof.
  destruct (paused_frame_frozen Examples.cfg0 Examples.frame_still
              Examples.world_paused eq_refl eq_refl) as [Hall Hq].
  destruct (Hq eq_refl) as (st & tr & Hf & _ & Hst).
  cbn in Hst. subst st.
  exists tr. split; [exact Hf|].
  exact (proj1 (Hall _ _ _ Hf)).
Defined.

End LoopFacts.

(** ** More on the scoring state machine *)

Module MatchFacts.
Import Score.

(** X1. [update_score] raises [KeyError] exactly when the counter of the scoring
    side is missing or, in a challenge, when the other counter is missing and
    has to be read: always for a point of the opponent (the player's counter
    is read first), and for a point of the player unless it takes the
    player's counter beyond 26 (then the opponent's counter is not read). *)
Theorem update_score_raises (side : string) (g : Game) :
  update_score side g = None <->
  score g !! scored_key side = None
  \/ (in_challenge g = true
      /\ score g !! other_key side = None
      /\ (side = "player" ->
          exists p, score g !! "player" = Some p /\ p + 1 <= 26)).
Proof.
  unfold update_score, incr, scored_key, other_key.
  destruct (bool_decide (side = "player")) eqn:Es.
  - apply bool_decide_eq_true in Es.
    destruct (score g !! "player") as [p|] eqn:Hp; [|split; auto].
    cbn. destruct (in_challenge g) eqn:Hc.
    + unfold challenge_check, overshoot_check. cbn.
      rewrite lookup_insert_eq, lookup_insert_ne by discriminate.
      unfold TARGET_PLAYER, TARGET_OPPONENT.
      destruct (score g !! "opponent") as [o|] eqn:Ho.
      * split; [|intros [H|(_ & H & _)]; discriminate].
        destruct (p + 1 =? 26); [destruct (o =? 7)|];
          try destruct (26 <? p + 1); try destruct (7 <? o); discriminate.
      * destruct (p + 1 =? 26) eqn:E1.
        -- split; [|reflexivity]. intros _. right.
           split; [reflexivity|]. split; [reflexivity|].
           intros _. exists p. split; [reflexivity | lia].
        -- destruct (26 <? p + 1) eqn:E2.
           ++ split; [discriminate|].
              intros [H|(_ & _ & H)]; [discriminate|].
              destruct (H Es) as (p' & [= <-] & Hle). lia.
           ++ split; [|reflexivity]. intros _. right.
              split; [reflexivity|]. split; [reflexivity|].
              intros _. exists p. split; [reflexivity | lia].
    + split; [discriminate|]. intros [H|(H & _)]; discriminate.
  - apply bool_decide_eq_false in Es.
    destruct (score g !! "opponent") as [o|] eqn:Ho; [|split; auto].
    cbn. destruct (in_challenge g) eqn:Hc.
    + unfold challenge_check, overshoot_check. cbn.
      rewrite lookup_insert_eq, lookup_insert_ne by discriminate.
      unfold TARGET_PLAYER, TARGET_OPPONENT.
      destruct (score g !! "player") as [p|] eqn:Hp.
      * split; [|intros [H|(_ & H & _)]; discriminate].
        destruct (p =? 26); [destruct (o + 1 =? 7)|];
          try destruct (26 <? p); try destruct (7 <? o + 1); discriminate.
      * split; [|reflexivity]. intros _. right.
        split; [reflexivity|]. split; [reflexivity|]. intros H. contradiction.
    + split; [discriminate|]. intros [H|(H & _)]; discriminate.
Qed.

Lemma update_score_counts_key (side : string) (g g' : Game) :
  update_score side g = Some g' ->
  exists v, score g !! scored_key side = Some v
            /\ score g' = <[scored_key side := v + 1]> (score g)
            /\ (in_challenge g = false ->
                challenge_won g' = challenge_won g
                /\ show_retry_modal g' = show_retry_modal g).
Proof.
  intros Hu.
  unfold update_score in Hu. fold (scored_key side) in Hu.
  destruct (incr _ _) as [sc|] eqn:Ei; [|discriminate].
  apply ScoreFacts.incr_Some in Ei as (v & Hv & ->).
  exists v. split; [exact Hv|].
  cbn in Hu. destruct (in_challenge g).
  - split; [|discriminate].
    unfold challenge_check, overshoot_check in Hu. cbn in Hu.
    repeat (match type of Hu with
            | context [match ?m !! ?k with _ => _ end] => destruct (m !! k)
            | context [if ?c then _ else _] => destruct c
            end; try discriminate);
      injection Hu as <-; reflexivity.
  - injection Hu as <-. cbn. auto.
Qed.

(** X2. A scoring event that returns has added one to the counter of the scoring
    side and to nothing else: every other key of the dict is as before, no
    flag is cleared, [in_challenge] is as before, and outside a challenge no
    flag changes.  Every side but ['player'] counts for the opponent. *)
Theorem update_score_only_counts (side : string) (g g' : Game) :
  update_score side g = Some g' ->
  exists v,
    score g !! scored_key side = Some v
    /\ score g' = <[scored_key side := v + 1]> (score g)
    /\ (forall k, k <> scored_key side -> score g' !! k = score g !! k)
    /\ in_challenge g' = in_challenge g
    /\ (challenge_won g = true -> challenge_won g' = true)
    /\ (show_retry_modal g = true -> show_retry_modal g' = true)
    /\ (in_challenge g = false ->
        challenge_won g' = challenge_won g
        /\ show_retry_modal g' = show_retry_modal g)
    /\ (side <> "player" -> scored_key side = "opponent").
Proof.
  intros Hu.
  destruct (ScoreFacts.update_score_flags side g g' Hu) as (Hc & Hw & Hm).
  pose proof (update_score_counts_key side g g' Hu) as Hs.
  destruct Hs as (v & Hv & Hsc & Hidle).
  exists v. split; [exact Hv|]. split; [exact Hsc|].
  split; [intros k Hk; rewrite Hsc; now apply lookup_insert_ne|].
  split; [exact Hc|]. split; [exact Hw|]. split; [exact Hm|].
  split; [exact Hidle|].
  intros Hne. unfold scored_key. now rewrite bool_decide_eq_false_2.
Qed.

(** At 3:2 in a challenge the opponent scores. *)
Lemma update_score_only_counts_witness :
  exists v,
    score (Examples.challenge_at 3 2) !! "opponent" = Some v
    /\ score (mkGame (Examples.score_of 3 3) true false false)
       = <["opponent" := v + 1]> (score (Examples.challenge_at 3 2)).
Proof.
  destruct (update_score_only_counts "opponent" (Examples.challenge_at 3 2)
              (mkGame (Examples.score_of 3 3) true false false) eq_refl)
    as (v & Hv & Hs & _).
  exists v. split; [exact Hv | exact Hs].
Defined.

(** The invariant of a challenge along scoring events: both counters are in
    the dict and the retry modal is shown whenever one exceeds its target. *)
Lemma deliver_challenge (sides : list string) (g : Game) (p o : Z) :
  in_challenge g = true ->
  score g !! "player" = Some p ->
  score g !! "opponent" = Some o ->
  exists g',
    Match.deliver sides g = Some g'
    /\ in_challenge g' = true
    /\ score g' !! "player" = Some (p + fst (Match.points sides))
    /\ score g' !! "opponent" = Some (o + snd (Match.points sides)).
Proof.
  revert g p o. induction sides as [|side rest IH]; intros g p o Hc Hp Ho.
  - exists g. cbn. rewrite !Z.add_0_r. auto.
  - pose proof (ScoreFacts.update_score_challenge side g p o Hc Hp Ho) as Hu.
    destruct (ScoreFacts.score_after_lookup side p o (score g) Hp Ho)
      as [Lp Lo].
    unfold counters_after in *.
    cbn [Match.deliver Match.points].
    destruct (Match.points rest) as [dp do] eqn:Epts.
    destruct (bool_decide (side = "player")) eqn:Es; cbn [fst snd] in *.
    + match type of Hu with
      | _ = Some ?g1 =>
        destruct (IH g1 (p + 1) o) as (g' & Hd & Hc' & Hp' & Ho')
      end.
      { repeat (match goal with |- context [if ?c then _ else _] =>
                  destruct c end); cbn; exact Hc. }
      { repeat (match goal with |- context [if ?c then _ else _] =>
                  destruct c end); cbn; exact Lp. }
      { repeat (match goal with |- context [if ?c then _ else _] =>
                  destruct c end); cbn; exact Lo. }
      rewrite Hu. exists g'. split; [exact Hd|]. split; [exact Hc'|].
      cbn [fst snd] in *. split; [rewrite Hp'; f_equal; lia | exact Ho'].
    + match type of Hu with
      | _ = Some ?g1 =>
        destruct (IH g1 p (o + 1)) as (g' & Hd & Hc' & Hp' & Ho')
      end.
      { repeat (match goal with |- context [if ?c then _ else _] =>
                  destruct c end); cbn; exact Hc. }
      { repeat (match goal with |- context [if ?c then _ else _] =>
                  destruct c end); cbn; exact Lp. }
      { repeat (match goal with |- context [if ?c then _ else _] =>
                  destruct c end); cbn; exact Lo. }
      rewrite Hu. exists g'. split; [exact Hd|]. split; [exact Hc'|].
      cbn [fst snd] in *. split; [exact Hp' | rewrite Ho'; f_equal; lia].
Qed.

Lemma points_nonneg (sides : list string) :
  0 <= fst (Match.points sides) /\ 0 <= snd (Match.points sides).
Proof.
  induction sides as [|side rest IH]; cbn [Match.points]; [cbn; lia|].
  destruct (Match.points rest) as [p o].
  destruct (bool_decide (side = "player")); cbn in *; lia.
Qed.

Lemma points_total (sides : list string) :
  fst (Match.points sides) + snd (Match.points sides)
  = Z.of_nat (length sides).
Proof.
  induction sides as [|side rest IH]; cbn [Match.points length]; [reflexivity|].
  destruct (Match.points rest) as [p o].
  destruct (bool_decide (side = "player")); cbn [fst snd] in *; lia.
Qed.

(** X3. In a challenge that is neither won nor paused, scoring events that keep
    both counters within their targets never raise the retry modal, and the
    won flag is set exactly when they bring the score to 26:7. *)
Theorem won_exactly_at_target (sides : list string) (g : Game) (p o : Z) :
  in_challenge g = true ->
  challenge_won g = false ->
  show_retry_modal g = false ->
  score g !! "player" = Some p ->
  score g !! "opponent" = Some o ->
  ~ (p = 26 /\ o = 7) ->
  p + fst (Match.points sides) <= 26 ->
  o + snd (Match.points sides) <= 7 ->
  exists g',
    Match.deliver sides g = Some g'
    /\ score g' !! "player" = Some (p + fst (Match.points sides))
    /\ score g' !! "opponent" = Some (o + snd (Match.points sides))
    /\ show_retry_modal g' = false
    /\ (challenge_won g' = true <->
        p + fst (Match.points sides) = 26 /\ o + snd (Match.points sides) = 7).
Proof.
  revert g p o.
  induction sides as [|side rest IH]; intros g p o Hc Hw Hm Hp Ho Hne Bp Bo.
  - exists g. cbn in *. rewrite !Z.add_0_r.
    repeat split; auto; try congruence; try lia.
  - pose proof (ScoreFacts.update_score_challenge side g p o Hc Hp Ho) as Hu.
    destruct (ScoreFacts.score_after_lookup side p o (score g) Hp Ho)
      as [Lp Lo].
    pose proof (points_nonneg rest) as [Np No].
    pose proof (points_total rest) as Ht.
    unfold counters_after, TARGET_PLAYER, TARGET_OPPONENT in *.
    cbn [Match.deliver Match.points] in *.
    destruct (Match.points rest) as [dp do] eqn:Epts.
    destruct (bool_decide (side = "player")) eqn:Es; cbn [fst snd] in *.
    + destruct ((p + 1 =? 26) && (o =? 7)) eqn:Ewin.
      * (* the event wins: nothing may follow within the bounds *)
        apply andb_true_iff in Ewin as [E1 E2].
        assert (rest = []) as -> by (destruct rest; [reflexivity | cbn in Ht; lia]).
        cbn in Epts. injection Epts as <- <-.
        rewrite Hu. eexists. split; [reflexivity|]. cbn.
        rewrite Lp, Lo, Hm.
        repeat split; intros; try reflexivity; try (f_equal; lia); lia.
      * assert (Eov : (26 <? p + 1) || (7 <? o) = false)
          by (apply orb_false_iff; split; apply Z.ltb_ge; lia).
        rewrite Eov in Hu. rewrite Hu.
        destruct (IH (set_score (score_after side p o (score g)) g)
                     (p + 1) o) as (g' & Hd & Hp' & Ho' & Hm' & Hw');
          [exact Hc | exact Hw | exact Hm | exact Lp | exact Lo | | lia | lia |].
        { apply andb_false_iff in Ewin as [E|E];
            [apply Z.eqb_neq in E | apply Z.eqb_neq in E]; lia. }
        exists g'. split; [exact Hd|].
        split; [rewrite Hp'; f_equal; lia|]. split; [exact Ho'|].
        split; [exact Hm'|]. rewrite Hw'. lia.
    + destruct ((p =? 26) && (o + 1 =? 7)) eqn:Ewin.
      * apply andb_true_iff in Ewin as [E1 E2].
        assert (rest = []) as -> by (destruct rest; [reflexivity | cbn in Ht; lia]).
        cbn in Epts. injection Epts as <- <-.
        rewrite Hu. eexists. split; [reflexivity|]. cbn.
        rewrite Lp, Lo, Hm.
        repeat split; intros; try reflexivity; try (f_equal; lia); lia.
      * assert (Eov : (26 <? p) || (7 <? o + 1) = false)
          by (apply orb_false_iff; split; apply Z.ltb_ge; lia).
        rewrite Eov in Hu. rewrite Hu.
        destruct (IH (set_score (score_after side p o (score g)) g)
                     p (o + 1)) as (g' & Hd & Hp' & Ho' & Hm' & Hw');
          [exact Hc | exact Hw | exact Hm | exact Lp | exact Lo | | lia | lia |].
        { apply andb_false_iff in Ewin as [E|E];
            [apply Z.eqb_neq in E | apply Z.eqb_neq in E]; lia. }
        exists g'. split; [exact Hd|].
        split; [exact Hp'|]. split; [rewrite Ho'; f_equal; lia|].
        split; [exact Hm'|]. rewrite Hw'. lia.
Qed.

(** From 0:0 the 26 points of the player and the 7 of the opponent, the
    opponent's last, win the challenge. *)
Lemma won_exactly_at_target_witness :
  exists g',
    Match.deliver (repeat "player" 26 ++ repeat "opponent" 7)
                  (Examples.challenge_at 0 0) = Some g'
    /\ challenge_won g' = true.
Proof.
  assert (H1 : ~ (0 = 26 /\ 0 = 7)) by lia.
  assert (H2 : 0 + fst (Match.points (repeat "player" 26
                                      ++ repeat "opponent" 7)) <= 26)
    by (vm_compute; discriminate).
  assert (H3 : 0 + snd (Match.points (repeat "player" 26
                                      ++ repeat "opponent" 7)) <= 7)
    by (vm_compute; discriminate).
  destruct (won_exactly_at_target (repeat "player" 26 ++ repeat "opponent" 7)
              (Examples.challenge_at 0 0) 0 0
              eq_refl eq_refl eq_refl eq_refl eq_refl H1 H2 H3)
    as (g' & Hd & _ & _ & _ & Hw).
  exists g'. split; [exact Hd|]. apply Hw. vm_compute. split; reflexivity.
Defined.

(** X4. In a challenge whose retry modal is shown whenever a counter exceeds its
    target, it is still so after any scoring events: an overshoot is never
    missed, whatever follows it. *)
Theorem overshoot_raises_modal (sides : list string) (g : Game) (p o : Z) :
  in_challenge g = true ->
  score g !! "player" = Some p ->
  score g !! "opponent" = Some o ->
  (26 < p \/ 7 < o -> show_retry_modal g = true) ->
  exists g',
    Match.deliver sides g = Some g'
    /\ (26 < p + fst (Match.points sides) \/ 7 < o + snd (Match.points sides)
        -> show_retry_modal g' = true).
Proof.
  revert g p o.
  induction sides as [|side rest IH]; intros g p o Hc Hp Ho Hinv.
  - exists g. cbn. rewrite !Z.add_0_r. auto.
  - pose proof (ScoreFacts.update_score_challenge side g p o Hc Hp Ho) as Hu.
    destruct (ScoreFacts.score_after_lookup side p o (score g) Hp Ho)
      as [Lp Lo].
    unfold counters_after, TARGET_PLAYER, TARGET_OPPONENT in *.
    cbn [Match.deliver Match.points] in *.
    destruct (Match.points rest) as [dp do] eqn:Epts.
    destruct (bool_decide (side = "player")) eqn:Es; cbn [fst snd] in *.
    + match type of Hu with
      | _ = Some ?g1 =>
        destruct (IH g1 (p + 1) o) as (g' & Hd & Hm')
      end.
      { repeat (match goal with |- context [if ?c then _ else _] =>
                  destruct c end); cbn; exact Hc. }
      { repeat (match goal with |- context [if ?c then _ else _] =>
                  destruct c end); cbn; exact Lp. }
      { repeat (match goal with |- context [if ?c then _ else _] =>
                  destruct c end); cbn; exact Lo. }
      { intros Hex.
        destruct ((p + 1 =? 26) && (o =? 7)) eqn:E1; [lia|].
        destruct ((26 <? p + 1) || (7 <? o)) eqn:E2; [reflexivity|].
        apply orb_false_iff in E2 as [E2 E3]. lia. }
      rewrite Hu. exists g'. split; [exact Hd|].
      intros Hex. apply Hm'. lia.
    + match type of Hu with
      | _ = Some ?g1 =>
        destruct (IH g1 p (o + 1)) as (g' & Hd & Hm')
      end.
      { repeat (match goal with |- context [if ?c then _ else _] =>
                  destruct c end); cbn; exact Hc. }
      { repeat (match goal with |- context [if ?c then _ else _] =>
                  destruct c end); cbn; exact Lp. }
      { repeat (match goal with |- context [if ?c then _ else _] =>
                  destruct c end); cbn; exact Lo. }
      { intros Hex.
        destruct ((p =? 26) && (o + 1 =? 7)) eqn:E1; [lia|].
        destruct ((26 <? p) || (7 <? o + 1)) eqn:E2; [reflexivity|].
        apply orb_false_iff in E2 as [E2 E3]. lia. }
      rewrite Hu. exists g'. split; [exact Hd|].
      intros Hex. apply Hm'. lia.
Qed.

(** At 26:6 the player scores once more: the modal is raised and stays when
    the opponent then reaches 7. *)
Lemma overshoot_raises_modal_witness :
  exists g',
    Match.deliver ["player"; "opponent"] (Examples.challenge_at 26 6) = Some g'
    /\ show_retry_modal g' = true.
Proof.
  assert (H1 : 26 < 26 \/ 7 < 6 ->
               show_retry_modal (Examples.challenge_at 26 6) = true) by lia.
  destruct (overshoot_raises_modal ["player"; "opponent"]
              (Examples.challenge_at 26 6) 26 6 eq_refl eq_refl eq_refl H1)
    as (g' & Hd & Hm).
  exists g'. split; [exact Hd|]. apply Hm. vm_compute. left. reflexivity.
Defined.

(** X5. Outside a challenge scoring events only count, however far: no flag
    changes and no challenge starts. *)
Theorem idle_events_only_count (sides : list string) (g : Game) (p o : Z) :
  in_challenge g = false ->
  score g !! "player" = Some p ->
  score g !! "opponent" = Some o ->
  exists g',
    Match.deliver sides g = Some g'
    /\ score g' !! "player" = Some (p + fst (Match.points sides))
    /\ score g' !! "opponent" = Some (o + snd (Match.points sides))
    /\ in_challenge g' = false
    /\ challenge_won g' = challenge_won g
    /\ show_retry_modal g' = show_retry_modal g.
Proof.
  revert g p o. induction sides as [|side rest IH]; intros g p o Hc Hp Ho.
  - exists g. cbn. rewrite !Z.add_0_r. repeat split; auto.
  - cbn [Match.deliver Match.points].
    destruct (Match.points rest) as [dp do] eqn:Epts.
    unfold update_score, incr.
    destruct (bool_decide (side = "player")) eqn:Es; cbn [fst snd] in *.
    + rewrite Hp. cbn. rewrite Hc.
      destruct (IH (set_score (<["player" := p + 1]> (score g)) g) (p + 1) o)
        as (g' & Hd & Hp' & Ho' & Hc' & Hw' & Hm'); cbn; auto.
      { apply lookup_insert_eq. }
      { now rewrite lookup_insert_ne by discriminate. }
      exists g'. split; [exact Hd|].
      split; [rewrite Hp'; f_equal; lia|]. auto.
    + rewrite Ho. cbn. rewrite Hc.
      destruct (IH (set_score (<["opponent" := o + 1]> (score g)) g) p (o + 1))
        as (g' & Hd & Hp' & Ho' & Hc' & Hw' & Hm'); cbn; auto.
      { now rewrite lookup_insert_ne by discriminate. }
      { apply lookup_insert_eq. }
      exists g'. split; [exact Hd|]. split; [exact Hp'|].
      split; [rewrite Ho'; f_equal; lia|]. auto.
Qed.

Lemma idle_events_only_count_witness :
  exists g',
    Match.deliver (repeat "player" 30)
                  (mkGame (Examples.score_of 0 0) false false false) = Some g'
    /\ score g' !! "player" = Some 30
    /\ show_retry_modal g' = false.
Proof.
  destruct (idle_events_only_count (repeat "player" 30)
              (mkGame (Examples.score_of 0 0) false false false) 0 0
              eq_refl eq_refl eq_refl)
    as (g' & Hd & Hp & _ & _ & _ & Hm).
  exists g'. split; [exact Hd|]. split; [exact Hp | exact Hm].
Defined.

End MatchFacts.

(** ** More on the game loop *)

Module SteadyFacts.
Import Loop Steady.

Lemma steady_spec (g : Score.Game) :
  steady g = true <->
  Score.in_challenge g = true
  /\ Score.challenge_won g = false
  /\ exists p o,
       Score.score g !! "player" = Some p
       /\ Score.score g !! "opponent" = Some o
       /\ 0 <= p /\ 0 <= o
       /\ (Score.show_retry_modal g = true ->
           (p = 27 /\ o <= 7) \/ (o = 8 /\ p <= 26))
       /\ (Score.show_retry_modal g = false ->
           p <= 26 /\ o <= 7 /\ ~ (p = 26 /\ o = 7)).
Proof.
  unfold steady.
  destruct (Score.in_challenge g), (Score.challenge_won g); cbn [andb negb];
    try (split; [discriminate | intros (? & ? & _); discriminate]).
  destruct (Score.score g !! "player") as [p|];
    [|split; [discriminate | intros (_ & _ & ? & ? & ? & _); discriminate]].
  destruct (Score.score g !! "opponent") as [o|];
    [|split; [discriminate | intros (_ & _ & ? & ? & _ & ? & _); discriminate]].
  destruct (Score.show_retry_modal g).
  - split.
    + intros H. split; [reflexivity|]. split; [reflexivity|].
      exists p, o. repeat split; try lia; try (intros _; lia).
    + intros (_ & _ & p' & o' & [= <-] & [= <-] & Hp & Ho & H & _).
      specialize (H eq_refl). lia.
  - split.
    + intros H. split; [reflexivity|]. split; [reflexivity|].
      exists p, o. repeat split; try lia; try discriminate.
    + intros (_ & _ & p' & o' & [= <-] & [= <-] & Hp & Ho & _ & H).
      specialize (H eq_refl). lia.
Qed.

(** One scoring event in a steady challenge whose modal is not shown either
    wins it or leaves it steady. *)
Lemma update_score_steady (side : string) (g : Score.Game) :
  steady g = true ->
  Score.show_retry_modal g = false ->
  exists g',
    Score.update_score side g = Some g'
    /\ (steady g' = true
        \/ (Score.challenge_won g' = true /\ Score.in_challenge g' = true
            /\ Score.show_retry_modal g' = false)).
Proof.
  intros Hs Hm. apply steady_spec in Hs as (Hc & Hw & p & o & Hp & Ho & P0 & O0 & _ & Hb).
  specialize (Hb Hm).
  pose proof (ScoreFacts.update_score_challenge side g p o Hc Hp Ho) as Hu.
  destruct (ScoreFacts.score_after_lookup side p o (Score.score g) Hp Ho)
    as [Lp Lo].
  unfold Score.counters_after, Score.TARGET_PLAYER, Score.TARGET_OPPONENT in *.
  destruct (bool_decide (side = "player")); cbn [fst snd] in *.
  - destruct ((p + 1 =? 26) && (o =? 7)) eqn:E1.
    + eexists. split; [exact Hu|]. right. cbn. auto.
    + destruct ((26 <? p + 1) || (7 <? o)) eqn:E2;
        (eexists; split; [exact Hu|]; left; apply steady_spec; cbn;
         rewrite ?Hm; repeat split; try assumption;
         exists (p + 1), o; repeat split; try assumption; try lia;
         try discriminate; intros _; lia).
  - destruct ((p =? 26) && (o + 1 =? 7)) eqn:E1.
    + eexists. split; [exact Hu|]. right. cbn. auto.
    + destruct ((26 <? p) || (7 <? o + 1)) eqn:E2;
        (eexists; split; [exact Hu|]; left; apply steady_spec; cbn;
         rewrite ?Hm; repeat split; try assumption;
         exists p, (o + 1); repeat split; try assumption; try lia;
         try discriminate; intros _; lia).
Qed.

Lemma steady_zero (g : Score.Game) :
  Score.in_challenge g = true ->
  Score.challenge_won g = false ->
  Score.show_retry_modal g = false ->
  steady (Score.set_score Score.zero_score g) = true.
Proof.
  intros Hc Hw Hm. unfold steady. cbn. rewrite Hc, Hw, Hm. reflexivity.
Qed.

Section WithSettings.
Variable cfg : Settings.

Lemma all_sprites_update_steady (i : FrameInput) (w : World) :
  steady (game w) = true ->
  Score.show_retry_modal (game w) = false ->
  exists w',
    all_sprites_update cfg i w = Some w'
    /\ (steady (game w') = true
        \/ (Score.challenge_won (game w') = true
            /\ Score.in_challenge (game w') = true
            /\ Score.show_retry_modal (game w') = false)).
Proof.
  intros Hs Hm. unfold all_sprites_update, Ball.update, Ball.wall_collision.
  cbv zeta. destruct (Ball.exits cfg _).
  - match goal with
    | |- context [Score.update_score ?side (game w)] =>
      destruct (update_score_steady side (game w) Hs Hm) as (g' & Hu & Hg')
    end.
    rewrite Hu. eexists. split; [reflexivity|]. exact Hg'.
  - eexists. split; [reflexivity|]. left. exact Hs.
Qed.

Lemma decline_steady (o : Oracle) (w w' : World) (tr : list Action) :
  decline cfg o w = (Running, w', tr) -> steady (game w') = true.
Proof.
  unfold decline. destruct (menus o); try discriminate.
  intros [= <- <-]. reflexivity.
Qed.

Lemma reset_challenge_round_steady (d : Ball.Draw) (w : World) :
  steady (game w) = true ->
  steady (game (reset_challenge_round cfg d w)) = true.
Proof.
  intros Hs. apply steady_spec in Hs as (Hc & Hw & _).
  unfold reset_challenge_round, steady. cbn. rewrite Hc, Hw. reflexivity.
Qed.

Lemma handle_events_steady (evs : list (Event * Oracle)) (w w' : World)
    (tr : list Action) :
  steady (game w) = true ->
  handle_events cfg evs w = (Running, w', tr) ->
  steady (game w') = true.
Proof.
  revert w w' tr.
  induction evs as [|[e o] rest IH]; intros w w' tr Hs; cbn [handle_events].
  - intros [= <- <-]. exact Hs.
  - destruct e as [|[|]| | |]; try (now apply IH); try discriminate.
    destruct (Score.show_retry_modal (game w)); [|now apply IH].
    destruct (decline cfg o w) as [[st1 w1] tr1] eqn:Ed.
    destruct st1; try discriminate.
    destruct (handle_events cfg rest w1) as [[st2 w2] tr2] eqn:Eh.
    intros [= -> <- <-]. eapply IH; [|exact Eh].
    eapply decline_steady; exact Ed.
Qed.

Lemma handle_clicks_steady (evs : list (Event * Oracle)) (w w' : World)
    (tr : list Action) :
  steady (game w) = true ->
  handle_clicks cfg evs w = (Running, w', tr) ->
  steady (game w') = true.
Proof.
  revert w w' tr.
  induction evs as [|[e o] rest IH]; intros w w' tr Hs; cbn [handle_clicks].
  - intros [= <- <-]. exact Hs.
  - destruct e as [| |button| |]; try (now apply IH).
    destruct (button =? 1); [|now apply IH].
    destruct (Rect.collidepoint (mouse o) (yes_rect cfg)).
    + apply IH. now apply reset_challenge_round_steady.
    + destruct (Rect.collidepoint (mouse o) (no_rect cfg)); [|now apply IH].
      destruct (decline cfg o w) as [[st1 w1] tr1] eqn:Ed.
      destruct st1; try discriminate.
      destruct (handle_clicks cfg rest w1) as [[st2 w2] tr2] eqn:Eh.
      intros [= -> <- <-]. eapply IH; [|exact Eh].
      eapply decline_steady; exact Ed.
Qed.

Lemma handle_events_status (evs : list (Event * Oracle)) (w w' : World)
    (st : Status) (tr : list Action) :
  handle_events cfg evs w = (st, w', tr) -> st <> Raised.
Proof.
  revert w w' st tr.
  induction evs as [|[e o] rest IH]; intros w w' st tr; cbn [handle_events].
  - intros [= <- <- <-]. discriminate.
  - destruct e as [|[|]| | |]; try (apply IH).
    + intros [= <- <- <-]. discriminate.
    + destruct (Score.show_retry_modal (game w)); [|apply IH].
      unfold decline. destruct (menus o);
        try (intros [= <- <- <-]; discriminate).
      destruct (handle_events cfg rest _) as [[st2 w2] tr2] eqn:Eh.
      intros [= <- <- <-]. eapply IH; exact Eh.
Qed.

Lemma handle_clicks_status (evs : list (Event * Oracle)) (w w' : World)
    (st : Status) (tr : list Action) :
  handle_clicks cfg evs w = (st, w', tr) -> st <> Raised.
Proof.
  revert w w' st tr.
  induction evs as [|[e o] rest IH]; intros w w' st tr; cbn [handle_clicks].
  - intros [= <- <- <-]. discriminate.
  - destruct e as [| |button| |]; try (apply IH).
    destruct (button =? 1); [|apply IH].
    destruct (Rect.collidepoint (mouse o) (yes_rect cfg)); [apply IH|].
    destruct (Rect.collidepoint (mouse o) (no_rect cfg)); [|apply IH].
    unfold decline. destruct (menus o);
      try (intros [= <- <- <-]; discriminate).
    destruct (handle_clicks cfg rest _) as [[st2 w2] tr2] eqn:Eh.
    intros [= <- <- <-]. eapply IH; exact Eh.
Qed.

Lemma frame_after_events_steady (i : FrameInput) (w1 w' : World) (st : Status)
    (tr : list Action) :
  steady (game w1) = true ->
  frame_after_events cfg i w1 = (st, w', tr) ->
  st <> Raised /\ (st = Running -> steady (game w') = true).
Proof.
  intros Hs. unfold frame_after_events.
  destruct (Score.show_retry_modal (game w1)) eqn:Hm.
  - cbv beta iota zeta. rewrite Hm.
    destruct (handle_clicks cfg (clicks i) w1) as [[st3 w3] tr3] eqn:Ec.
    pose proof (handle_clicks_status _ _ _ _ _ Ec) as Hst.
    destruct st3; try congruence.
    + pose proof (handle_clicks_steady _ _ _ _ Hs Ec) as Hs3.
      destruct (Score.in_challenge (game w3) && Score.challenge_won (game w3));
        intros [= <- <- <-]; split; try discriminate; auto.
    + intros [= <- <- <-]. split; discriminate.
  - destruct (all_sprites_update_steady i w1 Hs Hm) as (w2 & Hu & Hw2).
    rewrite Hu. cbv beta iota zeta.
    destruct Hw2 as [Hs2 | (Hw2 & Hc2 & Hm2)].
    + destruct (Score.show_retry_modal (game w2)).
      * destruct (handle_clicks cfg (clicks i) w2) as [[st3 w3] tr3] eqn:Ec.
        pose proof (handle_clicks_status _ _ _ _ _ Ec) as Hst.
        destruct st3; try congruence.
        -- pose proof (handle_clicks_steady _ _ _ _ Hs2 Ec) as Hs3.
           destruct (Score.in_challenge (game w3)
                     && Score.challenge_won (game w3));
             intros [= <- <- <-]; split; try discriminate; auto.
        -- intros [= <- <- <-]. split; discriminate.
      * destruct (Score.in_challenge (game w2)
                  && Score.challenge_won (game w2));
          intros [= <- <- <-]; split; try discriminate; auto.
    + rewrite Hm2, Hc2, Hw2. cbn [andb].
      intros [= <- <- <-]. split; discriminate.
Qed.

Lemma frame_steady (i : FrameInput) (w w' : World) (st : Status)
    (tr : list Action) :
  steady (game w) = true ->
  frame cfg i w = (st, w', tr) ->
  st <> Raised /\ (st = Running -> steady (game w') = true).
Proof.
  intros Hs. unfold frame.
  destruct (handle_events cfg (events i) w) as [[st1 w1] tr1] eqn:Eh.
  pose proof (handle_events_status _ _ _ _ _ Eh) as Hst.
  destruct st1; try congruence.
  - pose proof (handle_events_steady _ _ _ _ Hs Eh) as Hs1.
    destruct (frame_after_events cfg i w1) as [[st2 w2] tr2] eqn:Ef.
    intros [= <- <- <-]. eapply frame_after_events_steady; eassumption.
  - intros [= <- <- <-]. split; discriminate.
Qed.

Lemma run_steady (fs : list FrameInput) (w w' : World) (st : Status)
    (tr : list Action) :
  steady (game w) = true ->
  run cfg fs w = (st, w', tr) ->
  st <> Raised
  /\ (st = Running ->
      steady (game w') = true
      /\ exists p o,
           Score.score (game w') !! "player" = Some p
           /\ Score.score (game w') !! "opponent" = Some o
           /\ 0 <= p <= 27 /\ 0 <= o <= 8
           /\ (Score.show_retry_modal (game w') = true <-> 26 < p \/ 7 < o)).
Proof.
  revert w w' st tr. induction fs as [|i rest IH]; intros w w' st tr Hs;
    cbn [run].
  - intros [= <- <- <-]. split; [discriminate|]. intros _.
    split; [exact Hs|].
    apply steady_spec in Hs as (_ & _ & p & o & Hp & Ho & P0 & O0 & H1 & H2).
    exists p, o. split; [exact Hp|]. split; [exact Ho|].
    destruct (Score.show_retry_modal (game w)).
    + specialize (H1 eq_refl). repeat split; try lia.
    + specialize (H2 eq_refl). repeat split; try lia; try discriminate.
  - destruct (frame cfg i w) as [[st1 w1] tr1] eqn:Ef.
    destruct (frame_steady _ _ _ _ _ Hs Ef) as [Hst Hs1].
    destruct st1; try congruence.
    + destruct (run cfg rest w1) as [[st2 w2] tr2] eqn:Er.
      intros [= <- <- <-]. eapply IH; [apply Hs1; reflexivity | exact Er].
    + intros [= <- <- <-]. split; discriminate.
Qed.

(** X6. Started in a steady challenge, the game loop never raises an exception
    and, while it goes on, the challenge is steady after every frame: not
    won, the score dict complete, no counter more than one beyond its
    target, and the retry modal shown exactly when one is beyond it. *)
Theorem run_keeps_steady (fs : list FrameInput) (w w' : World) (st : Status)
    (tr : list Action) :
  steady (game w) = true ->
  run cfg fs w = (st, w', tr) ->
  st <> Raised
  /\ (st = Running ->
      steady (game w') = true
      /\ exists p o,
           Score.score (game w') !! "player" = Some p
           /\ Score.score (game w') !! "opponent" = Some o
           /\ 0 <= p <= 27 /\ 0 <= o <= 8
           /\ (Score.show_retry_modal (game w') = true <-> 26 < p \/ 7 < o)).
Proof. apply run_steady. Qed.

(** X7. Whatever the score dict and the flags were before (a score file of any
    content), once Continue is pressed in [challenge_menu] with no retry
    modal pending the challenge is Active at 0:0 and the loop that follows
    never raises. *)
Theorem challenge_start_is_safe (d : Ball.Draw) (fs : list FrameInput)
    (w w' : World) (st : Status) (tr : list Action) :
  Score.show_retry_modal (game w) = false ->
  run cfg fs (challenge_menu_continue cfg d w) = (st, w', tr) ->
  Score.state_of (game (challenge_menu_continue cfg d w)) = Score.Active
  /\ Score.score (game (challenge_menu_continue cfg d w)) = Score.zero_score
  /\ st <> Raised
  /\ (st = Running -> steady (game w') = true).
Proof.
  intros Hm Hr.
  assert (Hs : steady (game (challenge_menu_continue cfg d w)) = true)
    by (unfold steady; cbn; rewrite Hm; reflexivity).
  split; [unfold Score.state_of; cbn; now rewrite Hm|].
  split; [reflexivity|].
  destruct (run_steady _ _ _ _ _ Hs Hr) as [H1 H2].
  split; [exact H1|]. intros Hst. now apply H2.
Qed.

(** X8. Without the retry modal the events of a frame never change the game:
    Esc is ignored, and the loop is left, the score saved, exactly when a
    QUIT event is among them. *)
Theorem events_without_modal (evs : list (Event * Oracle)) (w : World) :
  Score.show_retry_modal (game w) = false ->
  handle_events cfg evs w
  = if existsb (fun eo => match fst eo with QUIT => true | _ => false end) evs
    then (Left, w, [SaveScore; QuitPygame])
    else (Running, w, []).
Proof.
  intros Hm. induction evs as [|[e o] rest IH];
    cbn [handle_events existsb fst orb]; [reflexivity|].
  destruct e as [|[|]| | |]; cbn [orb]; try exact IH; [reflexivity|].
  rewrite Hm. exact IH.
Qed.

(** X9. The Yes and No buttons of the retry modal never overlap and lie inside
    the box of the modal, whatever the size of the window: a click is on at
    most one of them. *)
Theorem retry_buttons_layout (pt : Z * Z) :
  (Rect.collidepoint pt (yes_rect cfg) && Rect.collidepoint pt (no_rect cfg)
   = false)
  /\ (Rect.collidepoint pt (yes_rect cfg) = true ->
      Rect.collidepoint pt (retry_box cfg) = true)
  /\ (Rect.collidepoint pt (no_rect cfg) = true ->
      Rect.collidepoint pt (retry_box cfg) = true).
Proof.
  unfold Rect.collidepoint, yes_rect, no_rect, retry_box, btn_y.
  cbn [Rect.x Rect.y Rect.w Rect.h].
  destruct pt as [px py]. cbn [fst snd].
  assert (Hx : (WINDOW_WIDTH cfg - (180 * 2 + 40)) / 2
               = (WINDOW_WIDTH cfg - 740) / 2 + 170).
  { replace (WINDOW_WIDTH cfg - (180 * 2 + 40))
      with (WINDOW_WIDTH cfg - 740 + 170 * 2) by lia.
    now rewrite Z.div_add by lia. }
  rewrite Hx.
  set (bx := (WINDOW_WIDTH cfg - 740) / 2).
  set (by_ := (WINDOW_HEIGHT cfg - 240) / 2).
  split; [|split].
  - apply andb_false_iff.
    destruct (bx + 170 + 180 + 40 <=? px) eqn:E.
    + left. rewrite !andb_false_iff. left. left. right.
      apply Z.ltb_ge. apply Z.leb_le in E. lia.
    + right. reflexivity.
  - rewrite !andb_true_iff, !Z.leb_le, !Z.ltb_lt. lia.
  - rewrite !andb_true_iff, !Z.leb_le, !Z.ltb_lt. lia.
Qed.

Lemma centerx_set_center (c : Z * Z) (r : Rect.t) :
  Rect.centerx (Rect.set_center c r) = fst c
  /\ Rect.centery (Rect.set_center c r) = snd c
  /\ Rect.w (Rect.set_center c r) = Rect.w r
  /\ Rect.h (Rect.set_center c r) = Rect.h r.
Proof.
  unfold Rect.centerx, Rect.centery, Rect.set_center. cbn. repeat split; lia.
Qed.

(** X10. Retry, with both paddles of non-zero size, the player's configured place
    in the right half of the window and the opponent in its left half: the
    score is 0:0 and the modal is gone, the other flags are as before; the
    player's paddle is centred on [POS['player']] and the opponent's on
    [POS['opponent']], each coordinate rounded to the nearest integer (a
    half away from zero) and so within half a pixel of the configured one,
    both keeping their size, direction and previous rectangle; the ball is
    reset. *)
Theorem reset_challenge_round_effect (d : Ball.Draw) (w : World) :
  Rect.truthy (Paddle.rect (player w)) = true ->
  Rect.truthy (Paddle.rect (opponent w)) = true ->
  WINDOW_WIDTH cfg / 2 <= to_int (fst (POS_player cfg)) ->
  Rect.centerx (Paddle.rect (opponent w)) < WINDOW_WIDTH cfg / 2 ->
  let w' := reset_challenge_round cfg d w in
  Score.score (game w') = Score.zero_score
  /\ Score.show_retry_modal (game w') = false
  /\ Score.in_challenge (game w') = Score.in_challenge (game w)
  /\ Score.challenge_won (game w') = Score.challenge_won (game w)
  /\ ball w' = Ball.reset cfg d (ball w)
  /\ player w' = place (POS_player cfg) (player w)
  /\ opponent w' = place (POS_opponent cfg) (opponent w)
  /\ Rect.centerx (Paddle.rect (player w')) = to_int (fst (POS_player cfg))
  /\ Rect.centery (Paddle.rect (player w')) = to_int (snd (POS_player cfg))
  /\ Rect.centerx (Paddle.rect (opponent w')) = to_int (fst (POS_opponent cfg))
  /\ Rect.centery (Paddle.rect (opponent w')) = to_int (snd (POS_opponent cfg))
  /\ (Qabs (inject_Z (Rect.centerx (Paddle.rect (player w')))
            - fst (POS_player cfg)) <= 1 # 2)%Q
  /\ (Qabs (inject_Z (Rect.centery (Paddle.rect (player w')))
            - snd (POS_player cfg)) <= 1 # 2)%Q
  /\ (Qabs (inject_Z (Rect.centerx (Paddle.rect (opponent w')))
            - fst (POS_opponent cfg)) <= 1 # 2)%Q
  /\ (Qabs (inject_Z (Rect.centery (Paddle.rect (opponent w')))
            - snd (POS_opponent cfg)) <= 1 # 2)%Q.
Proof.
  intros Tp To Hp Ho w'.
  assert (Ep : player w' = place (POS_player cfg) (player w)).
  { subst w'. unfold reset_challenge_round. cbn [player].
    unfold reseat_guarded.
    assert (Ht : Rect.truthy (Paddle.rect (place (POS_player cfg) (player w)))
                 = true) by exact Tp.
    rewrite Ht. unfold reseat.
    destruct (centerx_set_center
                (to_int (fst (POS_player cfg)), to_int (snd (POS_player cfg)))
                (Paddle.rect (player w))) as (Cx & _).
    assert (E : (Rect.centerx (Paddle.rect (place (POS_player cfg) (player w)))
                 <? WINDOW_WIDTH cfg / 2) = false).
    { apply Z.ltb_ge. unfold place. cbn [Paddle.rect Paddle.set_rect].
      rewrite Cx. exact Hp. }
    rewrite E.
    unfold place. cbn [Paddle.rect Paddle.set_rect Paddle.kind
                       Paddle.old_rect Paddle.direction Paddle.speed].
    reflexivity. }
  assert (Eo : opponent w' = place (POS_opponent cfg) (opponent w)).
  { subst w'. unfold reset_challenge_round. cbn [opponent].
    unfold reseat_guarded. rewrite To. unfold reseat.
    apply Z.ltb_lt in Ho. now rewrite Ho. }
  split; [reflexivity|]. split; [reflexivity|]. split; [reflexivity|].
  split; [reflexivity|]. split; [reflexivity|].
  split; [exact Ep|]. split; [exact Eo|].
  rewrite Ep, Eo. unfold place. cbn [Paddle.rect Paddle.set_rect].
  destruct (centerx_set_center
              (to_int (fst (POS_player cfg)), to_int (snd (POS_player cfg)))
              (Paddle.rect (player w))) as (C1 & C2 & _).
  destruct (centerx_set_center
              (to_int (fst (POS_opponent cfg)), to_int (snd (POS_opponent cfg)))
              (Paddle.rect (opponent w))) as (C3 & C4 & _).
  cbn [fst snd] in C1, C2, C3, C4. rewrite C1, C2, C3, C4.
  repeat split; apply WallFacts.to_int_nearest.
Qed.

(** X11. A frame that starts paused in a steady challenge and whose only input is
    a left click on Yes: the sprites are not updated, the round is reset and
    the loop goes on with the challenge Active at 0:0, so that the next
    frame updates the sprites again. *)
Theorem retry_click_restarts (i : FrameInput) (o : Oracle) (w : World) :
  steady (game w) = true ->
  Score.show_retry_modal (game w) = true ->
  quiet_events (events i) = true ->
  clicks i = [(MOUSEBUTTONDOWN 1, o)] ->
  Rect.collidepoint (mouse o) (yes_rect cfg) = true ->
  frame cfg i w
  = (Running, reset_challenge_round cfg (draw o) w,
     [PollEvents; FillBackground; DrawSprites; DisplayScore;
      DrawRetryModal; PollMouseEvents; DisplayUpdate])
  /\ Score.state_of (game (reset_challenge_round cfg (draw o) w))
     = Score.Active
  /\ Score.score (game (reset_challenge_round cfg (draw o) w))
     = Score.zero_score.
Proof.
  intros Hs Hm Hq Hc Hy.
  apply steady_spec in Hs as (Hin & Hw & _).
  split; [|split; [|reflexivity]].
  - unfold frame. rewrite (LoopFacts.handle_events_quiet cfg _ w Hq).
    unfold frame_after_events. rewrite Hm. cbv beta iota zeta. rewrite Hm.
    rewrite Hc. cbn [handle_clicks]. cbn [Z.eqb Pos.eqb]. rewrite Hy.
    cbv beta iota zeta.
    assert (E : (Score.in_challenge
                   (game (reset_challenge_round cfg (draw o) w))
                 && Score.challenge_won
                      (game (reset_challenge_round cfg (draw o) w))) = false).
    { unfold reset_challenge_round. cbn. rewrite Hw. apply andb_false_r. }
    rewrite E. reflexivity.
  - unfold Score.state_of, reset_challenge_round. cbn. now rewrite Hin, Hw.
Qed.

End WithSettings.

(** Two paused frames at 27:3: the loop goes on, the challenge is steady. *)
Lemma run_keeps_steady_witness :
  fst (fst (run Examples.cfg0 [Examples.frame_still; Examples.frame_still]
                Examples.world_paused)) <> Raised.
Proof.
  exact (proj1 (run_keeps_steady Examples.cfg0
                  [Examples.frame_still; Examples.frame_still]
                  Examples.world_paused _ _ _ eq_refl
                  (LoopFacts.triple_eta _))).
Defined.

Lemma challenge_start_is_safe_witness :
  Score.state_of (game (challenge_menu_continue Examples.cfg0 Examples.draw0
                                                Examples.world_match_point))
  = Score.Active.
Proof.
  exact (proj1 (challenge_start_is_safe Examples.cfg0 Examples.draw0
                  [Examples.frame_idle] Examples.world_match_point _ _ _
                  eq_refl (LoopFacts.triple_eta _))).
Defined.

(** Esc pressed while the game is in play. *)
Lemma events_without_modal_witness :
  handle_events Examples.cfg0
    [(KEYDOWN K_ESCAPE, mkOracle Continued (0, 0) Examples.draw0)]
    Examples.world_match_point
  = (Running, Examples.world_match_point, []).
Proof.
  exact (events_without_modal Examples.cfg0
           [(KEYDOWN K_ESCAPE, mkOracle Continued (0, 0) Examples.draw0)]
           Examples.world_match_point eq_refl).
Defined.

(** Retry in the 1280 x 721 window: the paddles are centred at y = 361, the
    configured 360.5 rounded. *)
Lemma reset_challenge_round_effect_witness :
  let w' := reset_challenge_round Examples.cfg_odd Examples.draw0
                                  Examples.world_paused in
  Rect.centerx (Paddle.rect (player w')) = 1230
  /\ Rect.centery (Paddle.rect (player w')) = 361
  /\ Rect.centerx (Paddle.rect (opponent w')) = 50
  /\ Rect.centery (Paddle.rect (opponent w')) = 361.
Proof.
  assert (H1 : WINDOW_WIDTH Examples.cfg_odd / 2
               <= to_int (fst (POS_player Examples.cfg_odd)))
    by (vm_compute; discriminate).
  assert (H2 : Rect.centerx (Paddle.rect (opponent Examples.world_paused))
               < WINDOW_WIDTH Examples.cfg_odd / 2)
    by (vm_compute; reflexivity).
  destruct (reset_challenge_round_effect Examples.cfg_odd Examples.draw0
              Examples.world_paused eq_refl eq_refl H1 H2)
    as (_ & _ & _ & _ & _ & _ & _ & Cp & Cq & Co & Cr & _).
  cbv zeta. split; [exact Cp|]. split; [exact Cq|].
  split; [exact Co | exact Cr].
Defined.

Lemma retry_click_restarts_witness :
  Score.state_of (game (reset_challenge_round
                          Examples.cfg0 Examples.draw0 Examples.world_paused))
  = Score.Active.
Proof.
  exact (proj1 (proj2 (retry_click_restarts Examples.cfg0 Examples.frame_yes
                         (mkOracle Continued (500, 400) Examples.draw0)
                         Examples.world_paused
                         eq_refl eq_refl eq_refl eq_refl eq_refl))).
Defined.

End SteadyFacts.

(** ** More on the paddles *)

Module PaddleMotion.
Import Paddle.

(** A bound on a floor from a strict bound on its argument. *)
Lemma Qfloor_lt_succ (q : Q) (k : Z) :
  (q < inject_Z k + 1)%Q -> Qfloor q <= k.
Proof.
  intros H. pose proof (Qfloor_le q) as Hf.
  assert (Hk : (inject_Z (Qfloor q) < inject_Z (k + 1))%Q).
  { rewrite inject_Z_plus. change (inject_Z 1) with 1%Q. lra. }
  rewrite <- Zlt_Qlt in Hk. lia.
Qed.

Lemma Qfloor_ge (q : Q) (k : Z) : (inject_Z k <= q)%Q -> k <= Qfloor q.
Proof.
  intros H. rewrite <- (Qfloor_Z k). now apply Qfloor_resp_le.
Qed.

(** Rounding after adding a non-negative float to an integer does not go
    below the integer; after adding a non-positive one, not above. *)
Lemma to_int_add_nonneg (c : Z) (q : Q) :
  (0 <= q)%Q -> c <= to_int (inject_Z c + q).
Proof.
  intros Hq. unfold to_int. destruct (Qlt_bool _ _).
  - assert (Qfloor (- (inject_Z c + q) + (1 # 2)) <= - c); [|lia].
    apply Qfloor_lt_succ. rewrite inject_Z_opp. lra.
  - apply Qfloor_ge. lra.
Qed.

Lemma to_int_add_nonpos (c : Z) (q : Q) :
  (q <= 0)%Q -> to_int (inject_Z c + q) <= c.
Proof.
  intros Hq. unfold to_int. destruct (Qlt_bool _ _).
  - assert (- c <= Qfloor (- (inject_Z c + q) + (1 # 2))); [|lia].
    apply Qfloor_ge. rewrite inject_Z_opp. lra.
  - apply Qfloor_lt_succ. lra.
Qed.

(** Adding a float that is zero changes nothing. *)
Lemma to_int_add_zero (c : Z) (q : Q) :
  (q == 0)%Q -> to_int (inject_Z c + q) = c.
Proof.
  intros Hq.
  assert (H0 : (0 <= q)%Q) by (rewrite Hq; apply Qle_refl).
  assert (H1 : (q <= 0)%Q) by (rewrite Hq; apply Qle_refl).
  pose proof (to_int_add_nonneg c q H0).
  pose proof (to_int_add_nonpos c q H1).
  lia.
Qed.

Section WithSettings.
Variable cfg : Settings.

(** X12. [Paddle.update] moves a paddle only vertically and keeps its size, kind
    and speed; [old_rect] is the rectangle before the update; the direction
    it leaves is -1, 0 or 1: for the player Down minus Up (0 with both or
    none pressed), for the opponent 1 when the ball's centre is strictly
    below the paddle's and -1 otherwise, never 0. *)
Theorem paddle_update_frame (dt : Q) (keys : Keys) (ball_rect : Rect.t)
    (p : t) :
  let p' := update cfg dt keys ball_rect p in
  Rect.x (rect p') = Rect.x (rect p)
  /\ Rect.w (rect p') = Rect.w (rect p)
  /\ Rect.h (rect p') = Rect.h (rect p)
  /\ old_rect p' = rect p
  /\ kind p' = kind p /\ speed p' = speed p
  /\ (direction p' = -1 \/ direction p' = 0 \/ direction p' = 1)
  /\ (kind p = Player ->
      direction p' = Z.b2z (K_DOWN keys) - Z.b2z (K_UP keys)
      /\ (direction p' = 0 <-> K_DOWN keys = K_UP keys))
  /\ (kind p = Opponent ->
      direction p' <> 0
      /\ (direction p' = 1 <->
          Rect.centery (rect p) < Rect.centery ball_rect)).
Proof.
  unfold update, move, get_direction. cbv zeta. cbn [kind set_old_rect].
  destruct (kind p) eqn:Ek; cbn [rect old_rect direction kind speed
    set_rect set_old_rect set_direction Rect.x Rect.w Rect.h
    Rect.set_bottom Rect.set_top Rect.set_centery Rect.set_y].
  - do 6 (split; [first [reflexivity | exact Ek]|]).
    split; [destruct (K_DOWN keys), (K_UP keys); cbn; lia|].
    split; [|discriminate]. intros _. split; [reflexivity|].
    destruct (K_DOWN keys), (K_UP keys); cbn; split; intros; congruence || lia.
  - do 6 (split; [first [reflexivity | exact Ek]|]).
    destruct (Rect.centery (rect p) <? Rect.centery ball_rect) eqn:E.
    + apply Z.ltb_lt in E. split; [lia|]. split; [discriminate|].
      intros _. split; [lia|]. split; intros; lia.
    + apply Z.ltb_ge in E. split; [lia|]. split; [discriminate|].
      intros _. split; [lia|]. split; intros; lia.
Qed.

(** X13. A paddle that lies within the window moves the way its direction says
    when [speed * dt] is not negative: down (or stays) with direction 1, up
    (or stays) with direction -1, and with direction 0 its rectangle is
    unchanged. *)
Theorem paddle_moves_with_direction (dt : Q) (keys : Keys)
    (ball_rect : Rect.t) (p : t) :
  (0 <= speed p * dt)%Q ->
  0 <= Rect.top (rect p) ->
  Rect.bottom (rect p) <= WINDOW_HEIGHT cfg ->
  let p' := update cfg dt keys ball_rect p in
  (direction p' = 1 -> Rect.top (rect p) <= Rect.top (rect p'))
  /\ (direction p' = -1 -> Rect.top (rect p') <= Rect.top (rect p))
  /\ (direction p' = 0 -> rect p' = rect p).
Proof.
  intros Hv Ht Hb p'. subst p'. unfold update.
  set (p2 := get_direction keys ball_rect (set_old_rect (rect p) p)).
  assert (Hr : rect p2 = rect p)
    by (unfold p2, get_direction; cbn [kind set_old_rect];
        now destruct (kind p)).
  assert (Hsp : speed p2 = speed p)
    by (unfold p2, get_direction; cbn [kind set_old_rect];
        now destruct (kind p)).
  assert (Hd : direction (move cfg dt p2) = direction p2) by reflexivity.
  rewrite Hd. unfold move. cbn [rect set_rect]. rewrite Hr, Hsp.
  set (c := Rect.centery (rect p)).
  set (c' := to_int (inject_Z c + inject_Z (direction p2) * speed p * dt)).
  unfold Rect.top, Rect.bottom, Rect.set_bottom, Rect.set_top,
    Rect.set_centery, Rect.set_y in *. cbn [Rect.x Rect.y Rect.w Rect.h].
  assert (Hc : c = Rect.y (rect p) + Z.shiftr (Rect.h (rect p)) 1)
    by reflexivity.
  split; [|split]; intros Hdir.
  - assert (c <= c').
    { apply to_int_add_nonneg. rewrite Hdir.
      assert (E : (inject_Z 1 * speed p * dt == speed p * dt)%Q) by ring.
      now rewrite E. }
    destruct (c' - Z.shiftr (Rect.h (rect p)) 1 <? 0) eqn:E1;
      match goal with |- context [if ?b then _ else _] =>
        destruct b eqn:E2 end; lia.
  - assert (c' <= c).
    { apply to_int_add_nonpos. rewrite Hdir.
      assert (E : (inject_Z (-1) * speed p * dt == - (speed p * dt))%Q) by ring.
      rewrite E. lra. }
    destruct (c' - Z.shiftr (Rect.h (rect p)) 1 <? 0) eqn:E1;
      match goal with |- context [if ?b then _ else _] =>
        destruct b eqn:E2 end; lia.
  - assert (c' = c).
    { apply to_int_add_zero. rewrite Hdir. ring. }
    destruct (rect p) as [x y w h]. cbn [Rect.x Rect.y Rect.w Rect.h] in *.
    destruct (c' - Z.shiftr h 1 <? 0) eqn:E1;
      match goal with |- context [if ?b then _ else _] =>
        destruct b eqn:E2 end; f_equal; lia.
Qed.

End WithSettings.

(** The opponent's paddle chases a ball below it. *)
Lemma paddle_moves_with_direction_witness :
  Rect.top (rect Examples.left_paddle)
  <= Rect.top (rect (update Examples.cfg0 (1 # 60) (mkKeys false false)
                            (Rect.mk 625 500 30 30) Examples.left_paddle)).
Proof.
  refine (proj1 (paddle_moves_with_direction Examples.cfg0 (1 # 60)
                   (mkKeys false false) (Rect.mk 625 500 30 30)
                   Examples.left_paddle _ _ _) eq_refl).
  - now vm_compute.
  - now vm_compute.
  - now vm_compute.
Defined.

End PaddleMotion.

(** ** More on the ball *)

Module BallMotion.
Import Ball.

Ltac fields :=
  cbn [direction rect old_rect speed_modifier start_time vx vy
       set_rect set_old_rect set_direction set_speed_modifier set_start_time].

Lemma Qopp_opp_eq (q : Q) : (- - q)%Q = q.
Proof. destruct q as [n d]. unfold Qopp. cbn. now rewrite Z.opp_involutive. Qed.

Lemma rect_eta (r : Rect.t) :
  Rect.mk (Rect.x r) (Rect.y r) (Rect.w r) (Rect.h r) = r.
Proof. now destruct r. Qed.

Lemma ball_eta (b : t) :
  mk (rect b) (old_rect b) (direction b) (speed_modifier b) (start_time b) = b.
Proof. now destruct b. Qed.

(** Paddles that do not overlap the ball leave it alone. *)
Lemma collision_apart (a : Axis) (paddles : list Paddle.t) (b : t) :
  Forall (fun s => Rect.colliderect (Paddle.rect s) (rect b) = false) paddles ->
  collision a paddles b = b.
Proof.
  unfold collision. induction paddles as [|s rest IH]; intros H;
    cbn [fold_left]; [reflexivity|].
  inversion H as [|? ? Hs Hrest]; subst.
  unfold collision_sprite at 2. rewrite Hs. now apply IH.
Qed.

Section WithSettings.
Variable cfg : Settings.

(** X14. During the serve delay a ball that no paddle overlaps and that lies
    strictly inside the window stands still: the update leaves its rectangle
    and direction as they are, records the rectangle as previous, sets the
    speed modifier to 0 and does not call [update_score]. *)
Theorem ball_waits_during_serve {G : Type} (cb : string -> G -> option G)
    (dt : Q) (now : Z) (d : Draw) (paddles : list Paddle.t) (b : t) (g : G) :
  now - start_time b < duration ->
  Forall (fun s => Rect.colliderect (Paddle.rect s) (rect b) = false) paddles ->
  0 < Rect.top (rect b) -> Rect.bottom (rect b) < WINDOW_HEIGHT cfg ->
  0 < Rect.left (rect b) -> Rect.right (rect b) < WINDOW_WIDTH cfg ->
  update cfg cb dt now d paddles b g
  = Some (mk (rect b) (rect b) (direction b) 0 (start_time b), g).
Proof.
  intros Ht Hp T B L R. unfold update, timer. fields.
  assert (E : (duration <=? now - start_time b) = false) by (apply Z.leb_gt; lia).
  rewrite E. unfold set_speed_modifier. fields.
  set (b0 := mk (rect b) (rect b) (direction b) 0 (start_time b)).
  assert (Hm : move cfg dt paddles b0 = b0).
  { unfold move. subst b0. fields.
    rewrite (PaddleMotion.to_int_add_zero (Rect.x (rect b)))
      by (cbn [inject_Z]; ring).
    unfold Rect.set_x. rewrite rect_eta.
    change (set_rect (rect b) (mk (rect b) (rect b) (direction b) 0
                                  (start_time b)))
      with (mk (rect b) (rect b) (direction b) 0 (start_time b)).
    rewrite (collision_apart Horizontal) by exact Hp. fields.
    rewrite (PaddleMotion.to_int_add_zero (Rect.y (rect b)))
      by (cbn [inject_Z]; ring).
    unfold Rect.set_y. rewrite rect_eta.
    change (set_rect (rect b) (mk (rect b) (rect b) (direction b) 0
                                  (start_time b)))
      with (mk (rect b) (rect b) (direction b) 0 (start_time b)).
    now rewrite (collision_apart Vertical) by exact Hp. }
  rewrite Hm. unfold wall_collision, wall_bounce. cbv zeta. subst b0. fields.
  assert (E1 : (Rect.top (rect b) <=? 0) = false) by (apply Z.leb_gt; lia).
  rewrite E1. fields.
  assert (E2 : (WINDOW_HEIGHT cfg <=? Rect.bottom (rect b)) = false)
    by (apply Z.leb_gt; lia).
  rewrite E2. unfold exits. fields.
  assert (E3 : (WINDOW_WIDTH cfg <=? Rect.right (rect b)) = false)
    by (apply Z.leb_gt; lia).
  assert (E4 : (Rect.left (rect b) <=? 0) = false) by (apply Z.leb_gt; lia).
  now rewrite E3, E4.
Qed.

(** X15. The walls.  [wall_collision] never changes the x position, the size or
    the x component of the direction before it tests the sides.  For a ball
    less tall than the window: at or above the top it is put on the top wall
    and its y component is negated once; otherwise at or below the bottom it
    is put on the bottom wall and its y component is negated once; otherwise
    nothing changes.  A ball at least as tall as the window that touches the
    top is handled by both tests in the same call: it ends on the bottom wall
    with its direction unchanged. *)
Theorem wall_bounce_once (b : t) :
  let b' := wall_bounce cfg b in
  Rect.x (rect b') = Rect.x (rect b)
  /\ Rect.w (rect b') = Rect.w (rect b)
  /\ Rect.h (rect b') = Rect.h (rect b)
  /\ vx (direction b') = vx (direction b)
  /\ (Rect.h (rect b) < WINDOW_HEIGHT cfg ->
      (Rect.top (rect b) <= 0 ->
         Rect.top (rect b') = 0
         /\ vy (direction b') = (- vy (direction b))%Q)
      /\ (0 < Rect.top (rect b) -> WINDOW_HEIGHT cfg <= Rect.bottom (rect b) ->
            Rect.bottom (rect b') = WINDOW_HEIGHT cfg
            /\ vy (direction b') = (- vy (direction b))%Q)
      /\ (0 < Rect.top (rect b) -> Rect.bottom (rect b) < WINDOW_HEIGHT cfg ->
            b' = b))
  /\ (WINDOW_HEIGHT cfg <= Rect.h (rect b) -> Rect.top (rect b) <= 0 ->
      Rect.bottom (rect b') = WINDOW_HEIGHT cfg
      /\ direction b' = direction b).
Proof.
  unfold wall_bounce. cbv zeta.
  destruct (Rect.top (rect b) <=? 0) eqn:E1;
    match goal with |- context [if ?c then _ else _] => destruct c eqn:E2 end;
    [apply Z.leb_le in E1 | apply Z.leb_le in E1
     | apply Z.leb_gt in E1 | apply Z.leb_gt in E1];
    [apply Z.leb_le in E2 | apply Z.leb_gt in E2
     | apply Z.leb_le in E2 | apply Z.leb_gt in E2];
    unfold flip_y, Rect.bottom, Rect.top, Rect.set_bottom, Rect.set_top,
      Rect.set_y in *;
    cbn [direction rect old_rect speed_modifier start_time vx vy
         set_rect set_old_rect set_direction set_speed_modifier
         set_start_time Rect.x Rect.y Rect.w Rect.h] in *;
    rewrite ?CollisionFacts.Qmult_minus_one, ?Qopp_opp_eq;
    repeat split; intros; try reflexivity; try lia;
    try (destruct (direction b); reflexivity).
Qed.

(** X16. A ball no wider than half the window that is at or beyond the right edge
    is reported for the opponent, then reset. *)
Theorem right_exit_credits_opponent {G : Type} (cb : string -> G -> option G)
    (d : Draw) (b : t) (g : G) :
  2 * Rect.w (rect b) <= WINDOW_WIDTH cfg ->
  WINDOW_WIDTH cfg <= Rect.right (rect b) ->
  scoring_side cfg (wall_bounce cfg b) = "opponent"
  /\ wall_collision cfg cb d b g
     = match cb "opponent" g with
       | Some g' => Some (reset cfg d (wall_bounce cfg b), g')
       | None => None
       end.
Proof.
  intros Hw Hr. unfold Rect.right in Hr.
  pose proof (WallFacts.wall_bounce_x cfg b) as Hx.
  destruct (WallFacts.wall_bounce_frame cfg b) as (Hw' & _).
  assert (He : exits cfg (wall_bounce cfg b) = true).
  { unfold exits, Rect.right. rewrite Hx, Hw'.
    apply orb_true_iff. left. now apply Z.leb_le. }
  assert (Hs : scoring_side cfg (wall_bounce cfg b) = "opponent").
  { unfold scoring_side. rewrite Hx.
    destruct (Qlt_bool _ _) eqn:E; [|reflexivity].
    apply WallFacts.Qlt_bool_true, WallFacts.lt_half_window in E. lia. }
  split; [exact Hs|].
  unfold wall_collision. cbv zeta. now rewrite He, Hs.
Qed.

Lemma wall_bounce_magnitude (b : t) :
  same_magnitude (direction (wall_bounce cfg b)) (direction b).
Proof.
  unfold wall_bounce.
  destruct (Rect.top (rect b) <=? 0);
    match goal with |- context [if ?c then _ else _] => destruct c end;
    repeat (first [apply CollisionFacts.same_magnitude_refl
                  | eapply CollisionFacts.same_magnitude_trans;
                    [apply CollisionFacts.flip_y_magnitude|]; fields]).
Qed.

Lemma advance_magnitude (k : Tick) (b : t) :
  same_magnitude (direction (advance cfg k b)) (direction b).
Proof.
  unfold advance.
  eapply CollisionFacts.same_magnitude_trans; [apply wall_bounce_magnitude|].
  unfold move.
  eapply CollisionFacts.same_magnitude_trans;
    [apply CollisionFacts.collision_keeps|]. fields.
  eapply CollisionFacts.same_magnitude_trans;
    [apply CollisionFacts.collision_keeps|]. fields.
  unfold timer. destruct (duration <=? _); apply CollisionFacts.same_magnitude_refl.
Qed.

Lemma served_same_magnitude (u v : Vector2) :
  same_magnitude u v -> Serve.served v -> Serve.served u.
Proof. unfold Serve.served. intros [-> ->]. auto. Qed.

Lemma reset_served (d : Draw) (b : t) :
  (0 <= unit_u d)%Q -> (unit_u d <= 1)%Q ->
  Serve.served (direction (reset cfg d b)).
Proof.
  intros H0 H1.
  destruct (WallFacts.reset_spec cfg d b) as (_ & _ & _ & _ & Vx & Vy & _).
  cbv zeta in Vx, Vy.
  destruct (WallFacts.uniform_range (unit_u d) H0 H1) as [M1 M2].
  unfold Serve.served. rewrite Vx, Vy.
  split; [now destruct (pick_x d)|].
  set (m := uniform (7 # 10) (8 # 10) (unit_u d)) in *.
  assert (Hm : (Qabs (m * inject_Z (if pick_sign d then 1 else -1)) == m)%Q).
  { rewrite Qabs_Qmult. rewrite (Qabs_pos m) by lra.
    destruct (pick_sign d);
      [change (Qabs (inject_Z 1)) with 1%Q
      | change (Qabs (inject_Z (-1))) with 1%Q]; ring. }
  rewrite Hm. split; assumption.
Qed.

(** X17. Once served, the direction of the ball stays served along all its
    updates, resets included, as long as [random()] is within [0, 1]: the x
    component is of magnitude 1 and the y component of a magnitude within
    [0.7, 0.8]; bounces only change signs. *)
Theorem direction_stays_served {G : Type} (cb : string -> G -> option G)
    (ts : list Tick) (b b' : t) (g g' : G) :
  Serve.unit_draws ts ->
  Serve.served (direction b) ->
  updates cfg cb ts b g = Some (b', g') ->
  Serve.served (direction b').
Proof.
  revert b g. induction ts as [|k rest IH]; intros b g Hd Hs; cbn [updates].
  - intros [= <- <-]. exact Hs.
  - inversion Hd as [|? ? [H0 H1] Hrest]; subst.
    destruct (exits cfg (advance cfg k b)) eqn:He.
    + rewrite (WallFacts.update_exit cfg cb k b g He).
      destruct (cb _ g) as [g1|]; [|discriminate].
      apply IH; [exact Hrest|]. now apply reset_served.
    + rewrite (WallFacts.update_no_exit cfg cb k b g He).
      apply IH; [exact Hrest|].
      eapply served_same_magnitude; [apply advance_magnitude | exact Hs].
Qed.

(** X18. An accepted bounce separates the ball from the paddle: with rectangles
    of positive size, when one of the two edge tests of the axis holds, the
    ball does not overlap that paddle after the resolution. *)
Theorem bounce_separates (a : Axis) (s : Paddle.t) (b : t) :
  Rect.positive (rect b) -> Rect.positive (old_rect b) ->
  Rect.positive (Paddle.rect s) -> Rect.positive (Paddle.old_rect s) ->
  match a with
  | Horizontal => enters_from_left s b || enters_from_right s b
  | Vertical => enters_from_top s b || enters_from_bottom s b
  end = true ->
  Rect.colliderect (Paddle.rect s) (rect (collision_sprite a s b)) = false.
Proof.
  intros [Bw Bh] [Ow Oh] [Sw Sh] [Pw Ph] Hacc.
  unfold collision_sprite.
  destruct (Rect.colliderect (Paddle.rect s) (rect b)) eqn:Ec; [|exact Ec].
  clear Ec.
  destruct a.
  - destruct (enters_from_left s b) eqn:E1.
    + assert (E2 : enters_from_right s
                     (flip_x (set_rect (Rect.set_right
                                          (Rect.left (Paddle.rect s)) (rect b)) b))
                   = false).
      { unfold enters_from_left in E1. apply andb_true_iff in E1 as [_ L2].
        apply Z.leb_le in L2.
        unfold enters_from_right. apply andb_false_iff. right.
        apply Z.leb_gt. unfold flip_x; fields.
        unfold Rect.right, Rect.left in *. lia. }
      rewrite E2. unfold flip_x; fields.
      match goal with |- ?c = false => destruct c eqn:Ec; [|reflexivity] end.
      unfold Rect.colliderect, Rect.set_right, Rect.set_x, Rect.left in Ec.
      cbn [Rect.x Rect.y Rect.w Rect.h] in Ec.
      rewrite !andb_true_iff, !Z.ltb_lt in Ec. lia.
    + cbn [orb] in Hacc. rewrite Hacc. unfold flip_x; fields.
      match goal with |- ?c = false => destruct c eqn:Ec; [|reflexivity] end.
      unfold Rect.colliderect, Rect.set_left, Rect.set_x, Rect.right in Ec.
      cbn [Rect.x Rect.y Rect.w Rect.h] in Ec.
      rewrite !andb_true_iff, !Z.ltb_lt in Ec. lia.
  - destruct (enters_from_top s b) eqn:E1.
    + assert (E2 : enters_from_bottom s
                     (flip_y (set_rect (Rect.set_bottom
                                          (Rect.top (Paddle.rect s)) (rect b)) b))
                   = false).
      { unfold enters_from_top in E1. apply andb_true_iff in E1 as [_ L2].
        apply Z.leb_le in L2.
        unfold enters_from_bottom. apply andb_false_iff. right.
        apply Z.leb_gt. unfold flip_y; fields.
        unfold Rect.bottom, Rect.top in *. lia. }
      rewrite E2. unfold flip_y; fields.
      match goal with |- ?c = false => destruct c eqn:Ec; [|reflexivity] end.
      unfold Rect.colliderect, Rect.set_bottom, Rect.set_y, Rect.top in Ec.
      cbn [Rect.x Rect.y Rect.w Rect.h] in Ec.
      rewrite !andb_true_iff, !Z.ltb_lt in Ec. lia.
    + cbn [orb] in Hacc. rewrite Hacc. unfold flip_y; fields.
      match goal with |- ?c = false => destruct c eqn:Ec; [|reflexivity] end.
      unfold Rect.colliderect, Rect.set_top, Rect.set_y, Rect.bottom in Ec.
      cbn [Rect.x Rect.y Rect.w Rect.h] in Ec.
      rewrite !andb_true_iff, !Z.ltb_lt in Ec. lia.
Qed.

(** X19. One update of the sprites adds at most one point: afterwards either both
    counters are as before, or exactly one of them is one higher. *)
Theorem one_point_per_update (i : Loop.FrameInput) (w w' : Loop.World)
    (p o : Z) :
  Loop.all_sprites_update cfg i w = Some w' ->
  Score.score (Loop.game w) !! "player" = Some p ->
  Score.score (Loop.game w) !! "opponent" = Some o ->
  exists p' o',
    Score.score (Loop.game w') !! "player" = Some p'
    /\ Score.score (Loop.game w') !! "opponent" = Some o'
    /\ ((p' = p /\ o' = o) \/ (p' = p + 1 /\ o' = o) \/ (p' = p /\ o' = o + 1)).
Proof.
  unfold Loop.all_sprites_update.
  destruct (update cfg _ _ _ _ _ _ _) as [[b1 g1]|] eqn:E; [|discriminate].
  intros [= <-] Hp Ho. cbn [Loop.game].
  apply LoopFacts.ball_update_callback in E as [->|[side Hs]].
  - exists p, o. auto.
  - apply MatchFacts.update_score_counts_key in Hs as (v & Hv & -> & _).
    unfold Score.scored_key in *.
    destruct (bool_decide (side = "player")).
    + exists (p + 1), o. rewrite lookup_insert_eq.
      rewrite lookup_insert_ne by discriminate.
      assert (v = p) as -> by congruence.
      split; [reflexivity|]. split; [exact Ho|]. right; left. auto.
    + exists p, (o + 1). rewrite lookup_insert_eq.
      rewrite lookup_insert_ne by discriminate.
      assert (v = o) as -> by congruence.
      split; [exact Hp|]. split; [reflexivity|]. right; right. auto.
Qed.

End WithSettings.

Lemma direction_stays_served_witness :
  exists b' g',
    updates Examples.cfg0 Score.update_score
            [Examples.tick_early; Examples.tick_late]
            (reset Examples.cfg0 Examples.draw0 Examples.ball_left_exit)
            (Examples.challenge_at 3 2) = Some (b', g')
    /\ Serve.served (direction b').
Proof.
  destruct (updates Examples.cfg0 Score.update_score
              [Examples.tick_early; Examples.tick_late]
              (reset Examples.cfg0 Examples.draw0 Examples.ball_left_exit)
              (Examples.challenge_at 3 2)) as [[b' g']|] eqn:E;
    [|vm_compute in E; discriminate].
  exists b', g'. split; [reflexivity|].
  apply (direction_stays_served Examples.cfg0 Score.update_score
           [Examples.tick_early; Examples.tick_late]
           (reset Examples.cfg0 Examples.draw0 Examples.ball_left_exit) b'
           (Examples.challenge_at 3 2) g').
  - unfold Serve.unit_draws.
    constructor; [split; unfold Qle; cbn; lia|].
    constructor; [split; unfold Qle; cbn; lia|]. constructor.
  - unfold Serve.served. vm_compute. repeat split; discriminate.
  - exact E.
Defined.

Lemma bounce_separates_witness :
  Rect.colliderect (Paddle.rect Examples.right_paddle)
    (rect (collision_sprite Horizontal Examples.right_paddle
                            Examples.ball_at_paddle)) = false.
Proof.
  apply (bounce_separates Horizontal Examples.right_paddle
           Examples.ball_at_paddle);
    try (split; now vm_compute); reflexivity.
Defined.

Lemma one_point_per_update_witness :
  exists p' o',
    Score.score (Loop.game Examples.world_match_point) !! "player" = Some 25
    /\ (p' = 25 \/ p' = 26) /\ (o' = 7 \/ o' = 8).
Proof.
  destruct (Loop.all_sprites_update Examples.cfg0 Examples.frame_idle
              Examples.world_match_point) as [w'|] eqn:E;
    [|vm_compute in E; discriminate].
  destruct (one_point_per_update Examples.cfg0 Examples.frame_idle
              Examples.world_match_point w' 25 7 E eq_refl eq_refl)
    as (p' & o' & _ & _ & H).
  exists p', o'. split; [reflexivity|]. lia.
Defined.

(** The ball resting at the centre of the window 500 ms after a serve. *)
Lemma ball_waits_during_serve_witness :
  update Examples.cfg0 Score.update_score (1 # 60) 5500 Examples.draw0
         [Examples.right_paddle; Examples.left_paddle]
         (mk (Rect.mk 625 345 30 30) (Rect.mk 625 345 30 30)
             (mkVector2 (-1 # 1) (3 # 4)) 1 5000)
         (Examples.challenge_at 3 2)
  = Some (mk (Rect.mk 625 345 30 30) (Rect.mk 625 345 30 30)
             (mkVector2 (-1 # 1) (3 # 4)) 0 5000,
          Examples.challenge_at 3 2).
Proof.
  apply (ball_waits_during_serve Examples.cfg0 Score.update_score (1 # 60)
           5500 Examples.draw0 [Examples.right_paddle; Examples.left_paddle]
           (mk (Rect.mk 625 345 30 30) (Rect.mk 625 345 30 30)
               (mkVector2 (-1 # 1) (3 # 4)) 1 5000)
           (Examples.challenge_at 3 2)).
  - now vm_compute.
  - repeat constructor.
  - now vm_compute.
  - now vm_compute.
  - now vm_compute.
  - now vm_compute.
Defined.

(** A ball that passed the right edge at x = 1255. *)
Lemma right_exit_credits_opponent_witness :
  scoring_side Examples.cfg0
    (wall_bounce Examples.cfg0
       (mk (Rect.mk 1255 345 30 30) (Rect.mk 1245 350 30 30)
           (mkVector2 (1 # 1) (-3 # 4)) 1 0))
  = "opponent".
Proof.
  refine (proj1 (right_exit_credits_opponent Examples.cfg0 Score.update_score
                   Examples.draw0
                   (mk (Rect.mk 1255 345 30 30) (Rect.mk 1245 350 30 30)
                       (mkVector2 (1 # 1) (-3 # 4)) 1 0)
                   (Examples.challenge_at 3 2) _ _)).
  - now vm_compute.
  - now vm_compute.
Defined.

End BallMotion.

(** ** Fitting an image *)

Module FitFacts.
Import Fit.

Lemma py_min_le (a b : Q) :
  (py_min a b <= a)%Q /\ (py_min a b <= b)%Q
  /\ (py_min a b = a \/ py_min a b = b).
Proof.
  unfold py_min. destruct (Qlt_bool b a) eqn:E.
  - apply WallFacts.Qlt_bool_true in E.
    split; [now apply Qlt_le_weak|]. split; [apply Qle_refl | now right].
  - split; [apply Qle_refl|]. split; [|now left].
    apply Qnot_lt_le. intros H. apply WallFacts.Qlt_bool_true in H. congruence.
Qed.

Lemma py_round_bounds (q : Q) :
  Qfloor q <= py_round q <= Qfloor q + 1.
Proof.
  unfold py_round. cbv zeta.
  repeat (match goal with |- context [if ?c then _ else _] => destruct c end);
    lia.
Qed.

(** Rounding an integer gives the integer. *)
Lemma py_round_int (q : Q) (n : Z) : (q == inject_Z n)%Q -> py_round q = n.
Proof.
  intros Hq. unfold py_round. cbv zeta.
  assert (Hf : Qfloor q = n) by (rewrite Hq; apply Qfloor_Z).
  rewrite Hf.
  assert (E : Qlt_bool (q - inject_Z n) (1 # 2) = true).
  { apply WallFacts.Qlt_bool_true. rewrite Hq. lra. }
  now rewrite E.
Qed.

(** Rounding does not pass an integer bound. *)
Lemma py_round_le (q : Q) (n : Z) : (q <= inject_Z n)%Q -> py_round q <= n.
Proof.
  intros Hq.
  assert (Hf : Qfloor q <= n).
  { rewrite <- (Qfloor_Z n). now apply Qfloor_resp_le. }
  destruct (Z.eq_dec (Qfloor q) n) as [E|E].
  - rewrite (py_round_int q n); [lia|].
    apply Qle_antisym; [exact Hq|]. rewrite <- E. apply Qfloor_le.
  - pose proof (py_round_bounds q). lia.
Qed.

Lemma scaled_le (r t : Z) (s : Q) :
  0 < r -> (s <= inject_Z t / inject_Z r)%Q ->
  (inject_Z r * s <= inject_Z t)%Q.
Proof.
  intros Hr Hs.
  assert (Hp : (0 < inject_Z r)%Q) by (unfold Qlt; cbn; lia).
  assert (E : (inject_Z t == inject_Z r * (inject_Z t / inject_Z r))%Q).
  { field. intros H. rewrite H in Hp. now apply (Qlt_irrefl 0). }
  rewrite E. apply Qmult_le_l; assumption.
Qed.

Lemma scaled_eq (r t : Z) :
  0 < r -> (inject_Z r * (inject_Z t / inject_Z r) == inject_Z t)%Q.
Proof.
  intros Hr.
  assert (Hp : (0 < inject_Z r)%Q) by (unfold Qlt; cbn; lia).
  field. intros H. rewrite H in Hp. now apply (Qlt_irrefl 0).
Qed.

(** X20. An image of positive size fitted into a target of positive size, rotated
    first or not: the scaled image is at least one pixel and at most the
    target in each dimension, it fills the target in one dimension, and it
    is blitted inside the target, centred to the pixel. *)
Theorem fitted_image_inside (size target : Z * Z) (rotate : bool) :
  0 < fst size -> 0 < snd size -> 1 <= fst target -> 1 <= snd target ->
  exists nw nh x y,
    prepare_surface size target rotate = Some ((nw, nh), (x, y))
    /\ 1 <= nw <= fst target /\ 1 <= nh <= snd target
    /\ (nw = fst target \/ nh = snd target)
    /\ 0 <= x /\ x + nw <= fst target
    /\ 0 <= y /\ y + nh <= snd target
    /\ fst target - nw - 1 <= 2 * x <= fst target - nw
    /\ snd target - nh - 1 <= 2 * y <= snd target - nh.
Proof.
  destruct size as [sw sh], target as [tw th]. cbn [fst snd].
  intros Hsw Hsh Htw Hth. unfold prepare_surface. cbn [fst snd].
  set (sz := if rotate then (sh, sw) else (sw, sh)).
  assert (Hsz : 0 < fst sz /\ 0 < snd sz) by (subst sz; destruct rotate; cbn; lia).
  destruct sz as [rw rh]. cbn [fst snd] in Hsz. destruct Hsz as [Hrw Hrh].
  unfold fit_into_target.
  assert (E1 : (rw =? 0) = false) by (apply Z.eqb_neq; lia).
  assert (E2 : (rh =? 0) = false) by (apply Z.eqb_neq; lia).
  rewrite E1, E2. cbv zeta.
  set (s := py_min (inject_Z tw / inject_Z rw) (inject_Z th / inject_Z rh)).
  destruct (py_min_le (inject_Z tw / inject_Z rw) (inject_Z th / inject_Z rh))
    as (L1 & L2 & L3). fold s in L1, L2, L3.
  pose proof (py_round_le _ tw (scaled_le rw tw s Hrw L1)) as Bw.
  pose proof (py_round_le _ th (scaled_le rh th s Hrh L2)) as Bh.
  set (nw := Z.max 1 (py_round (inject_Z rw * s))) in *.
  set (nh := Z.max 1 (py_round (inject_Z rh * s))) in *.
  assert (Hfill : nw = tw \/ nh = th).
  { destruct L3 as [L3|L3].
    - left. subst nw. rewrite L3.
      rewrite (py_round_int _ tw (scaled_eq rw tw Hrw)). lia.
    - right. subst nh. rewrite L3.
      rewrite (py_round_int _ th (scaled_eq rh th Hrh)). lia. }
  exists nw, nh, ((tw - nw) / 2), ((th - nh) / 2).
  split; [reflexivity|].
  assert (1 <= nw <= tw) by (subst nw; lia).
  assert (1 <= nh <= th) by (subst nh; lia).
  pose proof (Z.div_mod (tw - nw) 2 ltac:(lia)).
  pose proof (Z.mod_pos_bound (tw - nw) 2 ltac:(lia)).
  pose proof (Z.div_mod (th - nh) 2 ltac:(lia)).
  pose proof (Z.mod_pos_bound (th - nh) 2 ltac:(lia)).
  repeat split; first [lia | exact Hfill].
Qed.

Lemma fitted_image_inside_witness :
  exists nw nh x y,
    prepare_surface (300, 120) (40, 100) true = Some ((nw, nh), (x, y))
    /\ 1 <= nw <= 40 /\ 1 <= nh <= 100.
Proof.
  destruct (fitted_image_inside (300, 120) (40, 100) true)
    as (nw & nh & x & y & H & Hw & Hh & _); try (cbn; lia).
  exists nw, nh, x, y. split; [exact H|]. split; [exact Hw | exact Hh].
Defined.

(** X21. An image with the proportions of the target is scaled to the target
    exactly and blitted at its corner. *)
Theorem same_proportions_fill (size target : Z * Z) :
  0 < fst size -> 0 < snd size -> 1 <= fst target -> 1 <= snd target ->
  fst size * snd target = snd size * fst target ->
  fit_into_target size target = Some (target, (0, 0)).
Proof.
  destruct size as [rw rh], target as [tw th]. cbn [fst snd].
  intros Hrw Hrh Htw Hth Hprop. unfold fit_into_target.
  assert (E1 : (rw =? 0) = false) by (apply Z.eqb_neq; lia).
  assert (E2 : (rh =? 0) = false) by (apply Z.eqb_neq; lia).
  rewrite E1, E2. cbv zeta.
  set (s := py_min (inject_Z tw / inject_Z rw) (inject_Z th / inject_Z rh)).
  assert (Hq : (inject_Z tw / inject_Z rw == inject_Z th / inject_Z rh)%Q).
  { unfold Qeq, Qdiv, Qmult, Qinv, inject_Z. cbn [Qnum Qden].
    destruct rw as [|rw|rw]; try lia. destruct rh as [|rh|rh]; try lia.
    cbn [Qnum Qden]. rewrite !Z.mul_1_r, !Pos.mul_1_l. lia. }
  assert (Hs1 : (s == inject_Z tw / inject_Z rw)%Q).
  { destruct (py_min_le (inject_Z tw / inject_Z rw) (inject_Z th / inject_Z rh))
      as (_ & _ & [L|L]); fold s in L; rewrite L; [reflexivity|].
    now symmetry. }
  assert (Hs2 : (s == inject_Z th / inject_Z rh)%Q) by (now rewrite Hs1).
  assert (Rw : py_round (inject_Z rw * s) = tw).
  { apply py_round_int. rewrite Hs1. now apply scaled_eq. }
  assert (Rh : py_round (inject_Z rh * s) = th).
  { apply py_round_int. rewrite Hs2. now apply scaled_eq. }
  rewrite Rw, Rh. rewrite !Z.max_r by lia.
  rewrite !Z.sub_diag. reflexivity.
Qed.

Lemma same_proportions_fill_witness :
  fit_into_target (600, 600) (30, 30) = Some ((30, 30), (0, 0)).
Proof.
  apply (same_proportions_fill (600, 600) (30, 30)); cbn; lia.
Defined.

(** A rounded float is within one half of the float. *)
Lemma py_round_near (q : Q) :
  (inject_Z (py_round q) - q <= 1 # 2)%Q /\ (q - inject_Z (py_round q) <= 1 # 2)%Q.
Proof.
  pose proof (Qfloor_le q) as F1. pose proof (Qlt_floor q) as F2.
  rewrite inject_Z_plus in F2. change (inject_Z 1) with 1%Q in F2.
  unfold py_round. cbv zeta.
  destruct (Qlt_bool (q - inject_Z (Qfloor q)) (1 # 2)) eqn:E1.
  - apply WallFacts.Qlt_bool_true in E1. split; lra.
  - assert (H1 : (1 # 2 <= q - inject_Z (Qfloor q))%Q).
    { apply Qnot_lt_le. intros H. apply WallFacts.Qlt_bool_true in H.
      congruence. }
    destruct (Qlt_bool (1 # 2) (q - inject_Z (Qfloor q))) eqn:E2.
    + rewrite inject_Z_plus. change (inject_Z 1) with 1%Q. split; lra.
    + assert (H2 : (q - inject_Z (Qfloor q) <= 1 # 2)%Q).
      { apply Qnot_lt_le. intros H. apply WallFacts.Qlt_bool_true in H.
        congruence. }
      destruct (Z.even (Qfloor q)); [split; lra|].
      rewrite inject_Z_plus. change (inject_Z 1) with 1%Q. split; lra.
Qed.

(** X22. The proportions are kept up to the rounding: when neither dimension had
    to be raised to one pixel, the cross products of the scaled size and the
    source size differ by at most half the source's width plus height. *)
Theorem fitted_image_proportions (size target : Z * Z) (nw nh x y : Z) :
  0 < fst size -> 0 < snd size ->
  fit_into_target size target = Some ((nw, nh), (x, y)) ->
  1 < nw -> 1 < nh ->
  2 * Z.abs (nw * snd size - nh * fst size) <= fst size + snd size.
Proof.
  destruct size as [rw rh], target as [tw th]. cbn [fst snd].
  intros Hrw Hrh. unfold fit_into_target.
  assert (E1 : (rw =? 0) = false) by (apply Z.eqb_neq; lia).
  assert (E2 : (rh =? 0) = false) by (apply Z.eqb_neq; lia).
  rewrite E1, E2. cbv zeta.
  set (s := py_min (inject_Z tw / inject_Z rw) (inject_Z th / inject_Z rh)).
  intros [= <- <- _ _] Hnw Hnh.
  rewrite Z.max_r in * by lia.
  destruct (py_round_near (inject_Z rw * s)) as [A1 A2].
  destruct (py_round_near (inject_Z rh * s)) as [B1 B2].
  set (nw := py_round (inject_Z rw * s)) in *.
  set (nh := py_round (inject_Z rh * s)) in *.
  assert (Pw : (0 < inject_Z rw)%Q) by (unfold Qlt; cbn; lia).
  assert (Ph : (0 < inject_Z rh)%Q) by (unfold Qlt; cbn; lia).
  assert (U : (2 * (inject_Z nw * inject_Z rh - inject_Z nh * inject_Z rw)
               <= inject_Z rw + inject_Z rh)%Q) by nra.
  assert (L : (- (inject_Z rw + inject_Z rh)
               <= 2 * (inject_Z nw * inject_Z rh - inject_Z nh * inject_Z rw))%Q)
    by nra.
  assert (UZ : 2 * (nw * rh - nh * rw) <= rw + rh).
  { rewrite Zle_Qle. rewrite inject_Z_mult, inject_Z_plus.
    unfold Z.sub. rewrite inject_Z_plus, inject_Z_opp, !inject_Z_mult.
    change (inject_Z 2) with 2%Q. lra. }
  assert (LZ : - (rw + rh) <= 2 * (nw * rh - nh * rw)).
  { rewrite Zle_Qle. rewrite inject_Z_opp, inject_Z_mult, inject_Z_plus.
    unfold Z.sub. rewrite inject_Z_plus, inject_Z_opp, !inject_Z_mult.
    change (inject_Z 2) with 2%Q. lra. }
  lia.
Qed.

Lemma fitted_image_proportions_witness :
  2 * Z.abs (40 * 300 - 100 * 120) <= 120 + 300.
Proof.
  apply (fitted_image_proportions (120, 300) (40, 100) 40 100 0 0);
    try (cbn; lia). vm_compute. reflexivity.
Defined.

End FitFacts.

(** ** The login menu *)

Module LoginFacts.
Import Login.

Lemma lstrip_spaces (ws : Text) (c : N) (rest : Text) :
  Forall (fun x => is_space x = true) ws ->
  is_space c = false ->
  lstrip (ws ++ c :: rest) = c :: rest.
Proof.
  intros Hws Hc. induction Hws as [|x ws Hx _ IH]; cbn [app lstrip].
  - now rewrite Hc.
  - now rewrite Hx.
Qed.

(** [strip] removes the white space around a text that neither starts nor
    ends with white space. *)
Lemma strip_padded (ws1 ws2 core : Text) (c d : N) (mid rmid : Text) :
  Forall (fun x => is_space x = true) ws1 ->
  Forall (fun x => is_space x = true) ws2 ->
  core = c :: mid -> rev core = d :: rmid ->
  is_space c = false -> is_space d = false ->
  strip (ws1 ++ core ++ ws2) = core.
Proof.
  intros H1 H2 Ec Ed Hc Hd. unfold strip.
  rewrite Ec. cbn [app]. rewrite (lstrip_spaces ws1 c (mid ++ ws2) H1 Hc).
  change (c :: mid ++ ws2) with ((c :: mid) ++ ws2). rewrite <- Ec.
  rewrite rev_app_distr, Ed. cbn [app].
  rewrite (lstrip_spaces (rev ws2) d rmid); [| |exact Hd].
  - rewrite <- Ed. apply rev_involutive.
  - now apply List.Forall_rev.
Qed.

Lemma drop_last_length (t : Text) :
  length (drop_last t) = Nat.pred (length t).
Proof.
  unfold drop_last. rewrite removelast_firstn_len.
  rewrite length_firstn. lia.
Qed.

Section WithSettings.
Variable cfg : Settings.

Lemma handle_events_app (a b : list Event) (s : State) :
  handle_events cfg (a ++ b) s
  = match handle_events cfg a s with
    | Continue s' => handle_events cfg b s'
    | ended => ended
    end.
Proof.
  revert s. induction a as [|e a IH]; intros s; cbn [app handle_events];
    [reflexivity|].
  destruct (handle_event cfg e s); auto.
Qed.

(** One event logs in only with the right credentials. *)
Lemma handle_event_logged_in (e : Event) (s : State) :
  handle_event cfg e s = LoggedIn -> credentials_ok s = true.
Proof.
  unfold handle_event. destruct e as [|button pos|[| | |] unicode|];
    try discriminate.
  - destruct (button =? 1); [|discriminate].
    destruct (Rect.collidepoint pos (username_rect cfg)); [discriminate|].
    destruct (Rect.collidepoint pos (password_rect cfg)); [discriminate|].
    destruct (Rect.collidepoint pos (login_rect cfg)); [|discriminate].
    now destruct (credentials_ok s).
  - now destruct (credentials_ok s).
  - destruct (active s); discriminate.
  - destruct (active s); try discriminate;
      match goal with |- context [if ?c then _ else _] => destruct c end;
      discriminate.
Qed.

(** X23. [login_menu] returns true only on an event that finds the user name,
    stripped of surrounding white space, equal to "Pavani Gajre" and the
    password, as typed, equal to "05/02/09". *)
Theorem login_needs_credentials (evs : list Event) (s : State) :
  handle_events cfg evs s = LoggedIn ->
  exists evs1 e evs2 s1,
    evs = evs1 ++ e :: evs2
    /\ handle_events cfg evs1 s = Continue s1
    /\ handle_event cfg e s1 = LoggedIn
    /\ strip (username_text s1) = correct_username
    /\ password_text s1 = correct_password.
Proof.
  revert s. induction evs as [|e rest IH]; intros s; cbn [handle_events];
    [discriminate|].
  destruct (handle_event cfg e s) as [s'| |] eqn:He; [| |discriminate].
  - intros H. destruct (IH s' H) as (evs1 & e1 & evs2 & s1 & -> & H1 & H2 & H3).
    exists (e :: evs1), e1, evs2, s1. split; [reflexivity|].
    split; [cbn [handle_events]; now rewrite He|]. auto.
  - intros _. exists [], e, rest, s. split; [reflexivity|].
    split; [reflexivity|]. split; [exact He|].
    apply handle_event_logged_in in He. unfold credentials_ok in He.
    apply andb_true_iff in He as [U P].
    apply bool_decide_eq_true in U. apply bool_decide_eq_true in P. auto.
Qed.

(** X24. With key events of at most one code point each, the user name never
    grows beyond 36 code points and the password never beyond 16. *)
Theorem text_lengths_bounded (evs : list Event) (s s' : State) :
  single_keys evs ->
  (length (username_text s) <= 36)%nat ->
  (length (password_text s) <= 16)%nat ->
  handle_events cfg evs s = Continue s' ->
  (length (username_text s') <= 36)%nat
  /\ (length (password_text s') <= 16)%nat.
Proof.
  revert s. induction evs as [|e rest IH]; intros s Hk Hu Hp;
    cbn [handle_events].
  - intros [= <-]. auto.
  - inversion Hk as [|? ? He Hrest]; subst.
    destruct (handle_event cfg e s) as [s1| |] eqn:E; try discriminate.
    apply IH; [exact Hrest| |].
    + unfold handle_event in E.
      destruct e as [|button pos|[| | |] unicode|]; try discriminate;
        repeat (match type of E with
                | context [if ?c then _ else _] => destruct c eqn:?
                | context [match active s with _ => _ end] =>
                  destruct (active s) eqn:?
                end; cbv beta iota in E; try discriminate);
        injection E as <-; cbn [username_text]; try assumption;
        try (rewrite drop_last_length; lia);
        try (rewrite length_app;
             repeat match goal with
                    | H : (_ <? _)%nat = true |- _ => apply Nat.ltb_lt in H
                    end; lia).
    + unfold handle_event in E.
      destruct e as [|button pos|[| | |] unicode|]; try discriminate;
        repeat (match type of E with
                | context [if ?c then _ else _] => destruct c eqn:?
                | context [match active s with _ => _ end] =>
                  destruct (active s) eqn:?
                end; cbv beta iota in E; try discriminate);
        injection E as <-; cbn [password_text]; try assumption;
        try (rewrite drop_last_length; lia);
        try (rewrite length_app;
             repeat match goal with
                    | H : (_ <? _)%nat = true |- _ => apply Nat.ltb_lt in H
                    end; lia).
Qed.

Lemma typing_username (t : Text) (s : State) :
  active s = Username ->
  handle_events cfg (typing t) s
  = Continue (mk (username_text s
                  ++ firstn (36 - length (username_text s)) t)
                 (password_text s) Username).
Proof.
  revert s. induction t as [|c t IH]; intros s Ha.
  - cbn [typing map handle_events]. rewrite firstn_nil, app_nil_r.
    destruct s; cbn in *; now subst.
  - cbn [typing map handle_events handle_event]. rewrite Ha.
    destruct (length (username_text s) <? 36)%nat eqn:E.
    + apply Nat.ltb_lt in E. fold (typing t). rewrite IH by reflexivity.
      cbn [username_text password_text]. rewrite length_app. cbn [length].
      replace (36 - length (username_text s))%nat
        with (S (36 - (length (username_text s) + 1)))%nat by lia.
      cbn [firstn]. now rewrite <- app_assoc.
    + apply Nat.ltb_ge in E. fold (typing t). rewrite IH by exact Ha.
      replace (36 - length (username_text s))%nat with 0%nat by lia.
      reflexivity.
Qed.

Lemma typing_password (t : Text) (s : State) :
  active s = Password ->
  handle_events cfg (typing t) s
  = Continue (mk (username_text s)
                 (password_text s
                  ++ firstn (16 - length (password_text s)) t) Password).
Proof.
  revert s. induction t as [|c t IH]; intros s Ha.
  - cbn [typing map handle_events]. rewrite firstn_nil, app_nil_r.
    destruct s; cbn in *; now subst.
  - cbn [typing map handle_events handle_event]. rewrite Ha.
    destruct (length (password_text s) <? 16)%nat eqn:E.
    + apply Nat.ltb_lt in E. fold (typing t). rewrite IH by reflexivity.
      cbn [username_text password_text]. rewrite length_app. cbn [length].
      replace (16 - length (password_text s))%nat
        with (S (16 - (length (password_text s) + 1)))%nat by lia.
      cbn [firstn]. now rewrite <- app_assoc.
    + apply Nat.ltb_ge in E. fold (typing t). rewrite IH by exact Ha.
      replace (16 - length (password_text s))%nat with 0%nat by lia.
      reflexivity.
Qed.

(** X25. Typing a text key by key fills the active field up to its limit and
    drops the rest: the user name takes what fits into 36 code points, the
    password what fits into 16; with no field active nothing is taken. *)
Theorem typing_fills_field (t : Text) (s : State) :
  handle_events cfg (typing t) s
  = Continue
      match active s with
      | Username =>
        mk (username_text s ++ firstn (36 - length (username_text s)) t)
           (password_text s) Username
      | Password =>
        mk (username_text s)
           (password_text s ++ firstn (16 - length (password_text s)) t)
           Password
      | NoField => s
      end.
Proof.
  destruct (active s) eqn:Ha.
  - induction t as [|c t IH]; cbn [typing map handle_events handle_event];
      [reflexivity|]. now rewrite Ha.
  - now apply typing_username.
  - now apply typing_password.
Qed.

(** X26. A key typed into a field that is below its limit, then Backspace, leaves
    the texts and the active field as they were. *)
Theorem backspace_undoes_key (c : N) (u : Text) (s : State) :
  match active s with
  | Username => (length (username_text s) < 36)%nat
  | Password => (length (password_text s) < 16)%nat
  | NoField => True
  end ->
  handle_events cfg [KEYDOWN K_other [c]; KEYDOWN K_BACKSPACE u] s
  = Continue s.
Proof.
  intros H. cbn [handle_events handle_event].
  destruct s as [un pw [| |]]; cbn [active username_text password_text] in *.
  - reflexivity.
  - apply Nat.ltb_lt in H. rewrite H. cbn [active username_text password_text].
    unfold drop_last. now rewrite removelast_last.
  - apply Nat.ltb_lt in H. rewrite H. cbn [active username_text password_text].
    unfold drop_last. now rewrite removelast_last.
Qed.

(** X27. By the keyboard alone: Tab, the user name with any white space around it
    (36 code points at most in all), Tab, the password, Return: the menu
    returns true. *)
Theorem padded_name_logs_in (ws1 ws2 : Text) :
  Forall (fun x => is_space x = true) ws1 ->
  Forall (fun x => is_space x = true) ws2 ->
  (length ws1 + length correct_username + length ws2 <= 36)%nat ->
  handle_events cfg
    (KEYDOWN K_TAB [] :: typing (ws1 ++ correct_username ++ ws2)
     ++ KEYDOWN K_TAB [] :: typing correct_password
     ++ [KEYDOWN K_RETURN []]) initial
  = LoggedIn.
Proof.
  intros H1 H2 Hl.
  cbn [handle_events handle_event initial active username_text password_text].
  rewrite handle_events_app, typing_username by reflexivity.
  cbn [username_text password_text length app Nat.sub].
  rewrite firstn_all2 by (rewrite !length_app; lia).
  cbn [handle_events handle_event active username_text password_text].
  rewrite handle_events_app, typing_password by reflexivity.
  cbn [username_text password_text length app Nat.sub].
  rewrite firstn_all2 by (vm_compute; lia).
  cbn [handle_events handle_event]. unfold credentials_ok.
  cbn [username_text password_text].
  rewrite (strip_padded ws1 ws2 correct_username 80%N 101%N
             (tl correct_username) (tl (rev correct_username)) H1 H2
             eq_refl eq_refl eq_refl eq_refl).
  rewrite !bool_decide_eq_true_2 by reflexivity. reflexivity.
Qed.

End WithSettings.

Lemma login_needs_credentials_witness :
  exists s1,
    strip (username_text s1) = correct_username
    /\ password_text s1 = correct_password.
Proof.
  destruct (login_needs_credentials Examples.cfg0
              (KEYDOWN K_TAB [] :: typing correct_username
               ++ KEYDOWN K_TAB [] :: typing correct_password
               ++ [KEYDOWN K_RETURN []]) initial)
    as (_ & _ & _ & s1 & _ & _ & _ & Hu & Hp); [vm_compute; reflexivity|].
  exists s1. split; [exact Hu | exact Hp].
Defined.

(** Forty keys typed into the user name. *)
Lemma text_lengths_bounded_witness :
  exists s',
    handle_events Examples.cfg0 (typing (repeat 97%N 40)) (mk [] [] Username)
    = Continue s'
    /\ (length (username_text s') <= 36)%nat.
Proof.
  destruct (handle_events Examples.cfg0 (typing (repeat 97%N 40))
                          (mk [] [] Username)) as [s'| |] eqn:E;
    [|vm_compute in E; discriminate|vm_compute in E; discriminate].
  exists s'. split; [reflexivity|].
  refine (proj1 (text_lengths_bounded Examples.cfg0 _ _ s' _ _ _ E)).
  - unfold single_keys, typing. cbn [repeat map]. repeat constructor.
  - cbn; lia.
  - cbn; lia.
Defined.

Lemma backspace_undoes_key_witness :
  handle_events Examples.cfg0
    [KEYDOWN K_other [97%N]; KEYDOWN K_BACKSPACE []]
    (mk (text_of "Pav") [] Username)
  = Continue (mk (text_of "Pav") [] Username).
Proof.
  apply (backspace_undoes_key Examples.cfg0 97%N []
           (mk (text_of "Pav") [] Username)).
  vm_compute. lia.
Defined.

(** Two spaces before the name and a tab after it. *)
Lemma padded_name_logs_in_witness :
  handle_events Examples.cfg0
    (KEYDOWN K_TAB [] :: typing ([32%N; 32%N] ++ correct_username ++ [9%N])
     ++ KEYDOWN K_TAB [] :: typing correct_password
     ++ [KEYDOWN K_RETURN []]) initial
  = LoggedIn.
Proof.
  apply (padded_name_logs_in Examples.cfg0 [32%N; 32%N] [9%N]).
  - repeat constructor.
  - repeat constructor.
  - vm_compute. lia.
Defined.

End LoginFacts.
